(** * release-drafter: the release computation engine of [lib/releases.js]

    A shallow embedding of the functions of [lib/releases.js]
    ([sortReleases], [findReleases], [categorizePullRequests],
    [generateChangeLog], [resolveVersionKeyIncrement],
    [generateReleaseInfo], [createRelease], [updateRelease],
    [updateDraftReleaseParameters]) and of the action of [index.js]
    ([getInput], [updateConfigFromInput], [setActionOutput], [drafter] and
    the autolabeler), with the properties the specification states about
    them and further properties that the code shows.

    Conventions of the embedding.
    - A JavaScript string is a Rocq [string]; the text handled here (tags,
      labels, titles, templates) is taken to be ASCII.
    - [undefined] and [null] are [None].
    - A number that the code only compares, increments or prints is an
      [N] or a [Z]; the numbers that go through [Math.max] are [JsNumber]s.
    - Packages and modules that [lib/releases.js] imports but that are not
      part of it ([compare-versions], [semver], [./versions], [./template])
      are parameters of the sections below. *)

From Stdlib Require Import ZArith NArith Ascii String DecimalString.
From Stdlib Require DecimalPos DecimalN.
From Equations Require Import Equations.
From stdpp Require Import base tactics option list sorting gmap strings.

Local Open Scope stdpp_scope.

(** ** Strings *)

Module Str.

Definition LF : string := String "010"%char "".

(** [s.length] *)
Definition length (s : string) : nat := String.length s.

(** [s.startsWith(p)] *)
Definition startsWith (s p : string) : bool := String.prefix p s.

(** [s.slice(n)] for [0 <= n] *)
Fixpoint slice (n : nat) (s : string) : string :=
  match n, s with
  | O, _ => s
  | S n', String _ s' => slice n' s'
  | S _, "" => ""
  end.

(** the first [n] characters of [s]: [s.slice(0, n)] *)
Fixpoint take (n : nat) (s : string) : string :=
  match n, s with
  | S n', String c s' => String c (take n' s')
  | _, _ => ""
  end.

(** [s.includes(c)] for a one-character [c] *)
Fixpoint has_char (c : ascii) (s : string) : bool :=
  match s with
  | "" => false
  | String d s' => if Ascii.eqb c d then true else has_char c s'
  end.

(** White space of [String.prototype.trim], within ASCII. *)
Definition is_space (c : ascii) : bool := Ascii.is_space c.

(** Line terminators, which [.] of a regular expression does not match. *)
Definition is_line_terminator (c : ascii) : bool :=
  match c with
  | "010"%char | "013"%char => true
  | _ => false
  end.

Fixpoint trimStart (s : string) : string :=
  match s with
  | "" => ""
  | String c s' => if is_space c then trimStart s' else s
  end.

Fixpoint trimEnd (s : string) : string :=
  match s with
  | "" => ""
  | String c s' =>
      match trimEnd s' with
      | "" => if is_space c then "" else String c ""
      | r => String c r
      end
  end.

(** [s.trim()] *)
Definition trim (s : string) : string := trimStart (trimEnd s).

(** [s.replace(/^p/, '')] for a literal [p] *)
Definition strip_prefix (p s : string) : string :=
  if startsWith s p then slice (length p) s else s.

(** [s.endsWith(m)], as a proposition *)
Definition ends_with (s m : string) : Prop := ∃ p, s = p +:+ m.

(** Template-literal rendering of a non-negative integer. *)
Definition of_N (n : N) : string := NilEmpty.string_of_uint (N.to_uint n).

(** [Number.parseInt(ds, 10)] on a string of decimal digits. *)
Fixpoint parse_digits (acc : N) (ds : string) : N :=
  match ds with
  | "" => acc
  | String c ds' =>
      match Ascii.is_nat c with
      | Some d => parse_digits (acc * 10 + N.of_nat d) ds'
      | None => acc
      end
  end.

Definition is_digit (c : ascii) : bool := bool_decide (is_Some (Ascii.is_nat c)).

Lemma length_slice_le n s : String.length (slice n s) <= String.length s.
Proof.
  revert s. induction n as [|n IH]; intros [|c s]; simpl; try lia.
  specialize (IH s). lia.
Qed.

End Str.

(** ** [String.prototype.replace] with a global regular expression

    [match_at s] is the length of the match of the expression anchored at
    the start of [s], when there is one.  The expressions used here never
    match the empty string, so a match of length [0] is treated as no
    match.  The scan goes left to right; after a match it resumes right
    after the matched text. *)

Section replace.
Variable match_at : string → option nat.
Variable callback : string → string.

Equations? replace_all (s : string) : string by wf (String.length s) lt :=
  replace_all "" := "";
  replace_all (String c s') with match_at (String c s') := {
    | Some (S n) =>
        callback (String c (Str.take n s')) +:+ replace_all (Str.slice n s')
    | _ => String c (replace_all s') }.
Proof.
  all: try (simpl; lia).
  pose proof (Str.length_slice_le n s'). simpl. lia.
Qed.
End replace.

(** ** [escapeTitle] (inside [generateChangeLog]) *)

Section escapeTitle.
(** [config['change-title-escapes']] *)
Variable change_title_escapes : string.

Definition backtick : ascii := "`"%char.

(** The closing back-tick of [`.*?`], counted from the character after the
    opening one: the first back-tick, with no line terminator before it. *)
Fixpoint span_end (s : string) : option nat :=
  match s with
  | "" => None
  | String c s' =>
      if Ascii.eqb c backtick then Some 0
      else if Str.is_line_terminator c then None
      else S <$> span_end s'
  end.

(** The expression [[<escapes>]|`.*?`] anchored at the start of [s].
    [regexEscape] neutralises every metacharacter of the escape set, so
    the class holds exactly the characters of the set.  The class is the
    first alternative: it wins over a code span at the same position. *)
Definition title_regex (s : string) : option nat :=
  match s with
  | "" => None
  | String c s' =>
      if Str.has_char c change_title_escapes then Some 1
      else if Ascii.eqb c backtick then (λ k, k + 2) <$> span_end s'
      else None
  end.

(** The replacement callback of [escapeTitle]. *)
Definition escape_match (m : string) : string :=
  if decide (1 < Str.length m) then m
  else if decide (m = "@" ∨ m = "#") then m +:+ "<!---->"
  else "\" +:+ m.

Definition escapeTitle (title : string) : string :=
  replace_all title_regex escape_match title.
End escapeTitle.

(** ** JavaScript values the engine relies on *)

(** The result of an arithmetic built-in: a number, [-Infinity] or [NaN]. *)
Inductive JsNumber := Num (z : Z) | NegInfinity | NaN.

Global Instance JsNumber_eq_dec : EqDecision JsNumber.
Proof. solve_decision. Defined.

(** [===] on numbers: [NaN] is equal to nothing, itself included. *)
Definition strict_equal (x y : JsNumber) : bool :=
  match x, y with
  | Num a, Num b => bool_decide (a = b)
  | NegInfinity, NegInfinity => true
  | _, _ => false
  end.

(** [Math.max(...xs)], where an element may be [undefined] ([None]): no
    argument gives [-Infinity], an [undefined] argument gives [NaN]. *)
Definition Math_max (xs : list (option Z)) : JsNumber :=
  foldl (λ acc x,
           match acc, x with
           | NaN, _ => NaN
           | _, None => NaN
           | NegInfinity, Some z => Num z
           | Num a, Some z => Num (Z.max a z)
           end) NegInfinity xs.

(** [a || b] on strings that may be [undefined]: the empty string is falsy. *)
Definition or_string (a b : option string) : option string :=
  match a with
  | Some s => if decide (s = "") then b else a
  | None => b
  end.

(** Truthiness of a string. *)
Definition truthy (s : string) : bool := bool_decide (s ≠ "").

(** The names every plain object inherits from [Object.prototype]; reading
    one of them from an object that has no own property of that name gives
    the inherited function (for [__proto__], the prototype itself). *)
Definition Object_prototype_properties : list string :=
  [ "constructor"; "__defineGetter__"; "__defineSetter__"; "hasOwnProperty";
    "__lookupGetter__"; "__lookupSetter__"; "isPrototypeOf";
    "propertyIsEnumerable"; "toString"; "valueOf"; "__proto__";
    "toLocaleString" ].

(** [Array.prototype.sort(cmp)]: a stable sort; [cmp a b > 0] puts [b]
    before [a].  For a consistent comparator every stable sort gives this
    list. *)
Section sort.
Context {A : Type} (cmp : A → A → Z).

Fixpoint sort_insert (x : A) (l : list A) : list A :=
  match l with
  | [] => [x]
  | y :: l' => if (0 <? cmp y x)%Z then x :: y :: l' else y :: sort_insert x l'
  end.

Definition js_sort (l : list A) : list A :=
  foldl (λ acc x, sort_insert x acc) [] l.
End sort.

(** [xs.join(sep)] *)
Fixpoint join (sep : string) (xs : list string) : string :=
  match xs with
  | [] => ""
  | [x] => x
  | x :: xs' => x +:+ sep +:+ join sep xs'
  end.

(** ** Data model *)

Module Release.
Record t := mk {
  id : N;
  name : option string;
  tag_name : string;
  (** [new Date(created_at)], in milliseconds *)
  created_at : Z;
  target_commitish : string;
  draft : bool;
  prerelease : bool;
  body : option string;
}.
Global Instance eq_dec : EqDecision t.
Proof. solve_decision. Defined.
End Release.

Module Author.
Record t := mk {
  login : string;
  (** [__typename] *)
  typename : option string;
  url : string;
}.
Global Instance eq_dec : EqDecision t.
Proof. solve_decision. Defined.
End Author.

Module PullRequest.
Record t := mk {
  number : N;
  title : string;
  body : string;
  url : string;
  baseRefName : string;
  headRefName : string;
  author : option Author.t;
  (** the names of [labels.nodes] *)
  labels : list string;
}.
Global Instance eq_dec : EqDecision t.
Proof. solve_decision. Defined.
End PullRequest.

Module Commit.
(** [commit.author]: [name] and, when the author is a user, the login of
    [user]. *)
Record t := mk {
  author_name : string;
  author_user : option string;
}.
End Commit.

Module Category.
Record t := mk {
  title : string;
  labels : list string;
  (** [collapse-after] *)
  collapse_after : nat;
}.
Global Instance eq_dec : EqDecision t.
Proof. solve_decision. Defined.
End Category.

(** An element of [categorizedPullRequests]:
    [{ ...category, pullRequests }]. *)
Module Categorized.
Record t := mk {
  category : Category.t;
  pullRequests : list PullRequest.t;
}.
Definition push (pr : PullRequest.t) (c : t) : t :=
  mk (category c) (pullRequests c ++ [pr]).
End Categorized.

Inductive VersionKey := patch | minor | major.

Global Instance VersionKey_eq_dec : EqDecision VersionKey.
Proof. solve_decision. Defined.

Module Replacer.
Record t := mk { search : string; replace : string }.
End Replacer.

Module Config.
Record t := mk {
  prerelease_identifier : string;
  tag_prefix : string;
  version_template : string;
  tag_template : string;
  name_template : string;
  replacers : list Replacer.t;
  header : string;
  template : string;
  footer : string;
  exclude_labels : list string;
  include_labels : list string;
  exclude_contributors : list string;
  categories : list Category.t;
  change_template : string;
  category_template : string;
  change_title_escapes : string;
  no_changes_template : string;
  no_contributors_template : string;
  (** [config['version-resolver'][key].labels] *)
  version_resolver_labels : VersionKey → list string;
  (** [config['version-resolver'].default] *)
  version_resolver_default : string;
}.
End Config.

(** ** Label filters *)

(** [labels.some((label) => names.includes(label.name))] *)
Definition some_label_in (names : list string) (pr : PullRequest.t) : bool :=
  existsb (λ l, bool_decide (l ∈ names)) (PullRequest.labels pr).

Definition getFilterExcludedPullRequests (excludeLabels : list string)
    (pullRequest : PullRequest.t) : bool :=
  if some_label_in excludeLabels pullRequest then false else true.

Definition getFilterIncludedPullRequests (includeLabels : list string)
    (pullRequest : PullRequest.t) : bool :=
  if bool_decide (length includeLabels = 0) || some_label_in includeLabels pullRequest
  then true else false.

(** ** [resolveVersionKeyIncrement] *)

Definition priorityMap (key : VersionKey) : Z :=
  match key with patch => 1 | minor => 2 | major => 3 end.

(** [Object.keys(priorityMap)], in insertion order *)
Definition priorityMap_keys : list VersionKey := [patch; minor; major].

Definition key_name (key : VersionKey) : string :=
  match key with patch => "patch" | minor => "minor" | major => "major" end.

(** [Object.fromEntries(entries)]: a later entry overwrites an earlier one
    with the same key. *)
Definition fromEntries {V} (entries : list (string * V)) : gmap string V :=
  foldl (λ m e, <[e.1 := e.2]> m) ∅ entries.

(** What [object[name]] evaluates to for a plain object holding [m]. *)
Inductive Property (V : Type) :=
| Own (v : V)
| Inherited
| Undefined.
Global Arguments Own {V} v.
Global Arguments Inherited {V}.
Global Arguments Undefined {V}.

Definition get_property {V} (m : gmap string V) (name : string) : Property V :=
  match m !! name with
  | Some v => Own v
  | None =>
      if decide (name ∈ Object_prototype_properties) then Inherited else Undefined
  end.

(** [Boolean(v)]: the own values here are non-empty strings, the inherited
    ones functions or objects. *)
Definition Boolean {V} (v : Property V) : bool :=
  match v with Undefined => false | _ => true end.

Definition labelToKeyMap (config : Config.t) : gmap string VersionKey :=
  fromEntries
    (concat (flat_map
       (λ key, [ (λ label, (label, key)) <$> Config.version_resolver_labels config key ])
       priorityMap_keys)).

(** [priorityMap[key]] for an element of [keys]: a function or object used
    as a property name names no property of [priorityMap]. *)
Definition priority_of (key : Property VersionKey) : option Z :=
  match key with
  | Own k => Some (priorityMap k)
  | _ => None
  end.

Definition resolveVersionKeyIncrement (mergedPullRequests : list PullRequest.t)
    (config : Config.t) (isPreRelease : bool) : string :=
  let keys :=
    List.filter Boolean
      (flat_map
         (λ pr, get_property (labelToKeyMap config) <$> PullRequest.labels pr)
         (List.filter (getFilterIncludedPullRequests (Config.include_labels config))
            (List.filter (getFilterExcludedPullRequests (Config.exclude_labels config))
               mergedPullRequests))) in
  let keyPriorities := priority_of <$> keys in
  let priority := Math_max keyPriorities in
  let versionKey :=
    find (λ key, strict_equal (Num (priorityMap key)) priority) priorityMap_keys in
  let versionKeyIncrement :=
    match versionKey with
    | Some key => key_name key
    | None => Config.version_resolver_default config
    end in
  let shouldIncrementAsPrerelease :=
    isPreRelease && truthy (Config.prerelease_identifier config) in
  if negb shouldIncrementAsPrerelease then versionKeyIncrement
  else "pre" +:+ versionKeyIncrement.

(** ** [categorizePullRequests] *)

(** [array.findIndex(p)]; [-1] is [None]. *)
Fixpoint findIndex {A} (p : A → bool) (l : list A) : option nat :=
  match l with
  | [] => None
  | x :: l' => if p x then Some 0 else S <$> findIndex p l'
  end.

(** [array.filter(f)] for a callback [f] that updates the state [S] of its
    closure while it answers. *)
Fixpoint filter_st {S A} (f : S → A → S * bool) (s : S) (l : list A) : S * list A :=
  match l with
  | [] => (s, [])
  | x :: l' =>
      let '(s1, keep) := f s x in
      let '(s2, kept) := filter_st f s1 l' in
      (s2, if keep then x :: kept else kept)
  end.

Section categorizePullRequests.
Variable config : Config.t.

Definition allCategoryLabels : gset string :=
  list_to_set (flat_map Category.labels (Config.categories config)).

Definition uncategorizedCategoryIndex : option nat :=
  findIndex (λ category, bool_decide (length (Category.labels category) = 0))
    (Config.categories config).

(** The two arrays the closure [filterUncategorizedPullRequests] pushes
    to: [uncategorizedPullRequests] and [categorizedPullRequests]. *)
Definition Buckets : Type := list PullRequest.t * list Categorized.t.

Definition filterUncategorizedPullRequests (b : Buckets)
    (pullRequest : PullRequest.t) : Buckets * bool :=
  let labels := PullRequest.labels pullRequest in
  if bool_decide (length labels = 0)
     || negb (existsb (λ label, bool_decide (label ∈ allCategoryLabels)) labels)
  then
    match uncategorizedCategoryIndex with
    | None => ((b.1 ++ [pullRequest], b.2), false)
    | Some i => ((b.1, alter (Categorized.push pullRequest) i b.2), false)
    end
  else (b, true).

(** The body of [for (const pullRequest of filteredPullRequests)] for one
    [category]. *)
Definition categorize_into (filteredPullRequests : list PullRequest.t)
    (category : Categorized.t) : Categorized.t :=
  foldl (λ c pullRequest,
           if some_label_in (Category.labels (Categorized.category c)) pullRequest
           then Categorized.push pullRequest c else c)
    category filteredPullRequests.

(** [uncategorizedCategoryIndex] comes from [findIndex] over [categories],
    so it is an index of [categorizedPullRequests]. *)
Definition categorizePullRequests (pullRequests : list PullRequest.t)
    : list PullRequest.t * list Categorized.t :=
  let uncategorizedPullRequests := [] in
  let categorizedPullRequests :=
    (λ category, Categorized.mk category []) <$> Config.categories config in
  let '((uncategorizedPullRequests, categorizedPullRequests), filteredPullRequests) :=
    filter_st filterUncategorizedPullRequests
      (uncategorizedPullRequests, categorizedPullRequests)
      (List.filter (getFilterIncludedPullRequests (Config.include_labels config))
         (List.filter (getFilterExcludedPullRequests (Config.exclude_labels config))
            pullRequests)) in
  (uncategorizedPullRequests,
   categorize_into filteredPullRequests <$> categorizedPullRequests).
End categorizePullRequests.

(** ** Template objects

    The token objects handed to [template] of [./template]. *)

Module ResolvedVersion.
(** [$RESOLVED_VERSION] and the other version tokens of [./versions]:
    [version], [$MAJOR], [$MINOR], [$PATCH], [$PRERELEASE], [$COMPLETE]. *)
Record t := mk {
  version : string;
  MAJOR : N;
  MINOR : N;
  PATCH : N;
  PRERELEASE : string;
  COMPLETE : string;
}.
End ResolvedVersion.

Module VersionInfo.
(** The object [getVersionInfo] answers with: [$RESOLVED_VERSION], which
    may be missing, and the other version tokens by name. *)
Record t := mk {
  RESOLVED_VERSION : option ResolvedVersion.t;
  others : list (string * ResolvedVersion.t);
}.
End VersionInfo.

Inductive TemplateValue :=
| TString (s : string)
| TNumber (n : N)
| TVersion (v : ResolvedVersion.t).

Definition TemplateObject : Type := list (string * TemplateValue).

(** The own properties of a [versionInfo], as [{...versionInfo}] lists them;
    [undefined] has none. *)
Definition versionInfo_object (versionInfo : option VersionInfo.t) : TemplateObject :=
  match versionInfo with
  | None => []
  | Some vi =>
      match VersionInfo.RESOLVED_VERSION vi with
      | Some rv => [("$RESOLVED_VERSION", TVersion rv)]
      | None => []
      end ++ (prod_map id TVersion <$> VersionInfo.others vi)
  end.

(** ** [generateChangeLog] and [contributorsSentence] *)

Section changelog.
(** [template(string, object, replacers)] of [./template] *)
Variable template : string → TemplateObject → list Replacer.t → string.
Variable config : Config.t.

Definition pullAuthor (pullRequest : PullRequest.t) : string :=
  match PullRequest.author pullRequest with
  | None => "ghost"
  | Some a =>
      if decide (Author.typename a = Some "Bot")
      then "[" +:+ Author.login a +:+ "[bot]](" +:+ Author.url a +:+ ")"
      else Author.login a
  end.

Definition pullRequestToString (pullRequests : list PullRequest.t) : string :=
  join Str.LF
    ((λ pullRequest,
        template (Config.change_template config)
          [ ("$TITLE", TString (escapeTitle (Config.change_title_escapes config)
                                  (PullRequest.title pullRequest)));
            ("$NUMBER", TNumber (PullRequest.number pullRequest));
            ("$AUTHOR", TString (pullAuthor pullRequest));
            ("$BODY", TString (PullRequest.body pullRequest));
            ("$URL", TString (PullRequest.url pullRequest));
            ("$BASE_REF_NAME", TString (PullRequest.baseRefName pullRequest));
            ("$HEAD_REF_NAME", TString (PullRequest.headRefName pullRequest)) ]
          []) <$> pullRequests).

(** The pieces one [category] pushes to [changeLog]; [last] tells whether
    it is the last element of [categorizedPullRequests]. *)
Definition category_pieces (last : bool) (category : Categorized.t) : list string :=
  let prs := Categorized.pullRequests category in
  if bool_decide (length prs = 0) then []
  else
    let collapse_after := Category.collapse_after (Categorized.category category) in
    let pullRequestString := pullRequestToString prs in
    let shouldCollapse :=
      negb (bool_decide (collapse_after = 0)) && bool_decide (collapse_after < length prs) in
    [ template (Config.category_template config)
        [("$TITLE", TString (Category.title (Categorized.category category)))] [];
      Str.LF +:+ Str.LF ]
    ++ (if shouldCollapse
        then [ "<details>"; Str.LF;
               "<summary>" +:+ Str.of_N (N.of_nat (length prs)) +:+ " changes</summary>";
               Str.LF +:+ Str.LF; pullRequestString; Str.LF; "</details>" ]
        else [ pullRequestString ])
    ++ (if last then [] else [ Str.LF +:+ Str.LF ]).

Fixpoint categories_pieces (categories : list Categorized.t) : list string :=
  match categories with
  | [] => []
  | [c] => category_pieces true c
  | c :: cs => category_pieces false c ++ categories_pieces cs
  end.

Definition generateChangeLog (mergedPullRequests : list PullRequest.t) : string :=
  if bool_decide (length mergedPullRequests = 0)
  then Config.no_changes_template config
  else
    let '(uncategorizedPullRequests, categorizedPullRequests) :=
      categorizePullRequests config mergedPullRequests in
    let changeLog :=
      (if bool_decide (0 < length uncategorizedPullRequests)
       then [ pullRequestToString uncategorizedPullRequests; Str.LF +:+ Str.LF ]
       else [])
      ++ categories_pieces categorizedPullRequests in
    Str.trim (join "" changeLog).

(** [contributors.add(x)] on a [Set], which keeps insertion order. *)
Definition set_add (x : string) (s : list string) : list string :=
  if decide (x ∈ s) then s else s ++ [x].

(** The default comparator of [Array.prototype.sort]: strings by code
    unit. *)
Definition compare_strings (a b : string) : Z :=
  match String.compare a b with Lt => -1 | Eq => 0 | Gt => 1 end.

Definition contributorsSentence (commits : list Commit.t)
    (pullRequests : list PullRequest.t) : string :=
  let excludeContributors := Config.exclude_contributors config in
  let contributors :=
    foldl (λ contributors commit,
             match Commit.author_user commit with
             | Some login =>
                 if decide (login ∈ excludeContributors) then contributors
                 else set_add ("@" +:+ login) contributors
             | None => set_add (Commit.author_name commit) contributors
             end) [] commits in
  let contributors :=
    foldl (λ contributors pullRequest,
             match PullRequest.author pullRequest with
             | Some a =>
                 if decide (Author.login a ∈ excludeContributors) then contributors
                 else if decide (Author.typename a = Some "Bot")
                 then set_add ("[" +:+ Author.login a +:+ "[bot]](" +:+ Author.url a +:+ ")")
                        contributors
                 else set_add ("@" +:+ Author.login a) contributors
             | None => contributors
             end) contributors pullRequests in
  let sortedContributors := js_sort compare_strings contributors in
  match reverse sortedContributors with
  | [] => Config.no_contributors_template config
  | [x] => x
  | lst :: rest => join ", " (reverse rest) +:+ " and " +:+ lst
  end.
End changelog.

(** ** [PR_MARKER_REGEX]: [/<!-- pr-number: (\d+) -->/] *)

Definition marker_open : string := "<!-- pr-number: ".
Definition marker_close : string := " -->".

(** The longest run of digits at the start of [s], and what follows it. *)
Fixpoint span_digits (s : string) : string * string :=
  match s with
  | "" => ("", "")
  | String c s' =>
      if Str.is_digit c
      then let '(ds, rest) := span_digits s' in (String c ds, rest)
      else ("", s)
  end.

(** The expression anchored at the start of [s]: the captured digits. *)
Definition marker_at (s : string) : option string :=
  if Str.startsWith s marker_open then
    let '(ds, rest) := span_digits (Str.slice (Str.length marker_open) s) in
    if bool_decide (ds ≠ "") && Str.startsWith rest marker_close then Some ds else None
  else None.

(** [body.match(PR_MARKER_REGEX)]: group 1 of the leftmost match. *)
Fixpoint marker_match (body : string) : option string :=
  match marker_at body with
  | Some ds => Some ds
  | None =>
      match body with
      | "" => None
      | String _ body' => marker_match body'
      end
  end.

(** The marker [generateReleaseInfo] appends for [prNumber]. *)
Definition pr_marker (prNumber : N) : string :=
  marker_open +:+ Str.of_N prNumber +:+ marker_close.

(** ** [sortReleases] and [findReleases] *)

(** What [findReleases] returns. *)
Module Found.
Record t := mk {
  prSpecificRelease : option Release.t;
  lastRelease : option Release.t;
}.
End Found.

Section releases.
(** [compareVersions] of the package [compare-versions]; [None] when it
    throws (a version it cannot parse). *)
Variable compareVersions : string → string → option Z.

(** The comparator handed to [releases.sort]. *)
Definition compareReleases (tagPrefix : string) (r1 r2 : Release.t) : Z :=
  match compareVersions (Str.strip_prefix tagPrefix (Release.tag_name r1))
                        (Str.strip_prefix tagPrefix (Release.tag_name r2)) with
  | Some z => z
  | None => (Release.created_at r1 - Release.created_at r2)%Z
  end.

Definition sortReleases (releases : list Release.t) (tagPrefix : string)
    : list Release.t :=
  js_sort (compareReleases tagPrefix) releases.

(** [/^refs\/heads\//] removed *)
Definition strip_heads (ref : string) : string := Str.strip_prefix "refs/heads/" ref.

(** The candidate test of [findReleases]: the body carries a marker whose
    number is [prNumber].  Numbers are exact here; change-request numbers
    are far below the 2^53 where [Number.parseInt] starts to round. *)
Definition matches_pr (prNumber : option N) (r : Release.t) : bool :=
  match Release.body r ≫= marker_match with
  | None => false
  | Some ds => bool_decide (Some (Str.parse_digits 0 ds) = prNumber)
  end.

(** [findReleases], from the fetched [releases] on. *)
Definition findReleases (releases : list Release.t)
    (targetCommitish : string) (filterByCommitish includePreReleases : bool)
    (tagPrefix : string) (prNumber : option N) (isPrereleaseRun : bool)
    : Found.t :=
  let targetCommitishName := strip_heads targetCommitish in
  let commitishFilteredReleases :=
    if filterByCommitish
    then List.filter
           (λ r, bool_decide (targetCommitishName = strip_heads (Release.target_commitish r)))
           releases
    else releases in
  let prefixFilteredReleases :=
    if truthy tagPrefix
    then List.filter (λ r, Str.startsWith (Release.tag_name r) tagPrefix)
           commitishFilteredReleases
    else commitishFilteredReleases in
  let sortedSelectedReleases := sortReleases prefixFilteredReleases tagPrefix in
  let lastReleaseFilter :=
    List.filter
      (λ r, negb (Release.draft r) && (negb (Release.prerelease r) || includePreReleases))
      sortedSelectedReleases in
  let lastRelease := last lastReleaseFilter in
  let prSpecificRelease :=
    if isPrereleaseRun && bool_decide (0 < length sortedSelectedReleases)
    then last (List.filter (matches_pr prNumber) sortedSelectedReleases)
    else None in
  {| Found.prSpecificRelease := prSpecificRelease; Found.lastRelease := lastRelease |}.
End releases.

(** ** [generateReleaseInfo] *)

(** What a call of an imported function gives: a value, or an exception. *)
Inductive Outcome (A : Type) :=
| Ok (a : A)
| Raise (e : string).
Global Arguments Ok {A} a.
Global Arguments Raise {A} e.

Module SemVer.
(** An identifier of the pre-release part: [semver] turns an all-digit
    one into a number. *)
Inductive Identifier := IdNumber (n : N) | IdString (s : string).

Global Instance Identifier_eq_dec : EqDecision Identifier.
Proof. solve_decision. Defined.

(** The object [semver.parse] answers with. *)
Record t := mk {
  major : N;
  minor : N;
  patch : N;
  prerelease : list Identifier;
  build : list string;
}.
End SemVer.

(** The release descriptor. *)
Module ReleaseInfo.
Record t := mk {
  name : option string;
  tag : option string;
  body : string;
  targetCommitish : string;
  prerelease : bool;
  make_latest : option string;
  draft : bool;
  resolvedVersion : option string;
  majorVersion : option N;
  minorVersion : option N;
  patchVersion : option N;
  foundPrSpecificDraft : bool;
}.

Definition with_targetCommitish (c : string) (d : t) : t :=
  mk (name d) (tag d) (body d) c (prerelease d) (make_latest d) (draft d)
     (resolvedVersion d) (majorVersion d) (minorVersion d) (patchVersion d)
     (foundPrSpecificDraft d).
End ReleaseInfo.

(** The arguments of [generateReleaseInfo]; [owner] and [repo] are what
    [context.repo()] gives. *)
Module Args.
Record t := mk {
  owner : string;
  repo : string;
  commits : list Commit.t;
  config : Config.t;
  lastRelease : option Release.t;
  mergedPullRequests : list PullRequest.t;
  version : option string;
  tag : option string;
  name : option string;
  isPreRelease : bool;
  latest : option string;
  shouldDraft : bool;
  targetCommitish : string;
  prNumber : option N;
  prSpecificRelease : option Release.t;
}.

Definition with_targetCommitish (c : string) (a : t) : t :=
  mk (owner a) (repo a) (commits a) (config a) (lastRelease a)
     (mergedPullRequests a) (version a) (tag a) (name a) (isPreRelease a)
     (latest a) (shouldDraft a) c (prNumber a) (prSpecificRelease a).

Definition with_prSpecificRelease (r : option Release.t) (a : t) : t :=
  mk (owner a) (repo a) (commits a) (config a) (lastRelease a)
     (mergedPullRequests a) (version a) (tag a) (name a) (isPreRelease a)
     (latest a) (shouldDraft a) (targetCommitish a) (prNumber a) r.
End Args.

(** The calls of [log] and [core.debug], in the order they are made. *)
Inductive LogEntry :=
(** "Found existing draft release (<tag>) for PR #<n>. Incrementing suffix." *)
| FoundExistingDraft (tag : string) (prNumber : option N)
(** "Incremented prerelease version for PR #<n> to: <version> (Tag: <tag>)" *)
| IncrementedPrerelease (prNumber : option N) (resolvedVersion : string)
    (calculatedTag : option string)
(** "Error processing draft tag <tag>. Falling back to standard versioning." *)
| DraftTagError (tag : string) (error : string)
(** debug "versionKeyIncrement: <key>" *)
| DebugVersionKeyIncrement (versionKeyIncrement : string)
(** debug "versionInfo (standard calc): <json>" *)
| DebugStandardVersionInfo (versionInfo : option VersionInfo.t)
(** "Could not resolve version." *)
| CouldNotResolveVersion
(** "First prerelease for PR #<n>. Setting version to: <version>" *)
| FirstPrerelease (prNumber : option N) (resolvedVersion : string)
(** debug "Final tag: <tag>" *)
| DebugFinalTag (calculatedTag : option string)
(** debug "Final name: <name>" *)
| DebugFinalName (calculatedName : option string)
(** "<ref> is not supported as release target, falling back to default branch" *)
| TagTargetNotSupported (targetCommitish : string).

(** The variables of [generateReleaseInfo] that are assigned to, and the
    log written so far. *)
Module Locals.
Record t := mk {
  versionInfo : option VersionInfo.t;
  resolvedVersion : option string;
  majorVersion : option N;
  minorVersion : option N;
  patchVersion : option N;
  calculatedTag : option string;
  calculatedName : option string;
  body : string;
  prSpecificDraftExists : bool;
  markerAdded : bool;
  targetCommitish : string;
  log : list LogEntry;
}.

Definition set_versionInfo v l :=
  mk v (resolvedVersion l) (majorVersion l) (minorVersion l) (patchVersion l)
     (calculatedTag l) (calculatedName l) (body l) (prSpecificDraftExists l)
     (markerAdded l) (targetCommitish l) (log l).
Definition set_version v ma mi pa l :=
  mk (versionInfo l) v ma mi pa
     (calculatedTag l) (calculatedName l) (body l) (prSpecificDraftExists l)
     (markerAdded l) (targetCommitish l) (log l).
Definition set_resolvedVersion v l :=
  set_version v (majorVersion l) (minorVersion l) (patchVersion l) l.
Definition set_calculatedTag v l :=
  mk (versionInfo l) (resolvedVersion l) (majorVersion l) (minorVersion l)
     (patchVersion l) v (calculatedName l) (body l) (prSpecificDraftExists l)
     (markerAdded l) (targetCommitish l) (log l).
Definition set_calculatedName v l :=
  mk (versionInfo l) (resolvedVersion l) (majorVersion l) (minorVersion l)
     (patchVersion l) (calculatedTag l) v (body l) (prSpecificDraftExists l)
     (markerAdded l) (targetCommitish l) (log l).
Definition set_body v l :=
  mk (versionInfo l) (resolvedVersion l) (majorVersion l) (minorVersion l)
     (patchVersion l) (calculatedTag l) (calculatedName l) v
     (prSpecificDraftExists l) (markerAdded l) (targetCommitish l) (log l).
Definition set_prSpecificDraftExists v l :=
  mk (versionInfo l) (resolvedVersion l) (majorVersion l) (minorVersion l)
     (patchVersion l) (calculatedTag l) (calculatedName l) (body l) v
     (markerAdded l) (targetCommitish l) (log l).
Definition set_markerAdded v l :=
  mk (versionInfo l) (resolvedVersion l) (majorVersion l) (minorVersion l)
     (patchVersion l) (calculatedTag l) (calculatedName l) (body l)
     (prSpecificDraftExists l) v (targetCommitish l) (log l).
Definition set_targetCommitish v l :=
  mk (versionInfo l) (resolvedVersion l) (majorVersion l) (minorVersion l)
     (patchVersion l) (calculatedTag l) (calculatedName l) (body l)
     (prSpecificDraftExists l) (markerAdded l) v (log l).
Definition add_log e l :=
  mk (versionInfo l) (resolvedVersion l) (majorVersion l) (minorVersion l)
     (patchVersion l) (calculatedTag l) (calculatedName l) (body l)
     (prSpecificDraftExists l) (markerAdded l) (targetCommitish l) (log l ++ [e]).
End Locals.

(** How a statement completes: it falls through with a value, it returns
    from the function, or it throws. *)
Inductive Completion (A : Type) :=
| Normal (a : A)
| Return (r : option ReleaseInfo.t)
| Throw (e : string).
Global Arguments Normal {A} a.
Global Arguments Return {A} r.
Global Arguments Throw {A} e.

(** A statement of the function body: it updates the locals and completes. *)
Definition Stmt (A : Type) : Type := Locals.t → Locals.t * Completion A.

Definition pure {A} (a : A) : Stmt A := λ l, (l, Normal a).

Definition bind {A B} (m : Stmt A) (k : A → Stmt B) : Stmt B :=
  λ l, match m l with
       | (l1, Normal a) => k a l1
       | (l1, Return r) => (l1, Return r)
       | (l1, Throw e) => (l1, Throw e)
       end.

Notation "'let*' x := m 'in' k" := (bind m (λ x, k))
  (at level 10, x name, m at level 100, k at level 200).
Notation "m ;;; k" := (bind m (λ _, k))
  (at level 100, k at level 200, right associativity).

Definition skip : Stmt unit := pure tt.
Definition get : Stmt Locals.t := λ l, (l, Normal l).
Definition modify (f : Locals.t → Locals.t) : Stmt unit := λ l, (f l, Normal tt).
Definition log (e : LogEntry) : Stmt unit := modify (Locals.add_log e).
Definition return_ {A} (r : option ReleaseInfo.t) : Stmt A := λ l, (l, Return r).

(** A call of an imported function. *)
Definition call {A} (o : Outcome A) : Stmt A :=
  λ l, match o with Ok a => (l, Normal a) | Raise e => (l, Throw e) end.

(** [try { body } catch (error) { handler }] *)
Definition try_catch (body : Stmt unit) (handler : string → Stmt unit) : Stmt unit :=
  λ l, match body l with
       | (l1, Throw e) => handler e l1
       | r => r
       end.

Section generateReleaseInfo.
(** [semver.parse]; [null] is [None]. *)
Variable semver_parse : string → option SemVer.t.
(** [getVersionInfo(release, template, inputVersion, versionKeyIncrement,
    tagPrefix, preReleaseIdentifier)] of [./versions]; [undefined] is
    [None]. *)
Variable getVersionInfo :
  option Release.t → string → option string → string → string → string →
  Outcome (option VersionInfo.t).
(** [template(string, object, replacers)] of [./template] *)
Variable template : string → TemplateObject → list Replacer.t → string.

Section body.
Variable a : Args.t.

Let config := Args.config a.
Let preReleaseIdentifier := Config.prerelease_identifier config.
Let tagPrefix := Config.tag_prefix config.
Let versionTemplate := Config.version_template config.
Let tagTemplate := Config.tag_template config.
Let nameTemplate := Config.name_template config.
Let replacers := Config.replacers config.
Let prNumber := Args.prNumber a.

(** [`${prNumber}`] *)
Definition prNumber_string (n : option N) : string :=
  match n with Some n => Str.of_N n | None => "null" end.

(** [`\n\n<!-- pr-number: ${prNumber} -->\n`] *)
Definition marker_line (n : option N) : string :=
  Str.LF +:+ Str.LF +:+ marker_open +:+ prNumber_string n +:+ marker_close +:+ Str.LF.

Definition isPrereleaseRun : bool :=
  Args.isPreRelease a && truthy preReleaseIdentifier && bool_decide (prNumber ≠ None).

(** [version || tag || name] *)
Definition inputVersion : option string :=
  or_string (or_string (Args.version a) (Args.tag a)) (Args.name a).

(** The two assignments to [calculatedTag] and [calculatedName] that
    both version paths end with. *)
Definition calculate_tag_and_name (versionInfo : option VersionInfo.t) : Stmt unit :=
  let* l := get in
  match Locals.calculatedTag l with
  | None =>
      let calculatedTag := template tagTemplate (versionInfo_object versionInfo) [] in
      modify (Locals.set_calculatedTag
                (Some (if truthy tagPrefix && negb (Str.startsWith calculatedTag tagPrefix)
                       then tagPrefix +:+ calculatedTag else calculatedTag)))
  | Some calculatedTag =>
      modify (Locals.set_calculatedTag
                (Some (template calculatedTag (versionInfo_object versionInfo) [])))
  end;;;
  let* l := get in
  match Locals.calculatedName l with
  | None =>
      modify (Locals.set_calculatedName
                (Some (template nameTemplate (versionInfo_object versionInfo) [])))
  | Some calculatedName =>
      modify (Locals.set_calculatedName
                (Some (template calculatedName (versionInfo_object versionInfo) [])))
  end.

(** The block between START and END PR-SPECIFIC PRE-RELEASE LOGIC.  The
    [versionInfo] it declares with [const] is a variable of the inner
    block: the one of [Locals] is not assigned. *)
Definition prerelease_logic : Stmt unit :=
  match isPrereleaseRun, Args.prSpecificRelease a with
  | true, Some prSpecificRelease =>
      modify (Locals.set_prSpecificDraftExists true);;;
      log (FoundExistingDraft (Release.tag_name prSpecificRelease) prNumber);;;
      try_catch
        (let currentTag := Release.tag_name prSpecificRelease in
         let currentVersionStr :=
           if truthy tagPrefix && Str.startsWith currentTag tagPrefix
           then Str.slice (Str.length tagPrefix) currentTag
           else currentTag in
         match semver_parse currentVersionStr with
         | Some parsedVersion =>
             match SemVer.prerelease parsedVersion with
             | first :: currentSuffix :: _ =>
                 if decide (first = SemVer.IdString preReleaseIdentifier) then
                   match currentSuffix with
                   | SemVer.IdNumber currentSuffix =>
                       let nextSuffix := (currentSuffix + 1)%N in
                       let resolvedVersion :=
                         Str.of_N (SemVer.major parsedVersion) +:+ "." +:+
                         Str.of_N (SemVer.minor parsedVersion) +:+ "." +:+
                         Str.of_N (SemVer.patch parsedVersion) +:+ "-" +:+
                         preReleaseIdentifier +:+ "." +:+ Str.of_N nextSuffix in
                       modify (Locals.set_version (Some resolvedVersion)
                                 (Some (SemVer.major parsedVersion))
                                 (Some (SemVer.minor parsedVersion))
                                 (Some (SemVer.patch parsedVersion)));;;
                       let versionKeyIncrement :=
                         resolveVersionKeyIncrement (Args.mergedPullRequests a) config
                           (Args.isPreRelease a) in
                       let* versionInfo :=
                         call (getVersionInfo (Some prSpecificRelease)
                                 (Config.version_template config) inputVersion
                                 versionKeyIncrement (Config.tag_prefix config)
                                 (Config.prerelease_identifier config)) in
                       calculate_tag_and_name versionInfo;;;
                       let* l := get in
                       log (IncrementedPrerelease prNumber resolvedVersion
                              (Locals.calculatedTag l))
                   | SemVer.IdString _ => skip
                   end
                 else skip
             | _ => skip
             end
         | None => skip
         end)
        (λ error,
           log (DraftTagError (Release.tag_name prSpecificRelease) error);;;
           modify (Locals.set_prSpecificDraftExists false))
  | _, _ => skip
  end.

(** [versionInfo.$RESOLVED_VERSION.version = ...] and the two
    assignments after it. *)
Definition set_first_prerelease (resolvedVersion : string)
    (vi : VersionInfo.t) : VersionInfo.t :=
  VersionInfo.mk
    ((λ rv, ResolvedVersion.mk resolvedVersion
              (ResolvedVersion.MAJOR rv) (ResolvedVersion.MINOR rv)
              (ResolvedVersion.PATCH rv)
              ("-" +:+ preReleaseIdentifier +:+ ".0") resolvedVersion)
       <$> VersionInfo.RESOLVED_VERSION vi)
    (VersionInfo.others vi).

Definition of_option_N (n : option N) : string :=
  match n with Some n => Str.of_N n | None => "undefined" end.

(** Standard Version Calculation *)
Definition standard_version_calculation : Stmt unit :=
  let* l := get in
  match Locals.versionInfo l with
  | None =>
      let versionKeyIncrement :=
        resolveVersionKeyIncrement (Args.mergedPullRequests a) config
          (Args.isPreRelease a) in
      log (DebugVersionKeyIncrement versionKeyIncrement);;;
      let* versionInfo :=
        call (getVersionInfo (Args.lastRelease a) versionTemplate inputVersion
                versionKeyIncrement tagPrefix preReleaseIdentifier) in
      modify (Locals.set_versionInfo versionInfo);;;
      log (DebugStandardVersionInfo versionInfo);;;
      match versionInfo ≫= VersionInfo.RESOLVED_VERSION with
      | None => log CouldNotResolveVersion;;; return_ None
      | Some rv =>
          modify (Locals.set_version (Some (ResolvedVersion.version rv))
                    (Some (ResolvedVersion.MAJOR rv))
                    (Some (ResolvedVersion.MINOR rv))
                    (Some (ResolvedVersion.PATCH rv)));;;
          let* l := get in
          (if isPrereleaseRun && negb (Locals.prSpecificDraftExists l) then
             let baseVersion :=
               of_option_N (Locals.majorVersion l) +:+ "." +:+
               of_option_N (Locals.minorVersion l) +:+ "." +:+
               of_option_N (Locals.patchVersion l) in
             let resolvedVersion :=
               baseVersion +:+ "-" +:+ preReleaseIdentifier +:+ ".0" in
             modify (Locals.set_resolvedVersion (Some resolvedVersion));;;
             log (FirstPrerelease prNumber resolvedVersion);;;
             modify (λ l, Locals.set_versionInfo
                            (set_first_prerelease resolvedVersion <$> Locals.versionInfo l) l);;;
             modify (λ l, Locals.set_body (Locals.body l +:+ marker_line prNumber) l);;;
             modify (Locals.set_markerAdded true)
           else skip);;;
          let* l := get in
          calculate_tag_and_name (Locals.versionInfo l)
      end
  | Some _ => skip
  end.

(** From "Append the PR marker" to "End Generate Body". *)
Definition generate_body : Stmt unit :=
  let* l := get in
  (if isPrereleaseRun && negb (Locals.markerAdded l)
   then modify (λ l, Locals.set_body (Locals.body l +:+ marker_line prNumber) l)
   else skip);;;
  let* l := get in
  let generatedBody :=
    template
      (Config.header config +:+ Config.template config +:+ Config.footer config)
      ([ ("$PREVIOUS_TAG",
          TString (match Args.lastRelease a with
                   | Some lastRelease => Release.tag_name lastRelease
                   | None => ""
                   end));
         ("$CHANGES",
          TString (generateChangeLog template config (Args.mergedPullRequests a)));
         ("$CONTRIBUTORS",
          TString (contributorsSentence config (Args.commits a)
                     (Args.mergedPullRequests a)));
         ("$OWNER", TString (Args.owner a));
         ("$REPOSITORY", TString (Args.repo a)) ]
       ++ versionInfo_object (Locals.versionInfo l))
      replacers in
  modify (Locals.set_body (generatedBody +:+ Locals.body l)).

(** Final cleanup of [targetCommitish], and the [return]. *)
Definition cleanup_and_return : Stmt unit :=
  let* l := get in
  log (DebugFinalTag (Locals.calculatedTag l));;;
  log (DebugFinalName (Locals.calculatedName l));;;
  (if Str.startsWith (Locals.targetCommitish l) "refs/tags/"
   then log (TagTargetNotSupported (Locals.targetCommitish l));;;
        modify (Locals.set_targetCommitish "")
   else skip);;;
  let* l := get in
  return_ (Some {|
    ReleaseInfo.name := Locals.calculatedName l;
    ReleaseInfo.tag := Locals.calculatedTag l;
    ReleaseInfo.body := Str.trim (Locals.body l);
    ReleaseInfo.targetCommitish := Locals.targetCommitish l;
    ReleaseInfo.prerelease := Args.isPreRelease a;
    ReleaseInfo.make_latest := Args.latest a;
    ReleaseInfo.draft := Args.shouldDraft a;
    ReleaseInfo.resolvedVersion := Locals.resolvedVersion l;
    ReleaseInfo.majorVersion := Locals.majorVersion l;
    ReleaseInfo.minorVersion := Locals.minorVersion l;
    ReleaseInfo.patchVersion := Locals.patchVersion l;
    ReleaseInfo.foundPrSpecificDraft := Locals.prSpecificDraftExists l;
  |}).

(** The variables as their declarations initialise them. *)
Definition initial_locals : Locals.t := {|
  Locals.versionInfo := None;
  Locals.resolvedVersion := None;
  Locals.majorVersion := None;
  Locals.minorVersion := None;
  Locals.patchVersion := None;
  Locals.calculatedTag := Args.tag a;
  Locals.calculatedName := Args.name a;
  Locals.body := "";
  Locals.prSpecificDraftExists := false;
  Locals.markerAdded := false;
  Locals.targetCommitish := Args.targetCommitish a;
  Locals.log := [];
|}.

Definition function_body : Stmt unit :=
  prerelease_logic;;;
  standard_version_calculation;;;
  generate_body;;;
  cleanup_and_return.
End body.

(** The log a call writes, and what the call gives: the descriptor,
    [null], or an exception. *)
Definition generateReleaseInfo (a : Args.t)
    : list LogEntry * Outcome (option ReleaseInfo.t) :=
  let '(l, c) := function_body a (initial_locals a) in
  (Locals.log l,
   match c with
   | Normal _ => Ok None
   | Return r => Ok r
   | Throw e => Raise e
   end).
End generateReleaseInfo.

(** ** Requests to the GitHub API: [createRelease], [updateRelease] and
    [updateDraftReleaseParameters] *)

(** A property value of a request or of a response.  The numbers here are
    non-negative integers: identifiers and version components. *)
Inductive JsValue :=
| VUndefined
| VNull
| VBoolean (b : bool)
| VNumber (n : N)
| VString (s : string).

Global Instance JsValue_eq_dec : EqDecision JsValue.
Proof. solve_decision. Defined.

(** Truthiness of a value. *)
Definition ToBoolean (v : JsValue) : bool :=
  match v with
  | VUndefined | VNull => false
  | VBoolean b => b
  | VNumber n => bool_decide (n ≠ 0%N)
  | VString s => truthy s
  end.

(** A string, or [undefined]. *)
Definition string_value (s : option string) : JsValue :=
  match s with Some s => VString s | None => VUndefined end.

(** A number, or [undefined]. *)
Definition number_value (n : option N) : JsValue :=
  match n with Some n => VNumber n | None => VUndefined end.

(** A plain object is the map of its own properties,
    [gmap string JsValue]. *)

(** [object[name]]; a property the object does not have reads as
    [undefined].  The names read here are none that plain objects
    inherit. *)
Definition property (object : gmap string JsValue) (name : string) : JsValue :=
  default VUndefined (object !! name).

(** [if (!object[name]) { delete object[name] }] *)
Definition delete_if_falsy (name : string) (object : gmap string JsValue) : gmap string JsValue :=
  if negb (ToBoolean (property object name)) then delete name object else object.

Definition updateDraftReleaseParameters (parameters : gmap string JsValue) : gmap string JsValue :=
  let updateReleaseParameters := parameters in
  let updateReleaseParameters := delete_if_falsy "name" updateReleaseParameters in
  let updateReleaseParameters := delete_if_falsy "tag_name" updateReleaseParameters in
  let updateReleaseParameters := delete_if_falsy "target_commitish" updateReleaseParameters in
  updateReleaseParameters.

(** The calls of the GitHub API, with the object handed to
    [context.repo], which adds the owner and the repository. *)
Inductive ApiCall :=
| CreateRelease (request : gmap string JsValue)
| UpdateRelease (request : gmap string JsValue).

Definition createRelease (releaseInfo : ReleaseInfo.t) : ApiCall :=
  CreateRelease
    (list_to_map
       [ ("target_commitish", VString (ReleaseInfo.targetCommitish releaseInfo));
         ("name", string_value (ReleaseInfo.name releaseInfo));
         ("tag_name", string_value (ReleaseInfo.tag releaseInfo));
         ("body", VString (ReleaseInfo.body releaseInfo));
         ("draft", VBoolean (ReleaseInfo.draft releaseInfo));
         ("prerelease", VBoolean (ReleaseInfo.prerelease releaseInfo));
         ("make_latest", string_value (ReleaseInfo.make_latest releaseInfo)) ]).

(** [updateRelease({ context, release, releaseInfo })]; reading a property
    of a [release] that is [undefined] throws a [TypeError].  In an object
    literal the properties that are spread last win: [params ∪ others]. *)
Definition updateRelease (release : option Release.t) (releaseInfo : ReleaseInfo.t)
    : Outcome ApiCall :=
  match release with
  | None => Raise "TypeError"
  | Some release =>
      let updateReleaseParameters :=
        updateDraftReleaseParameters
          (list_to_map
             [ ("name",
                string_value (or_string (ReleaseInfo.name releaseInfo) (Release.name release)));
               ("tag_name",
                string_value (or_string (ReleaseInfo.tag releaseInfo)
                                (Some (Release.tag_name release))));
               ("target_commitish", VString (ReleaseInfo.targetCommitish releaseInfo)) ]) in
      Ok (UpdateRelease
            (updateReleaseParameters
             ∪ list_to_map
                 [ ("release_id", VNumber (Release.id release));
                   ("body", VString (ReleaseInfo.body releaseInfo));
                   ("draft", VBoolean (ReleaseInfo.draft releaseInfo));
                   ("prerelease", VBoolean (ReleaseInfo.prerelease releaseInfo));
                   ("make_latest", string_value (ReleaseInfo.make_latest releaseInfo)) ]))
  end.

(** ** The action: [getInput], [updateConfigFromInput], [setActionOutput]
    and [drafter] of [index.js] *)

(** [releaseResponse.data], as far as [setActionOutput] reads it. *)
Module ReleaseResponse.
Record t := mk {
  id : JsValue;
  html_url : JsValue;
  upload_url : JsValue;
  tag_name : JsValue;
  name : JsValue;
}.
End ReleaseResponse.

(** The calls of [core.setOutput], in the order they are made. *)
Definition Outputs : Type := list (string * JsValue).

(** [if (value) core.setOutput(name, value)] *)
Definition setOutput_if_truthy (name : string) (value : JsValue) : Outputs :=
  if ToBoolean value then [(name, value)] else [].

Definition setActionOutput (releaseResponse : ReleaseResponse.t)
    (releaseInfo : ReleaseInfo.t) : Outputs :=
  let releaseId := ReleaseResponse.id releaseResponse in
  (* [releaseId && Number.isInteger(releaseId)], then [releaseId.toString()] *)
  match releaseId with
  | VNumber n => if ToBoolean releaseId then [("id", VString (Str.of_N n))] else []
  | _ => []
  end
  ++ setOutput_if_truthy "html_url" (ReleaseResponse.html_url releaseResponse)
  ++ setOutput_if_truthy "upload_url" (ReleaseResponse.upload_url releaseResponse)
  ++ setOutput_if_truthy "tag_name" (ReleaseResponse.tag_name releaseResponse)
  ++ setOutput_if_truthy "name" (ReleaseResponse.name releaseResponse)
  ++ setOutput_if_truthy "resolved_version"
       (string_value (ReleaseInfo.resolvedVersion releaseInfo))
  ++ setOutput_if_truthy "major_version" (number_value (ReleaseInfo.majorVersion releaseInfo))
  ++ setOutput_if_truthy "minor_version" (number_value (ReleaseInfo.minorVersion releaseInfo))
  ++ setOutput_if_truthy "patch_version" (number_value (ReleaseInfo.patchVersion releaseInfo))
  ++ [("body", VString (ReleaseInfo.body releaseInfo))].

(** What [getInput] returns. *)
Module Input.
Record t := mk {
  configName : string;
  shouldDraft : bool;
  version : option string;
  tag : option string;
  name : option string;
  disableReleaser : bool;
  disableAutolabeler : bool;
  commitish : option string;
  header : option string;
  footer : option string;
  prerelease : option bool;
  preReleaseIdentifier : option string;
  latest : option string;
}.
End Input.

(** [s || undefined] *)
Definition or_undefined (s : string) : option string :=
  if truthy s then Some s else None.

(** [s.toLowerCase()], within ASCII. *)
Definition lower (c : ascii) : ascii :=
  let n := nat_of_ascii c in
  if bool_decide (65 ≤ n ≤ 90) then ascii_of_nat (n + 32) else c.

Fixpoint toLowerCase (s : string) : string :=
  match s with
  | "" => ""
  | String c s' => String (lower c) (toLowerCase s')
  end.

Section getInput.
(** [core.getInput(name)]: the value of the input, the empty string when
    it is not set. *)
Variable core_getInput : string → string.

Definition getInput : Input.t := {|
  Input.configName := core_getInput "config-name";
  Input.shouldDraft := negb (bool_decide (toLowerCase (core_getInput "publish") = "true"));
  Input.version := or_undefined (core_getInput "version");
  Input.tag := or_undefined (core_getInput "tag");
  Input.name := or_undefined (core_getInput "name");
  Input.disableReleaser :=
    bool_decide (toLowerCase (core_getInput "disable-releaser") = "true");
  Input.disableAutolabeler :=
    bool_decide (toLowerCase (core_getInput "disable-autolabeler") = "true");
  Input.commitish := or_undefined (core_getInput "commitish");
  Input.header := or_undefined (core_getInput "header");
  Input.footer := or_undefined (core_getInput "footer");
  Input.prerelease :=
    if negb (bool_decide (core_getInput "prerelease" = ""))
    then Some (bool_decide (toLowerCase (core_getInput "prerelease") = "true"))
    else None;
  Input.preReleaseIdentifier := or_undefined (core_getInput "prerelease-identifier");
  Input.latest := or_undefined (toLowerCase (core_getInput "latest"));
|}.
End getInput.

(** The configuration [getConfig] gives: what the engine reads
    ([Config.t]) and what [index.js] reads besides. *)
Module ActionConfig.
Record t := mk {
  engine : Config.t;
  commitish : option string;
  (** [undefined], [true] or [false] *)
  prerelease : option bool;
  latest : option string;
  (** [filter-by-commitish] *)
  filter_by_commitish : bool;
  (** [include-pre-releases] *)
  include_pre_releases : bool;
  (** [sort-by] *)
  sort_by : string;
  (** [sort-direction] *)
  sort_direction : string;
}.
End ActionConfig.

(** [config.header = header], and the like for the other properties of
    the engine configuration that [updateConfigFromInput] assigns. *)
Definition set_header (header : string) (c : Config.t) : Config.t :=
  Config.mk (Config.prerelease_identifier c) (Config.tag_prefix c)
    (Config.version_template c) (Config.tag_template c) (Config.name_template c)
    (Config.replacers c) header (Config.template c) (Config.footer c)
    (Config.exclude_labels c) (Config.include_labels c) (Config.exclude_contributors c)
    (Config.categories c) (Config.change_template c) (Config.category_template c)
    (Config.change_title_escapes c) (Config.no_changes_template c)
    (Config.no_contributors_template c) (Config.version_resolver_labels c)
    (Config.version_resolver_default c).

Definition set_footer (footer : string) (c : Config.t) : Config.t :=
  Config.mk (Config.prerelease_identifier c) (Config.tag_prefix c)
    (Config.version_template c) (Config.tag_template c) (Config.name_template c)
    (Config.replacers c) (Config.header c) (Config.template c) footer
    (Config.exclude_labels c) (Config.include_labels c) (Config.exclude_contributors c)
    (Config.categories c) (Config.change_template c) (Config.category_template c)
    (Config.change_title_escapes c) (Config.no_changes_template c)
    (Config.no_contributors_template c) (Config.version_resolver_labels c)
    (Config.version_resolver_default c).

Definition set_prerelease_identifier (identifier : string) (c : Config.t) : Config.t :=
  Config.mk identifier (Config.tag_prefix c)
    (Config.version_template c) (Config.tag_template c) (Config.name_template c)
    (Config.replacers c) (Config.header c) (Config.template c) (Config.footer c)
    (Config.exclude_labels c) (Config.include_labels c) (Config.exclude_contributors c)
    (Config.categories c) (Config.change_template c) (Config.category_template c)
    (Config.change_title_escapes c) (Config.no_changes_template c)
    (Config.no_contributors_template c) (Config.version_resolver_labels c)
    (Config.version_resolver_default c).

(** [if (value) { assign }], for a string that may be [undefined] *)
Definition assign_if_truthy {A} (value : option string) (assign : string → A → A)
    (c : A) : A :=
  match value with
  | Some s => if truthy s then assign s c else c
  | None => c
  end.

(** [updateConfigFromInput(config, input)]: the configuration after the
    call. *)
Definition updateConfigFromInput (config : ActionConfig.t) (input : Input.t)
    : ActionConfig.t :=
  let commitish :=
    assign_if_truthy (Input.commitish input) (λ s _, Some s) (ActionConfig.commitish config) in
  let engine :=
    assign_if_truthy (Input.preReleaseIdentifier input) set_prerelease_identifier
      (assign_if_truthy (Input.footer input) set_footer
         (assign_if_truthy (Input.header input) set_header (ActionConfig.engine config))) in
  let prerelease :=
    match Input.prerelease input with
    | Some b => Some b
    | None => ActionConfig.prerelease config
    end in
  let latest :=
    if default false prerelease then Some "false"
    else or_string (or_string (Input.latest input) (ActionConfig.latest config)) None in
  {| ActionConfig.engine := engine;
     ActionConfig.commitish := commitish;
     ActionConfig.prerelease := prerelease;
     ActionConfig.latest := latest;
     ActionConfig.filter_by_commitish := ActionConfig.filter_by_commitish config;
     ActionConfig.include_pre_releases := ActionConfig.include_pre_releases config;
     ActionConfig.sort_by := ActionConfig.sort_by config;
     ActionConfig.sort_direction := ActionConfig.sort_direction config |}.

(** What a run of [drafter] does: nothing, nothing for want of a release
    descriptor, or one call of the API followed by the outputs. *)
Inductive DrafterResult :=
| NotRun
| NoReleaseInfo
| Called (call : ApiCall) (outputs : Outputs).

Section drafter.
(** The imports of [lib/releases.js] *)
Variable semver_parse : string → option SemVer.t.
Variable getVersionInfo :
  option Release.t → string → option string → string → string → string →
  Outcome (option VersionInfo.t).
Variable template : string → TemplateObject → list Replacer.t → string.
Variable compareVersions : string → string → option Z.
(** [isTriggerableReference({ ref, context, config })] of
    [./triggerable-reference] *)
Variable isTriggerableReference : string → ActionConfig.t → bool.
(** [findCommitsWithAssociatedPullRequests({ context, targetCommitish,
    lastRelease, config })] of [./commits] *)
Variable findCommitsWithAssociatedPullRequests :
  string → option Release.t → ActionConfig.t → list Commit.t * list PullRequest.t.
(** [sortPullRequests(pullRequests, sortBy, sortDirection)] of
    [./sort-pull-requests] *)
Variable sortPullRequests : list PullRequest.t → string → string → list PullRequest.t.
(** [runnerIsActions()] of [./utils] *)
Variable runnerIsActions : bool.
(** The GitHub API: the response to a call. *)
Variable github : ApiCall → ReleaseResponse.t.

(** [drafter], with what it gets from outside as arguments: [input] of
    [getInput()], [config] of [getConfig] ([None] for [null]), [ref] of
    [process.env['GITHUB_REF'] || context.payload.ref], [owner] and [repo]
    of the context, the [releases] that [findReleases] fetches, and the
    [prNumber] that the event logic has found.  The call of [findReleases]
    names neither [prNumber] nor [isPrereleaseRun], and [findReleases]
    returns no property [draftRelease]: the [draftRelease] of [drafter] is
    [undefined].  [generateReleaseInfo] takes its draft from the property
    [prSpecificRelease], [updateRelease] its release from the property
    [release]; [drafter] names neither, so both are [undefined]. *)
Definition drafter (input : Input.t) (config : option ActionConfig.t) (ref : string)
    (owner repo : string) (releases : list Release.t) (prNumber : option N)
    : Outcome DrafterResult :=
  match config with
  | None => Ok NotRun
  | Some config =>
      if Input.disableReleaser input then Ok NotRun
      else
        let config := updateConfigFromInput config input in
        if negb (isTriggerableReference ref config) then Ok NotRun
        else
          let targetCommitish :=
            match ActionConfig.commitish config with
            | Some commitish => if truthy commitish then commitish else ref
            | None => ref
            end in
          let filterByCommitish := ActionConfig.filter_by_commitish config in
          let includePreReleases := ActionConfig.include_pre_releases config in
          let preReleaseIdentifier :=
            Config.prerelease_identifier (ActionConfig.engine config) in
          let tagPrefix := Config.tag_prefix (ActionConfig.engine config) in
          let latest := ActionConfig.latest config in
          let prerelease := ActionConfig.prerelease config in
          let isEffectivePreRelease := default false prerelease in
          let usePrereleaseIdentifier :=
            isEffectivePreRelease && truthy preReleaseIdentifier in
          let shouldIncludePreReleasesForLast :=
            includePreReleases || usePrereleaseIdentifier in
          let found :=
            findReleases compareVersions releases targetCommitish filterByCommitish
              shouldIncludePreReleasesForLast tagPrefix None false in
          let lastRelease := Found.lastRelease found in
          let '(commits, mergedPullRequests) :=
            findCommitsWithAssociatedPullRequests targetCommitish lastRelease config in
          let sortedMergedPullRequests :=
            sortPullRequests mergedPullRequests (ActionConfig.sort_by config)
              (ActionConfig.sort_direction config) in
          let releaseInfo :=
            generateReleaseInfo semver_parse getVersionInfo template {|
              Args.owner := owner;
              Args.repo := repo;
              Args.commits := commits;
              Args.config := ActionConfig.engine config;
              Args.lastRelease := lastRelease;
              Args.mergedPullRequests := sortedMergedPullRequests;
              Args.version := Input.version input;
              Args.tag := Input.tag input;
              Args.name := Input.name input;
              Args.isPreRelease := isEffectivePreRelease;
              Args.latest := latest;
              Args.shouldDraft := Input.shouldDraft input;
              Args.targetCommitish := targetCommitish;
              Args.prNumber := prNumber;
              Args.prSpecificRelease := None;
            |} in
          match releaseInfo.2 with
          | Raise e => Raise e
          | Ok None => Ok NoReleaseInfo
          | Ok (Some releaseInfo) =>
              let createOrUpdateReleaseResponse :=
                if negb (ReleaseInfo.foundPrSpecificDraft releaseInfo)
                then Ok (createRelease releaseInfo)
                else updateRelease None releaseInfo in
              match createOrUpdateReleaseResponse with
              | Raise e => Raise e
              | Ok call =>
                  Ok (Called call
                        (if runnerIsActions
                         then setActionOutput (github call) releaseInfo
                         else []))
              end
          end
  end.
End drafter.

(** ** The autolabeler of [index.js] *)

Module Autolabel.
(** An element of [config['autolabeler']]; [Pattern] is the type of the
    regular expressions of [branch], [title] and [body]. *)
Record t (Pattern : Type) := mk {
  label : string;
  files : list string;
  branch : list Pattern;
  title : list Pattern;
  body : list Pattern;
}.
Global Arguments mk {Pattern} label files branch title body.
Global Arguments label {Pattern} t.
Global Arguments files {Pattern} t.
Global Arguments branch {Pattern} t.
Global Arguments title {Pattern} t.
Global Arguments body {Pattern} t.
End Autolabel.

(** [context.payload.pull_request], as far as the autolabeler reads it;
    a [body] that is [null] is [None]. *)
Module PullRequestPayload.
Record t := mk {
  number : N;
  head_ref : string;
  title : string;
  body : option string;
}.
End PullRequestPayload.

(** What the handler does: nothing, or one call of [issues.addLabels]
    followed by the outputs. *)
Inductive AutolabelerResult :=
| NoLabels
| AddLabels (issue_number : N) (labels : list string) (outputs : list (string * JsValue)).

Section autolabeler.
Context {Pattern : Type}.
(** [matcher.test(text)] *)
Variable test : Pattern → string → bool.
(** [ignore().add(files).ignores(file)] of the package [ignore] *)
Variable ignores : list string → string → bool.
(** [runnerIsActions()] of [./utils] *)
Variable runnerIsActions : bool.

(** [for (const matcher of matchers) { if (matcher.test(text)) { ...;
    break } }]: whether the body of the [if] is run. *)
Fixpoint some_matcher (matchers : list Pattern) (text : string) : bool :=
  match matchers with
  | [] => false
  | matcher :: matchers' => if test matcher text then true else some_matcher matchers' text
  end.

(** The body of [for (const autolabel of config['autolabeler'])]: the
    set [labels] after it. *)
Definition autolabel_step (pull_request : PullRequestPayload.t) (changedFiles : list string)
    (labels : list string) (autolabel : Autolabel.t Pattern) : list string :=
  let found := false in
  let '(labels, found) :=
    if negb found && bool_decide (0 < length (Autolabel.files autolabel)) then
      if existsb (ignores (Autolabel.files autolabel)) changedFiles
      then (set_add (Autolabel.label autolabel) labels, true)
      else (labels, found)
    else (labels, found) in
  let '(labels, found) :=
    if negb found && bool_decide (0 < length (Autolabel.branch autolabel)) then
      if some_matcher (Autolabel.branch autolabel) (PullRequestPayload.head_ref pull_request)
      then (set_add (Autolabel.label autolabel) labels, true)
      else (labels, found)
    else (labels, found) in
  let '(labels, found) :=
    if negb found && bool_decide (0 < length (Autolabel.title autolabel)) then
      if some_matcher (Autolabel.title autolabel) (PullRequestPayload.title pull_request)
      then (set_add (Autolabel.label autolabel) labels, true)
      else (labels, found)
    else (labels, found) in
  let '(labels, found) :=
    match PullRequestPayload.body pull_request with
    | Some body =>
        if negb found && bool_decide (0 < length (Autolabel.body autolabel)) then
          if some_matcher (Autolabel.body autolabel) body
          then (set_add (Autolabel.label autolabel) labels, true)
          else (labels, found)
        else (labels, found)
    | None => (labels, found)
    end in
  labels.

(** The handler of the [pull_request] events, with what it gets from
    outside as arguments: whether a configuration was found, the input
    [disableAutolabeler], the rules [config['autolabeler']], the payload
    and the names of the changed files. *)
Definition autolabeler (config_found disableAutolabeler : bool)
    (rules : list (Autolabel.t Pattern)) (pull_request : PullRequestPayload.t)
    (changedFiles : list string) : AutolabelerResult :=
  if negb config_found || disableAutolabeler then NoLabels
  else
    let labels := foldl (autolabel_step pull_request changedFiles) [] rules in
    let labelsToAdd := labels in
    if bool_decide (0 < length labelsToAdd) then
      AddLabels (PullRequestPayload.number pull_request) labelsToAdd
        (if runnerIsActions
         then [ ("number", VNumber (PullRequestPayload.number pull_request));
                ("labels", VString (join "," labelsToAdd)) ]
         else [])
    else NoLabels.
End autolabeler.

(** ** Reference instances of the imported functions

    The engine above is parametric in what [lib/releases.js] imports.  To
    run it on concrete inputs, this module gives one instance of each
    import. *)

Module Reference.

(** [s.split(c)] *)
Fixpoint split (c : ascii) (s : string) : list string :=
  match s with
  | "" => [""]
  | String d s' =>
      if Ascii.eqb c d then "" :: split c s'
      else match split c s' with
           | x :: xs => String d x :: xs
           | [] => [String d ""]
           end
  end.

(** [s] cut at the first [c]: what is before, and what is after when
    there is a [c]. *)
Fixpoint cut (c : ascii) (s : string) : string * option string :=
  match s with
  | "" => ("", None)
  | String d s' =>
      if Ascii.eqb c d then ("", Some s')
      else let '(x, y) := cut c s' in (String d x, y)
  end.

Fixpoint all_chars (p : ascii → bool) (s : string) : bool :=
  match s with
  | "" => true
  | String c s' => p c && all_chars p s'
  end.

Definition is_alnum_hyphen (c : ascii) : bool :=
  let n := nat_of_ascii c in
  Str.is_digit c || bool_decide (65 ≤ n ≤ 90) || bool_decide (97 ≤ n ≤ 122)
  || Ascii.eqb c "-"%char.

(** A numeric identifier: digits, with no leading zero. *)
Definition numeric (s : string) : option N :=
  if bool_decide (s ≠ "") && all_chars Str.is_digit s
     && (bool_decide (s = "0") || negb (Str.startsWith s "0"))
  then Some (Str.parse_digits 0 s) else None.

Definition identifier (s : string) : option SemVer.Identifier :=
  if bool_decide (s ≠ "") && all_chars is_alnum_hyphen s then
    if all_chars Str.is_digit s
    then SemVer.IdNumber <$> numeric s
    else Some (SemVer.IdString s)
  else None.

(** [semver.parse] of the package [semver], on the grammar of Semantic
    Versioning 2.0.0 with an optional leading [v]:
    [major.minor.patch], then [-] and dot-separated pre-release
    identifiers, then [+] and dot-separated build identifiers. *)
Definition semver_parse (version : string) : option SemVer.t :=
  let version := Str.trim version in
  let version := Str.strip_prefix "v" version in
  let '(rest, build) := cut "+" version in
  let '(main, pre) := cut "-" rest in
  match numeric <$> split "." main with
  | [Some x; Some y; Some z] =>
      pre ← match pre with
            | None => Some []
            | Some p => mapM identifier (split "." p)
            end;
      build ← match build with
              | None => Some []
              | Some b =>
                  mapM (λ x, if bool_decide (x ≠ "") && all_chars is_alnum_hyphen x
                             then Some x else None) (split "." b)
              end;
      Some (SemVer.mk x y z pre build)
  | _ => None
  end.

(** A segment of a version, as [compare-versions] reads it. *)
Inductive Segment := Wildcard | SNumber (z : Z) | SString (s : string).

(** [tryParse]: [parseInt(v, 10)] when it is a number, else [v]. *)
Definition tryParse (v : string) : Segment :=
  let '(neg, body) :=
    match v with
    | String "-"%char v' => (true, v')
    | _ => (false, v)
    end in
  let '(ds, _) := span_digits body in
  if bool_decide (ds ≠ "")
  then SNumber (if neg then - Z.of_N (Str.parse_digits 0 ds)
                else Z.of_N (Str.parse_digits 0 ds))
  else SString v.

Definition segment (v : string) : Segment :=
  if bool_decide (v = "*" ∨ v = "x" ∨ v = "X") then Wildcard else tryParse v.

Definition string_of_Z (z : Z) : string :=
  NilEmpty.string_of_int (Z.to_int z).

Definition sign (c : comparison) : Z :=
  match c with Lt => (-1)%Z | Eq => 0%Z | Gt => 1%Z end.

(** [compareStrings]: numbers by value, anything else as strings. *)
Definition compareStrings (a b : Segment) : Z :=
  match a, b with
  | Wildcard, _ | _, Wildcard => 0
  | SNumber x, SNumber y => sign (Z.compare x y)
  | SString x, SString y => sign (String.compare x y)
  | SNumber x, SString y => sign (String.compare (string_of_Z x) y)
  | SString x, SNumber y => sign (String.compare x (string_of_Z y))
  end.

(** [compareSegments]: the loop over [i < Math.max(a.length, b.length)],
    with [a[i] || '0'] against [b[i] || '0']. *)
Fixpoint compareSegments_loop (n : nat) (a b : list string) : Z :=
  match n with
  | O => 0
  | S n' =>
      let r := compareStrings (segment (hd "0" a)) (segment (hd "0" b)) in
      if bool_decide (r ≠ 0%Z) then r else compareSegments_loop n' (tl a) (tl b)
  end.

Definition compareSegments (a b : list string) : Z :=
  compareSegments_loop (Nat.max (length a) (length b)) a b.

Definition is_version_segment (first : bool) (s : string) : bool :=
  bool_decide (s ≠ "")
  && (all_chars Str.is_digit s
      || (negb first && bool_decide (s = "*" ∨ s = "x" ∨ s = "X"))).

Definition is_operator_char (c : ascii) : bool :=
  Str.has_char c "v^~<>=".

Fixpoint strip_operators (s : string) : string :=
  match s with
  | String c s' => if is_operator_char c then strip_operators s' else s
  | "" => ""
  end.

(** [validateAndParse]: the numeric segments and the pre-release part;
    [None] when the version does not match. *)
Definition validateAndParse (v : string) : option (list string * option string) :=
  let v := strip_operators v in
  let '(rest, build) := cut "+" v in
  let '(main, pre) := cut "-" rest in
  let segments := split "." main in
  let n := length segments in
  let suffix_ok :=
    match pre, build with
    | None, None => true
    | _, _ =>
        bool_decide (3 ≤ n)
        && from_option (λ p, forallb (λ x, bool_decide (x ≠ "") && all_chars is_alnum_hyphen x)
                               (split "." p)) true pre
        && from_option (λ b, forallb (λ x, bool_decide (x ≠ "") && all_chars is_alnum_hyphen x)
                               (split "." b)) true build
    end in
  match segments with
  | first :: others =>
      if is_version_segment true first && forallb (is_version_segment false) others
         && bool_decide (n ≤ 4) && suffix_ok
      then Some (segments, pre) else None
  | [] => None
  end.

(** [compareVersions] of the package [compare-versions]. *)
Definition compareVersions (v1 v2 : string) : option Z :=
  '(n1, p1) ← validateAndParse v1;
  '(n2, p2) ← validateAndParse v2;
  let r := compareSegments n1 n2 in
  if bool_decide (r ≠ 0%Z) then Some r
  else match p1, p2 with
       | Some p1, Some p2 => Some (compareSegments (split "." p1) (split "." p2))
       | Some _, None => Some (-1)%Z
       | None, Some _ => Some 1%Z
       | None, None => Some 0%Z
       end.

(** The characters of a token name after [$]: [A-Z_]. *)
Definition is_token_char (c : ascii) : bool :=
  let n := nat_of_ascii c in
  bool_decide (65 ≤ n ≤ 90) || Ascii.eqb c "_"%char.

Fixpoint span_token (s : string) : nat :=
  match s with
  | String c s' => if is_token_char c then S (span_token s') else 0
  | "" => 0
  end.

Definition token_regex (s : string) : option nat :=
  match s with
  | String "$"%char s' =>
      match span_token s' with
      | 0 => None
      | n => Some (S n)
      end
  | _ => None
  end.

Definition render_value (v : TemplateValue) : string :=
  match v with
  | TString s => s
  | TNumber n => Str.of_N n
  | TVersion v => ResolvedVersion.version v
  end.

(** [object[name]] on the listed properties: a later one overwrites an
    earlier one of the same name. *)
Definition lookup_token (object : TemplateObject) (name : string)
    : option TemplateValue :=
  snd <$> last (List.filter (λ e, bool_decide (e.1 = name)) object).

Definition literal_regex (search : string) (s : string) : option nat :=
  if bool_decide (search ≠ "") && Str.startsWith s search
  then Some (Str.length search) else None.

(** Modelled from the spec: [template] of [./template], which is not part
    of [lib/releases.js].  "Literal [$TOKEN] replacement and optional
    regex-based post-processing": a token the object does not have stays
    as it is; the search pattern of a replacer is read as literal text. *)
Definition template (text : string) (object : TemplateObject)
    (replacers : list Replacer.t) : string :=
  foldl (λ s r, replace_all (literal_regex (Replacer.search r))
                  (λ _, Replacer.replace r) s)
    (replace_all token_regex
       (λ m, from_option render_value m (lookup_token object m)) text)
    replacers.

Definition resolved (x y z : N) (prerelease : string) : ResolvedVersion.t :=
  let version :=
    Str.of_N x +:+ "." +:+ Str.of_N y +:+ "." +:+ Str.of_N z +:+ prerelease in
  ResolvedVersion.mk version x y z prerelease version.

(** A bump class applied to [major.minor.patch]. *)
Definition bump (class : string) (v : SemVer.t) : option (N * N * N) :=
  if decide (class = "major") then Some ((SemVer.major v + 1)%N, 0%N, 0%N)
  else if decide (class = "minor") then Some (SemVer.major v, (SemVer.minor v + 1)%N, 0%N)
  else if decide (class = "patch")
  then Some (SemVer.major v, SemVer.minor v, (SemVer.patch v + 1)%N)
  else None.

(** Modelled from the spec: [getVersionInfo] of [./versions], which is not
    part of [lib/releases.js].  "Apply the resulting bump class to the
    baseline release's version to compute concrete major/minor/patch
    numbers"; a class with the pre-release prefix gives "a
    [-<identifier>.0] suffix rather than a plain bump"; the tokens are the
    resolved version "plus the next candidate versions for each bump
    class".  With no valid bump class "version resolution fails".  The
    spec names no starting point for a run without a baseline release, or
    with one whose tag is no semantic version: no version is resolved
    then. *)
Definition getVersionInfo (release : option Release.t) (template : string)
    (inputVersion : option string)
    (versionKeyIncrement tagPrefix preReleaseIdentifier : string)
    : Outcome (option VersionInfo.t) :=
  Ok (r ← release;
      v ← semver_parse (Str.strip_prefix tagPrefix (Release.tag_name r));
      let pre := Str.startsWith versionKeyIncrement "pre" in
      let class := Str.strip_prefix "pre" versionKeyIncrement in
      '(x, y, z) ← bump class v;
      let next class :=
        from_option (λ '(a, b, c), resolved a b c "") (resolved 0 0 0 "") (bump class v) in
      Some {|
        VersionInfo.RESOLVED_VERSION :=
          Some (resolved x y z
                  (if pre then "-" +:+ preReleaseIdentifier +:+ ".0" else ""));
        VersionInfo.others :=
          [ ("$NEXT_MAJOR_VERSION", next "major");
            ("$NEXT_MINOR_VERSION", next "minor");
            ("$NEXT_PATCH_VERSION", next "patch") ];
      |}).

End Reference.

(** ** Sample inputs

    A configuration, changes and releases to run the engine on. *)

Module Sample.

Definition config : Config.t := {|
  Config.prerelease_identifier := "beta";
  Config.tag_prefix := "v";
  Config.version_template := "$MAJOR.$MINOR.$PATCH";
  Config.tag_template := "v$RESOLVED_VERSION";
  Config.name_template := "v$RESOLVED_VERSION";
  Config.replacers := [];
  Config.header := "";
  Config.template := "## Changes" +:+ Str.LF +:+ "$CHANGES";
  Config.footer := "";
  Config.exclude_labels := ["skip-changelog"];
  Config.include_labels := [];
  Config.exclude_contributors := [];
  Config.categories :=
    [ Category.mk "Features" ["feature"] 0; Category.mk "Fixes" ["fix"; "bug"] 0 ];
  Config.change_template := "- $TITLE (#$NUMBER) @$AUTHOR";
  Config.category_template := "## $TITLE";
  Config.change_title_escapes := "#@";
  Config.no_changes_template := "No changes";
  Config.no_contributors_template := "No contributors";
  Config.version_resolver_labels :=
    λ key, match key with
           | major => ["breaking"]
           | minor => ["feature"]
           | patch => ["fix"; "bug"]
           end;
  Config.version_resolver_default := "patch";
|}.

Definition change (number : N) (title : string) (labels : list string) : PullRequest.t := {|
  PullRequest.number := number;
  PullRequest.title := title;
  PullRequest.body := "";
  PullRequest.url := "";
  PullRequest.baseRefName := "main";
  PullRequest.headRefName := "topic";
  PullRequest.author := Some (Author.mk "alice" (Some "User") "");
  PullRequest.labels := labels;
|}.

Definition fix_change : PullRequest.t := change 7 "Fix #123 @bug" ["fix"].
Definition breaking_change : PullRequest.t := change 8 "Drop the old API" ["breaking"].
Definition feature_fix_change : PullRequest.t := change 9 "Add `a#b`" ["feature"; "fix"].
Definition hidden_change : PullRequest.t :=
  change 10 "Internal" ["feature"; "fix"; "skip-changelog"].
Definition plain_change : PullRequest.t := change 11 "Typo" [].
Definition constructor_change : PullRequest.t := change 12 "Rework constructors" ["constructor"].

Definition release (id : N) (tag_name : string) (created_at : Z) (draft prerelease : bool)
    (body : option string) : Release.t := {|
  Release.id := id;
  Release.name := None;
  Release.tag_name := tag_name;
  Release.created_at := created_at;
  Release.target_commitish := "main";
  Release.draft := draft;
  Release.prerelease := prerelease;
  Release.body := body;
|}.

Definition v1_1_0 : Release.t := release 1 "v1.1.0" 1000 false false (Some "notes").
Definition v1_2 : Release.t := release 2 "v1.2" 2000 false false (Some "notes").
Definition v1_2_0 : Release.t := release 3 "v1.2.0" 3000 false false (Some "notes").
Definition v0_9_0 : Release.t := release 4 "v0.9.0" 500 false false None.

(** The body a draft for change request [n] carries. *)
Definition draft_body (n : N) : string :=
  "notes" +:+ Str.LF +:+ Str.LF +:+ pr_marker n +:+ Str.LF.

Definition draft_beta_3 : Release.t :=
  release 5 "v1.2.0-beta.3" 4000 true true (Some (draft_body 42)).
(** A second draft for change request 42 under the same tag. *)
Definition draft_beta_3_again : Release.t :=
  release 7 "v1.2.0-beta.3" 5000 true true (Some (draft_body 42)).
Definition draft_rc_3 : Release.t :=
  release 6 "v1.2.0-rc.3" 4000 true true (Some (draft_body 42)).

(** A pre-release run for change request 42 on the baseline [v1.1.0], with
    the draft [prSpecificRelease]. *)
Definition run (prSpecificRelease : option Release.t) : Args.t := {|
  Args.owner := "octo";
  Args.repo := "demo";
  Args.commits := [];
  Args.config := config;
  Args.lastRelease := Some v1_1_0;
  Args.mergedPullRequests := [fix_change];
  Args.version := None;
  Args.tag := None;
  Args.name := None;
  Args.isPreRelease := true;
  Args.latest := Some "false";
  Args.shouldDraft := true;
  Args.targetCommitish := "refs/heads/main";
  Args.prNumber := Some 42%N;
  Args.prSpecificRelease := prSpecificRelease;
|}.

(** [generateReleaseInfo] with the reference instances of its imports. *)
Definition generate (a : Args.t) : list LogEntry * Outcome (option ReleaseInfo.t) :=
  generateReleaseInfo Reference.semver_parse Reference.getVersionInfo Reference.template a.

End Sample.

(** ** Further sample inputs

    A run that is no pre-release run, a version lookup that fails, and a
    configuration, inputs and an API for the action. *)

Module Scenario.

(** A run that is no pre-release run, on the baseline [v1.1.0]. *)
Definition standard_run : Args.t := {|
  Args.owner := "octo";
  Args.repo := "demo";
  Args.commits := [];
  Args.config := Sample.config;
  Args.lastRelease := Some Sample.v1_1_0;
  Args.mergedPullRequests := [Sample.fix_change];
  Args.version := None;
  Args.tag := None;
  Args.name := None;
  Args.isPreRelease := false;
  Args.latest := Some "true";
  Args.shouldDraft := true;
  Args.targetCommitish := "refs/heads/main";
  Args.prNumber := None;
  Args.prSpecificRelease := None;
|}.

(** A version lookup that raises for a draft, and is the reference one
    for every other release. *)
Definition getVersionInfo_no_draft (release : option Release.t) (template : string)
    (inputVersion : option string)
    (versionKeyIncrement tagPrefix preReleaseIdentifier : string)
    : Outcome (option VersionInfo.t) :=
  if from_option Release.draft false release
  then Raise "no version for a draft"
  else Reference.getVersionInfo release template inputVersion versionKeyIncrement
         tagPrefix preReleaseIdentifier.

(** A change whose author is missing. *)
Definition ghost_change : PullRequest.t := {|
  PullRequest.number := 13;
  PullRequest.title := "Cleanup";
  PullRequest.body := "";
  PullRequest.url := "";
  PullRequest.baseRefName := "main";
  PullRequest.headRefName := "topic";
  PullRequest.author := None;
  PullRequest.labels := [];
|}.

(** The configuration file of the action. *)
Definition action_config : ActionConfig.t := {|
  ActionConfig.engine := Sample.config;
  ActionConfig.commitish := None;
  ActionConfig.prerelease := Some false;
  ActionConfig.latest := Some "true";
  ActionConfig.filter_by_commitish := false;
  ActionConfig.include_pre_releases := false;
  ActionConfig.sort_by := "merged_at";
  ActionConfig.sort_direction := "descending";
|}.

(** The inputs of the action: [prerelease: True] and [latest: true]. *)
Definition inputs (name : string) : string :=
  if decide (name = "prerelease") then "True"
  else if decide (name = "latest") then "true"
  else "".

(** An API that answers every call with the release 99. *)
Definition github (call : ApiCall) : ReleaseResponse.t := {|
  ReleaseResponse.id := VNumber 99;
  ReleaseResponse.html_url := VString "https://github.com/octo/demo/releases/99";
  ReleaseResponse.upload_url := VString "https://uploads.github.com/octo/demo/releases/99";
  ReleaseResponse.tag_name :=
    match call with
    | CreateRelease request | UpdateRelease request => property request "tag_name"
    end;
  ReleaseResponse.name :=
    match call with
    | CreateRelease request | UpdateRelease request => property request "name"
    end;
|}.

(** [drafter] as a GitHub action on [ref], with the reference instances of
    the imports of the engine, every reference triggerable, the change
    [fix_change] merged since the baseline release, and the change
    requests left in the order they come. *)
Definition run_drafter (ref : string) (releases : list Release.t) (prNumber : option N)
    : Outcome DrafterResult :=
  drafter Reference.semver_parse Reference.getVersionInfo Reference.template
    Reference.compareVersions (λ _ _, true) (λ _ _ _, ([], [Sample.fix_change]))
    (λ pullRequests _ _, pullRequests) true github
    (getInput inputs) (Some action_config) ref "octo" "demo" releases prNumber.

End Scenario.

(** * Specification

    What the properties below speak of: the words of the specification as
    definitions, and names for parts of the code above. *)

(** ** [escapeTitle] *)

(** What the specification says of one character: a character of the escape
    set gets a backslash before it, except [@] and [#], which get the empty
    HTML comment after them. *)
Definition escape_char (escapes : string) (c : ascii) : string :=
  if Str.has_char c escapes then
    if bool_decide (c = "@"%char ∨ c = "#"%char)
    then String c "<!---->"
    else String "\"%char (String c "")
  else String c "".

Fixpoint escape_each (escapes : string) (s : string) : string :=
  match s with
  | "" => ""
  | String c s' => escape_char escapes c +:+ escape_each escapes s'
  end.

(** A text with no back-tick and no line terminator, as the inside of a
    code span is. *)
Definition span_body (s : string) : Prop :=
  Reference.all_chars (λ c, negb (Ascii.eqb c backtick) && negb (Str.is_line_terminator c)) s
  = true.

(** ** [resolveVersionKeyIncrement] *)

(** The changes that pass the exclude filter and then the include filter:
    what both [resolveVersionKeyIncrement] and [categorizePullRequests]
    go on with. *)
Definition filtered_changes (config : Config.t) (pullRequests : list PullRequest.t)
    : list PullRequest.t :=
  List.filter (getFilterIncludedPullRequests (Config.include_labels config))
    (List.filter (getFilterExcludedPullRequests (Config.exclude_labels config))
       pullRequests).

(** From the specification: a bump class is present when some change carries
    one of its trigger labels; the highest-priority class present is taken,
    and the default class when none is. *)
Definition triggers (config : Config.t) (key : VersionKey)
    (changes : list PullRequest.t) : Prop :=
  Exists (λ pr, Exists (λ label, label ∈ Config.version_resolver_labels config key)
                  (PullRequest.labels pr)) changes.

Global Instance triggers_dec config key changes : Decision (triggers config key changes).
Proof. unfold triggers. apply _. Defined.

Definition highest_priority_bump_class (config : Config.t)
    (changes : list PullRequest.t) : string :=
  if decide (triggers config major changes) then "major"
  else if decide (triggers config minor changes) then "minor"
  else if decide (triggers config patch changes) then "patch"
  else Config.version_resolver_default config.

(** No label of the changes is the name of a property a plain object
    inherits, unless it is a trigger label. *)
Definition no_inherited_name (config : Config.t) (changes : list PullRequest.t) : Prop :=
  ∀ pr label,
    pr ∈ changes → label ∈ PullRequest.labels pr →
    label ∈ Object_prototype_properties →
    ∃ key, label ∈ Config.version_resolver_labels config key.

Global Instance Property_eq_dec {V} `{EqDecision V} : EqDecision (Property V).
Proof. solve_decision. Defined.

Definition accumulated (o : option VersionKey) : JsNumber :=
  match o with Some k => Num (priorityMap k) | None => NegInfinity end.

Definition highest_key (o : option VersionKey) (keys : list (Property VersionKey))
    : option VersionKey :=
  if decide (o = Some major ∨ Own major ∈ keys) then Some major
  else if decide (o = Some minor ∨ Own minor ∈ keys) then Some minor
  else if decide (o = Some patch ∨ Own patch ∈ keys) then Some patch
  else None.

Definition label_keys (config : Config.t) (changes : list PullRequest.t)
    : list (Property VersionKey) :=
  List.filter Boolean
    (flat_map (λ pr, get_property (labelToKeyMap config) <$> PullRequest.labels pr) changes).

(** ** [categorizePullRequests] *)

(** The test of [filterUncategorizedPullRequests]: the change has a label
    of some category. *)
Definition categorizable (config : Config.t) (pr : PullRequest.t) : bool :=
  negb (bool_decide (length (PullRequest.labels pr) = 0)
        || negb (existsb (λ label, bool_decide (label ∈ allCategoryLabels config))
                   (PullRequest.labels pr))).

(** ** [sortReleases] and [findReleases] *)

(** [x] may stand before [y]. *)
Definition before {A : Type} (cmp : A → A → Z) (x y : A) : Prop := (cmp x y ≤ 0)%Z.

(** The comparator is a total order on the elements of [l]: any two of them
    are comparable, the order is transitive, and no two distinct elements
    compare as equal. *)
Definition total_order_on {A : Type} (cmp : A → A → Z) (l : list A) : Prop :=
  Forall (λ x,
    Forall (λ y,
      (before cmp x y ∨ before cmp y x)
      ∧ (before cmp x y → before cmp y x → x = y)
      ∧ Forall (λ z, before cmp x y → before cmp y z → before cmp x z) l) l) l.

Global Instance total_order_on_dec {A : Type} `{EqDecision A} (cmp : A → A → Z) (l : list A) :
  Decision (total_order_on cmp l).
Proof. unfold total_order_on, before. apply _. Defined.

(** The releases [findReleases] sorts: those that pass the commitish filter
    and the tag-prefix filter. *)
Definition selectedReleases (releases : list Release.t) (targetCommitish : string)
    (filterByCommitish : bool) (tagPrefix : string) : list Release.t :=
  let commitishFilteredReleases :=
    if filterByCommitish
    then List.filter
           (λ r, bool_decide (strip_heads targetCommitish
                              = strip_heads (Release.target_commitish r)))
           releases
    else releases in
  if truthy tagPrefix
  then List.filter (λ r, Str.startsWith (Release.tag_name r) tagPrefix)
         commitishFilteredReleases
  else commitishFilteredReleases.

(** ** [generateReleaseInfo] *)

(** The shape check of the pre-release logic on the tag of [draft]: the
    parsed version and the numeric suffix, when the tag passes. *)
Definition draft_suffix (semver_parse : string → option SemVer.t)
    (a : Args.t) (draft : Release.t) : option (SemVer.t * N) :=
  let tagPrefix := Config.tag_prefix (Args.config a) in
  let currentTag := Release.tag_name draft in
  let currentVersionStr :=
    if truthy tagPrefix && Str.startsWith currentTag tagPrefix
    then Str.slice (Str.length tagPrefix) currentTag
    else currentTag in
  match semver_parse currentVersionStr with
  | Some parsedVersion =>
      match SemVer.prerelease parsedVersion with
      | first :: SemVer.IdNumber currentSuffix :: _ =>
          if decide (first = SemVer.IdString (Config.prerelease_identifier (Args.config a)))
          then Some (parsedVersion, currentSuffix)
          else None
      | _ => None
      end
  | None => None
  end.

(** The call of [getVersionInfo] in the standard version calculation. *)
Definition standard_versionInfo
    (getVersionInfo : option Release.t → string → option string → string → string → string →
                      Outcome (option VersionInfo.t))
    (a : Args.t) : Outcome (option VersionInfo.t) :=
  getVersionInfo (Args.lastRelease a) (Config.version_template (Args.config a))
    (inputVersion a)
    (resolveVersionKeyIncrement (Args.mergedPullRequests a) (Args.config a)
       (Args.isPreRelease a))
    (Config.tag_prefix (Args.config a)) (Config.prerelease_identifier (Args.config a)).

(** The call of [getVersionInfo] in the pre-release logic. *)
Definition draft_versionInfo
    (getVersionInfo : option Release.t → string → option string → string → string → string →
                      Outcome (option VersionInfo.t))
    (a : Args.t) (draft : Release.t) : Outcome (option VersionInfo.t) :=
  getVersionInfo (Some draft) (Config.version_template (Args.config a))
    (inputVersion a)
    (resolveVersionKeyIncrement (Args.mergedPullRequests a) (Args.config a)
       (Args.isPreRelease a))
    (Config.tag_prefix (Args.config a)) (Config.prerelease_identifier (Args.config a)).

(** [major.minor.patch-identifier.(n+1)] *)
Definition incremented_version (a : Args.t) (parsed : SemVer.t) (n : N) : string :=
  Str.of_N (SemVer.major parsed) +:+ "." +:+ Str.of_N (SemVer.minor parsed) +:+ "." +:+
  Str.of_N (SemVer.patch parsed) +:+ "-" +:+
  Config.prerelease_identifier (Args.config a) +:+ "." +:+ Str.of_N (n + 1).

(** ** [findReleases]: the baseline release *)

(** The test of the baseline release in [findReleases]. *)
Definition qualifies (includePreReleases : bool) (r : Release.t) : bool :=
  negb (Release.draft r) && (negb (Release.prerelease r) || includePreReleases).

(** ** [categorizePullRequests]: the uncategorized changes *)

(** The changes without a label of any category, among those that pass the
    exclude and include filters. *)
Definition uncategorized_changes (config : Config.t) (pullRequests : list PullRequest.t)
    : list PullRequest.t :=
  List.filter (λ pr, negb (categorizable config pr)) (filtered_changes config pullRequests).

(** ** [contributorsSentence] *)

(** The name a commit adds to the contributors, when it adds one. *)
Definition commit_contributor (config : Config.t) (commit : Commit.t) : option string :=
  match Commit.author_user commit with
  | Some login =>
      if decide (login ∈ Config.exclude_contributors config) then None
      else Some ("@" +:+ login)
  | None => Some (Commit.author_name commit)
  end.

(** The name a change adds to the contributors, when it adds one. *)
Definition pull_contributor (config : Config.t) (pullRequest : PullRequest.t)
    : option string :=
  match PullRequest.author pullRequest with
  | Some a =>
      if decide (Author.login a ∈ Config.exclude_contributors config) then None
      else if decide (Author.typename a = Some "Bot")
      then Some ("[" +:+ Author.login a +:+ "[bot]](" +:+ Author.url a +:+ ")")
      else Some ("@" +:+ Author.login a)
  | None => None
  end.

(** ** The rendered body *)

(** The text [generateReleaseInfo] renders from the header, the template
    and the footer, for the version information [versionInfo]. *)
Definition generatedBody (template : string → TemplateObject → list Replacer.t → string)
    (a : Args.t) (versionInfo : option VersionInfo.t) : string :=
  template
    (Config.header (Args.config a) +:+ Config.template (Args.config a)
     +:+ Config.footer (Args.config a))
    ([ ("$PREVIOUS_TAG",
        TString (match Args.lastRelease a with
                 | Some lastRelease => Release.tag_name lastRelease
                 | None => ""
                 end));
       ("$CHANGES",
        TString (generateChangeLog template (Args.config a) (Args.mergedPullRequests a)));
       ("$CONTRIBUTORS",
        TString (contributorsSentence (Args.config a) (Args.commits a)
                   (Args.mergedPullRequests a)));
       ("$OWNER", TString (Args.owner a));
       ("$REPOSITORY", TString (Args.repo a)) ]
     ++ versionInfo_object versionInfo)
    (Config.replacers (Args.config a)).

(** ** Requests and the autolabeler *)

(** What [a || b] sends for a name or a tag: the string when it is not
    empty. *)
Definition sent (s : option string) : option JsValue :=
  match s with
  | Some s => if truthy s then Some (VString s) else None
  | None => None
  end.

(** A rule of the autolabeler applies to a change request: one of its
    file patterns matches a changed file, or one of its expressions matches
    the branch, the title or the body, when there is one. *)
Definition rule_applies {Pattern : Type} (test : Pattern → string → bool)
    (ignores : list string → string → bool)
    (pull_request : PullRequestPayload.t) (changedFiles : list string)
    (rule : Autolabel.t Pattern) : bool :=
  (bool_decide (Autolabel.files rule ≠ [])
   && existsb (ignores (Autolabel.files rule)) changedFiles)
  || existsb (λ matcher, test matcher (PullRequestPayload.head_ref pull_request))
       (Autolabel.branch rule)
  || existsb (λ matcher, test matcher (PullRequestPayload.title pull_request))
       (Autolabel.title rule)
  || match PullRequestPayload.body pull_request with
     | Some body => existsb (λ matcher, test matcher body) (Autolabel.body rule)
     | None => false
     end.

(** * Properties *)

(** ** Strings *)

Lemma app_String c s t : String c s +:+ t = String c (s +:+ t).
Proof. reflexivity. Qed.

Lemma app_empty_l s : "" +:+ s = s.
Proof. reflexivity. Qed.

Lemma app_empty_r s : s +:+ "" = s.
Proof. induction s as [|c s IH]; [done|]. by rewrite app_String, IH. Qed.

Lemma app_assoc_string s t u : (s +:+ t) +:+ u = s +:+ (t +:+ u).
Proof. induction s as [|c s IH]; [done|]. by rewrite !app_String, IH. Qed.

Lemma take_app_length s t : Str.take (String.length s) (s +:+ t) = s.
Proof. induction s as [|c s IH]; [by destruct t|]. simpl. by rewrite ?app_String, IH. Qed.

Lemma slice_app_length s t : Str.slice (String.length s) (s +:+ t) = t.
Proof. induction s as [|c s IH]; [done|]. simpl. by rewrite ?app_String, IH. Qed.

(** ** [replace_all] *)

Lemma replace_all_step match_at callback c s' :
  replace_all match_at callback (String c s') =
  match match_at (String c s') with
  | Some (S n) =>
      callback (String c (Str.take n s')) +:+ replace_all match_at callback (Str.slice n s')
  | _ => String c (replace_all match_at callback s')
  end.
Proof.
  rewrite replace_all_equation_2.
  destruct (match_at (String c s')) as [[|n]|]; by simp replace_all.
Qed.

(** ** [escapeTitle] *)

Lemma escape_match_char escapes c :
  Str.has_char c escapes = true →
  escape_match (String c "") = escape_char escapes c.
Proof.
  intros Hc. unfold escape_match, escape_char. rewrite Hc.
  rewrite decide_False by (simpl; lia).
  case_bool_decide as Hat.
  - rewrite decide_True; [done|]. destruct Hat as [-> | ->]; auto.
  - rewrite decide_False; [done|]. intros [[= ->] | [= ->]]; tauto.
Qed.

Lemma escape_match_span m : 1 < String.length m → escape_match m = m.
Proof. intros Hm. unfold escape_match. by rewrite decide_True. Qed.

Lemma escapeTitle_String_escaped escapes c s :
  Str.has_char c escapes = true →
  escapeTitle escapes (String c s) = escape_char escapes c +:+ escapeTitle escapes s.
Proof.
  intros Hc. unfold escapeTitle. rewrite replace_all_step. simpl. rewrite Hc.
  by rewrite (escape_match_char escapes).
Qed.

Lemma escapeTitle_String_plain escapes c s :
  Str.has_char c escapes = false → c ≠ backtick →
  escapeTitle escapes (String c s) = String c (escapeTitle escapes s).
Proof.
  intros Hc Hb. unfold escapeTitle. rewrite replace_all_step. simpl. rewrite Hc.
  by rewrite (proj2 (Ascii.eqb_neq _ _) Hb).
Qed.

Lemma escapeTitle_String_unclosed escapes s :
  Str.has_char backtick escapes = false → span_end s = None →
  escapeTitle escapes (String backtick s) = String backtick (escapeTitle escapes s).
Proof.
  intros Hc Hs. unfold escapeTitle. rewrite replace_all_step. simpl. rewrite Hc.
  replace (Ascii.eqb backtick backtick) with true by done. by rewrite Hs.
Qed.

Lemma span_end_body body post :
  span_body body → span_end (body +:+ String backtick post) = Some (String.length body).
Proof.
  unfold span_body. induction body as [|c body IH]; intros Hb; [done|].
  simpl in Hb. apply andb_prop in Hb as [[Hc Hl]%andb_prop Hb].
  rewrite app_String. simpl.
  apply negb_true_iff in Hc, Hl. rewrite Hc, Hl, (IH Hb). done.
Qed.

Lemma escapeTitle_span escapes body post :
  Str.has_char backtick escapes = false → span_body body →
  escapeTitle escapes (String backtick (body +:+ String backtick post)) =
  String backtick (body +:+ String backtick "") +:+ escapeTitle escapes post.
Proof.
  intros Hc Hb. unfold escapeTitle. rewrite replace_all_step. simpl. rewrite Hc.
  replace (Ascii.eqb backtick backtick) with true by done.
  rewrite (span_end_body _ _ Hb). simpl.
  replace (String.length body + 2) with (S (String.length (body +:+ String backtick "")));
    last first.
  { clear. induction body as [|c body IH]; [done|]. rewrite app_String. simpl. lia. }
  replace (body +:+ String backtick post) with ((body +:+ String backtick "") +:+ post)
    by (by rewrite app_assoc_string).
  rewrite take_app_length, slice_app_length.
  rewrite escape_match_span; [done|].
  simpl. clear. destruct body; simpl; lia.
Qed.

Lemma has_char_String c d s :
  Str.has_char c (String d s) = if Ascii.eqb c d then true else Str.has_char c s.
Proof. reflexivity. Qed.

Lemma escapeTitle_prefix escapes pre rest :
  Str.has_char backtick pre = false →
  escapeTitle escapes (pre +:+ rest) = escape_each escapes pre +:+ escapeTitle escapes rest.
Proof.
  induction pre as [|c pre IH]; intros Hpre; [done|].
  rewrite has_char_String in Hpre.
  destruct (Ascii.eqb backtick c) eqn:Hbc; [done|].
  rewrite app_String. cbn [escape_each].
  destruct (Str.has_char c escapes) eqn:Hc.
  - rewrite escapeTitle_String_escaped by done. by rewrite IH, app_assoc_string.
  - rewrite escapeTitle_String_plain; [|done|].
    + rewrite IH by done. unfold escape_char. by rewrite Hc.
    + intros ->. by rewrite Ascii.eqb_refl in Hbc.
Qed.

Example escapeTitle_mention_and_issue :
  escapeTitle "#@" "Fix #123 @bug" = "Fix #<!---->123 @<!---->bug".
Proof. vm_compute. reflexivity. Qed.

Example escapeTitle_code_span :
  escapeTitle "#@*" "use `a#b` in *c*" = "use `a#b` in \*c\*".
Proof. vm_compute. reflexivity. Qed.

Lemma escapeTitle_backtick_in_escapes escapes title :
  Str.has_char backtick escapes = true →
  escapeTitle escapes title = escape_each escapes title.
Proof.
  intros Hesc. induction title as [|c title IH].
  { unfold escapeTitle. by simp replace_all. }
  cbn [escape_each]. destruct (Str.has_char c escapes) eqn:Hc.
  - by rewrite escapeTitle_String_escaped, IH.
  - rewrite escapeTitle_String_plain, IH; [|done|by intros ->; rewrite Hesc in Hc].
    unfold escape_char. by rewrite Hc.
Qed.

(** C7, as the code has it.  When the escape set holds no back-tick:
    a title with no back-tick has each of its characters escaped as the
    specification says ([escape_each]); in a title whose first back-tick
    opens a code span (closed by the next back-tick, with no line terminator
    between them), the text before the span is escaped character by
    character, the span is copied as it is, and the escaping goes on after
    the span; a first back-tick that opens no span is copied and the
    escaping goes on after it.  When the escape set holds the back-tick,
    every character of the title is escaped as the specification says, the
    back-ticks and what stands between them included. *)
Theorem escapeTitle_spec (escapes : string) :
  (Str.has_char backtick escapes = false →
   (∀ title,
      Str.has_char backtick title = false →
      escapeTitle escapes title = escape_each escapes title)
   ∧ (∀ pre body post,
        Str.has_char backtick pre = false → span_body body →
        escapeTitle escapes (pre +:+ String backtick (body +:+ String backtick post)) =
        escape_each escapes pre +:+
        String backtick (body +:+ String backtick "") +:+ escapeTitle escapes post)
   ∧ (∀ pre rest,
        Str.has_char backtick pre = false → span_end rest = None →
        escapeTitle escapes (pre +:+ String backtick rest) =
        escape_each escapes pre +:+ String backtick (escapeTitle escapes rest)))
  ∧ (Str.has_char backtick escapes = true →
     ∀ title, escapeTitle escapes title = escape_each escapes title).
Proof.
  split; [|intros Hesc title; by apply escapeTitle_backtick_in_escapes].
  intros Hesc. split; [|split].
  - intros title Ht.
    rewrite <- (app_empty_r title) at 1.
    rewrite escapeTitle_prefix by done.
    unfold escapeTitle at 1. simp replace_all. by rewrite app_empty_r.
  - intros pre body post Hpre Hbody.
    rewrite escapeTitle_prefix by done. by rewrite escapeTitle_span.
  - intros pre rest Hpre Hrest.
    rewrite escapeTitle_prefix by done. by rewrite escapeTitle_String_unclosed.
Qed.

Lemma escapeTitle_spec_witness :
  escapeTitle "#@" "see `a#b` #1" = "see `a#b` #<!---->1".
Proof.
  pose proof (proj1 (escapeTitle_spec "#@") eq_refl) as (_ & Hspan & _).
  pose proof (Hspan "see " "a#b" " #1" eq_refl eq_refl) as H.
  vm_compute in H. vm_compute. exact H.
Defined.

(** C7, as stated, fails when the escape set itself holds the back-tick:
    the class of the expression matches the back-ticks one by one, they are
    escaped, and so is what stands between them. *)
Lemma escapeTitle_backtick_escaped :
  escapeTitle "#`" "`a#b`" = "\`a#<!---->b\`" ∧ escapeTitle "#`" "`a#b`" ≠ "`a#b`".
Proof. split; [vm_compute; reflexivity | vm_compute; discriminate]. Qed.

(** ** [resolveVersionKeyIncrement] *)

Lemma elem_of_List_filter {A} (f : A → bool) (l : list A) (x : A) :
  x ∈ List.filter f l ↔ f x = true ∧ x ∈ l.
Proof. rewrite !list_elem_of_In, filter_In. tauto. Qed.

Lemma List_filter_Permutation {A} (f : A → bool) (l k : list A) :
  l ≡ₚ k → List.filter f l ≡ₚ List.filter f k.
Proof.
  induction 1 as [|x l k _ IH|x y l|l k m _ IH1 _ IH2]; simpl.
  - done.
  - destruct (f x); by rewrite IH.
  - destruct (f x), (f y); try done. apply perm_swap.
  - by etrans.
Qed.

Lemma filtered_changes_Permutation config prs prs' :
  prs ≡ₚ prs' → filtered_changes config prs ≡ₚ filtered_changes config prs'.
Proof. intros. unfold filtered_changes. by do 2 apply List_filter_Permutation. Qed.

Lemma lookup_foldl_entries (key : VersionKey) (labels : list string)
    (m : gmap string VersionKey) (x : string) :
  foldl (λ m e, <[e.1 := e.2]> m) m ((λ label, (label, key)) <$> labels) !! x =
  if decide (x ∈ labels) then Some key else m !! x.
Proof.
  revert m. induction labels as [|l labels IH]; intros m.
  - cbn [fmap list_fmap foldl]. case_decide as Hin; [|done].
    by apply elem_of_nil in Hin.
  - cbn [fmap list_fmap foldl fst snd]. rewrite IH.
    destruct (decide (x ∈ labels)) as [Hin|Hin].
    + rewrite decide_True; [done|]. by right.
    + destruct (decide (x = l)) as [->|Hne].
      * rewrite decide_True by left. apply lookup_insert_eq.
      * rewrite decide_False by (intros [?|?]%elem_of_cons; done).
        by rewrite lookup_insert_ne.
Qed.

(** A label is mapped to the highest class that lists it. *)
Lemma labelToKeyMap_lookup config (x : string) :
  labelToKeyMap config !! x =
  if decide (x ∈ Config.version_resolver_labels config major) then Some major
  else if decide (x ∈ Config.version_resolver_labels config minor) then Some minor
  else if decide (x ∈ Config.version_resolver_labels config patch) then Some patch
  else None.
Proof.
  unfold labelToKeyMap, fromEntries, priorityMap_keys. simpl.
  rewrite app_nil_r, !foldl_app, !lookup_foldl_entries, lookup_empty. done.
Qed.

Lemma triggers_Permutation config key l k :
  l ≡ₚ k → triggers config key l ↔ triggers config key k.
Proof.
  intros Hp. unfold triggers. rewrite !Exists_exists.
  by setoid_rewrite Hp.
Qed.

Lemma highest_priority_bump_class_Permutation config l k :
  l ≡ₚ k → highest_priority_bump_class config l = highest_priority_bump_class config k.
Proof.
  intros Hp. unfold highest_priority_bump_class.
  by rewrite (decide_ext _ _ _ _ (triggers_Permutation config major l k Hp)),
    (decide_ext _ _ _ _ (triggers_Permutation config minor l k Hp)),
    (decide_ext _ _ _ _ (triggers_Permutation config patch l k Hp)).
Qed.

Lemma Math_max_own (o : option VersionKey) (keys : list (Property VersionKey)) :
  Forall (λ v, ∃ k, v = Own k) keys →
  foldl (λ acc x,
           match acc, x with
           | NaN, _ => NaN
           | _, None => NaN
           | NegInfinity, Some z => Num z
           | Num a, Some z => Num (Z.max a z)
           end) (accumulated o) (priority_of <$> keys)
  = accumulated (highest_key o keys).
Proof.
  intros Hown. revert o. induction Hown as [|v keys [k ->] _ IH]; intros o.
  - by destruct o as [[]|].
  - cbn [fmap list_fmap foldl priority_of].
    set (o' := match o with
               | None => Some k
               | Some k0 => if decide (priorityMap k0 ≤ priorityMap k)%Z then Some k else Some k0
               end).
    transitivity (accumulated (highest_key o' keys)).
    + rewrite <- IH. f_equal. subst o'. destruct o as [[]|], k; reflexivity.
    + f_equal. subst o'. unfold highest_key.
      destruct o as [[]|], k; simpl;
        repeat case_decide; try done; exfalso;
        repeat match goal with
               | H : _ ∨ _ |- _ => destruct H
               | H : ¬ (_ ∨ _) |- _ => apply Decidable.not_or in H as [??]
               | H : _ ∈ _ :: _ |- _ => apply elem_of_cons in H as [?|?]
               | H : ¬ (_ ∈ _ :: _) |- _ => rewrite elem_of_cons in H
               end; try done; try congruence; tauto.
Qed.

Lemma find_accumulated (o : option VersionKey) :
  find (λ key, strict_equal (Num (priorityMap key)) (accumulated o)) priorityMap_keys = o.
Proof. by destruct o as [[]|]. Qed.

Lemma elem_of_label_keys config changes (v : Property VersionKey) :
  v ∈ label_keys config changes ↔
  Boolean v = true ∧
  ∃ pr label, pr ∈ changes ∧ label ∈ PullRequest.labels pr
              ∧ v = get_property (labelToKeyMap config) label.
Proof.
  unfold label_keys. rewrite elem_of_List_filter, list_elem_of_In, in_flat_map.
  split.
  - intros [Hb (pr & Hpr & Hv)]. split; [done|].
    apply list_elem_of_In, list_elem_of_fmap in Hv as (label & -> & Hl).
    exists pr, label. by rewrite list_elem_of_In.
  - intros [Hb (pr & label & Hpr & Hl & ->)]. split; [done|].
    exists pr. split; [by apply list_elem_of_In|].
    apply list_elem_of_In, list_elem_of_fmap. eauto.
Qed.

Lemma Own_in_label_keys config changes (k : VersionKey) :
  Own k ∈ label_keys config changes ↔
  ∃ pr label, pr ∈ changes ∧ label ∈ PullRequest.labels pr
              ∧ labelToKeyMap config !! label = Some k.
Proof.
  rewrite elem_of_label_keys. split.
  - intros [_ (pr & label & Hpr & Hl & Hv)]. exists pr, label. split_and!; try done.
    unfold get_property in Hv. destruct (labelToKeyMap config !! label); [congruence|].
    by case_decide.
  - intros (pr & label & Hpr & Hl & Hv). split; [done|]. exists pr, label.
    split_and!; try done. unfold get_property. by rewrite Hv.
Qed.

Lemma label_keys_own config changes :
  no_inherited_name config changes →
  Forall (λ v, ∃ k, v = Own k) (label_keys config changes).
Proof.
  intros Hno. apply Forall_forall. intros v [Hb (pr & label & Hpr & Hl & ->)]%elem_of_label_keys.
  unfold get_property in *.
  destruct (labelToKeyMap config !! label) as [k|] eqn:Hk; [by eexists|].
  case_decide as Hin; [|done].
  destruct (Hno pr label Hpr Hl Hin) as [key Hkey].
  rewrite labelToKeyMap_lookup in Hk.
  destruct key; repeat case_decide; done.
Qed.

Lemma triggers_iff config key changes :
  triggers config key changes ↔
  ∃ pr label, pr ∈ changes ∧ label ∈ PullRequest.labels pr
              ∧ label ∈ Config.version_resolver_labels config key.
Proof.
  unfold triggers. rewrite Exists_exists. setoid_rewrite Exists_exists.
  split.
  - intros (pr & Hpr & (label & Hl & Hk)). eauto.
  - intros (pr & label & Hpr & Hl & Hk). eauto.
Qed.

Lemma Own_major_triggers config changes :
  Own major ∈ label_keys config changes ↔ triggers config major changes.
Proof.
  rewrite Own_in_label_keys, triggers_iff. setoid_rewrite labelToKeyMap_lookup.
  split; intros (pr & label & Hpr & Hl & Hk); exists pr, label; split_and!; try done.
  - by destruct (decide (label ∈ Config.version_resolver_labels config major));
      [|repeat case_decide].
  - by rewrite decide_True.
Qed.

Lemma Own_minor_triggers config changes :
  ¬ triggers config major changes →
  Own minor ∈ label_keys config changes ↔ triggers config minor changes.
Proof.
  intros Hmajor.
  rewrite Own_in_label_keys, triggers_iff. setoid_rewrite labelToKeyMap_lookup.
  split; intros (pr & label & Hpr & Hl & Hk); exists pr, label; split_and!; try done.
  - destruct (decide (label ∈ Config.version_resolver_labels config major)); [done|].
    by destruct (decide (label ∈ Config.version_resolver_labels config minor));
      [|repeat case_decide].
  - rewrite decide_False, decide_True; [done..|].
    intros ?. apply Hmajor, triggers_iff. eauto.
Qed.

Lemma Own_patch_triggers config changes :
  ¬ triggers config major changes → ¬ triggers config minor changes →
  Own patch ∈ label_keys config changes ↔ triggers config patch changes.
Proof.
  intros Hmajor Hminor.
  rewrite Own_in_label_keys, triggers_iff. setoid_rewrite labelToKeyMap_lookup.
  split; intros (pr & label & Hpr & Hl & Hk); exists pr, label; split_and!; try done.
  - destruct (decide (label ∈ Config.version_resolver_labels config major)); [done|].
    destruct (decide (label ∈ Config.version_resolver_labels config minor)); [done|].
    by destruct (decide (label ∈ Config.version_resolver_labels config patch)).
  - rewrite decide_False, decide_False, decide_True; [done..| |].
    + intros ?. apply Hminor, triggers_iff. eauto.
    + intros ?. apply Hmajor, triggers_iff. eauto.
Qed.

Lemma highest_key_triggers config changes :
  match highest_key None (label_keys config changes) with
  | Some key => key_name key
  | None => Config.version_resolver_default config
  end = highest_priority_bump_class config changes.
Proof.
  unfold highest_key, highest_priority_bump_class.
  destruct (decide (triggers config major changes)) as [Hmajor|Hmajor].
  { rewrite decide_True; [done|]. right. by apply Own_major_triggers. }
  rewrite decide_False by (intros [?|?%Own_major_triggers]; done).
  destruct (decide (triggers config minor changes)) as [Hminor|Hminor].
  { rewrite decide_True; [done|]. right. by apply Own_minor_triggers. }
  rewrite decide_False by (intros [?|?%Own_minor_triggers]; done).
  destruct (decide (triggers config patch changes)) as [Hpatch|Hpatch].
  { rewrite decide_True; [done|]. right. by apply Own_patch_triggers. }
  by rewrite decide_False by (intros [?|?%Own_patch_triggers]; done).
Qed.

Lemma resolveVersionKeyIncrement_filtered config prs isPreRelease :
  no_inherited_name config (filtered_changes config prs) →
  resolveVersionKeyIncrement prs config isPreRelease =
  (if isPreRelease && truthy (Config.prerelease_identifier config) then "pre" else "")
  +:+ highest_priority_bump_class config (filtered_changes config prs).
Proof.
  intros Hno. unfold resolveVersionKeyIncrement.
  fold (filtered_changes config prs). fold (label_keys config (filtered_changes config prs)).
  unfold Math_max. rewrite (Math_max_own None) by by apply label_keys_own.
  rewrite find_accumulated, highest_key_triggers.
  by destruct (isPreRelease && truthy (Config.prerelease_identifier config)).
Qed.

(** C4, as the code has it.  For changes of which no label (after the
    exclude and include filters) names a property that plain objects
    inherit, [resolveVersionKeyIncrement] gives the highest-priority bump
    class ([major] over [minor] over [patch]) among the trigger labels
    present on the filtered changes, the configured default class when none
    is present; in a pre-release run with a configured identifier the class
    comes with the prefix [pre].  The result is the same for every
    reordering of the changes. *)
Theorem resolveVersionKeyIncrement_spec config prs isPreRelease :
  no_inherited_name config (filtered_changes config prs) →
  resolveVersionKeyIncrement prs config isPreRelease =
  (if isPreRelease && truthy (Config.prerelease_identifier config) then "pre" else "")
  +:+ highest_priority_bump_class config (filtered_changes config prs)
  ∧ ∀ prs', prs ≡ₚ prs' →
            resolveVersionKeyIncrement prs' config isPreRelease =
            resolveVersionKeyIncrement prs config isPreRelease.
Proof.
  intros Hno. split; [by apply resolveVersionKeyIncrement_filtered|].
  intros prs' Hp.
  pose proof (filtered_changes_Permutation config _ _ Hp) as Hf.
  rewrite !resolveVersionKeyIncrement_filtered; try done.
  - f_equal. symmetry. by apply highest_priority_bump_class_Permutation.
  - intros pr label Hpr. apply Hno. by rewrite Hf.
Qed.

Lemma no_inherited_name_sample :
  no_inherited_name Sample.config
    (filtered_changes Sample.config [Sample.fix_change; Sample.breaking_change]).
Proof.
  intros pr label Hpr Hl Hin. vm_compute in Hpr.
  apply elem_of_cons in Hpr as [->|Hpr]; [|apply elem_of_cons in Hpr as [->|Hpr]].
  - apply list_elem_of_singleton in Hl as ->. exists patch. vm_compute. by left.
  - apply list_elem_of_singleton in Hl as ->. exists major. vm_compute. by left.
  - by apply elem_of_nil in Hpr.
Defined.

Lemma resolveVersionKeyIncrement_spec_witness :
  resolveVersionKeyIncrement [Sample.fix_change; Sample.breaking_change] Sample.config false
  = "major"
  ∧ resolveVersionKeyIncrement [Sample.breaking_change; Sample.fix_change] Sample.config false
    = "major".
Proof.
  destruct (resolveVersionKeyIncrement_spec Sample.config
              [Sample.fix_change; Sample.breaking_change] false
              no_inherited_name_sample) as [Hclass Horder].
  split.
  - rewrite Hclass. vm_compute. reflexivity.
  - rewrite (Horder [Sample.breaking_change; Sample.fix_change]) by apply perm_swap.
    rewrite Hclass. vm_compute. reflexivity.
Defined.

(** C4, as stated, fails in a pre-release run with a configured
    identifier: a fix and a breaking change resolve to [premajor], not to
    the class [major]. *)
Lemma resolveVersionKeyIncrement_prefixed :
  resolveVersionKeyIncrement [Sample.fix_change; Sample.breaking_change] Sample.config true
  = "premajor"
  ∧ highest_priority_bump_class Sample.config [Sample.fix_change; Sample.breaking_change]
    = "major"
  ∧ resolveVersionKeyIncrement [Sample.fix_change; Sample.breaking_change] Sample.config true
    ≠ highest_priority_bump_class Sample.config [Sample.fix_change; Sample.breaking_change].
Proof. split_and!; [vm_compute; reflexivity..|vm_compute; discriminate]. Qed.

(** A label that names an inherited property makes the maximum [NaN]: a
    breaking change then resolves to the default class. *)
Lemma resolveVersionKeyIncrement_inherited_name :
  resolveVersionKeyIncrement [Sample.breaking_change; Sample.constructor_change]
    Sample.config false = "patch".
Proof. vm_compute. reflexivity. Qed.

(** ** [categorizePullRequests] *)

Lemma filterUncategorizedPullRequests_keep config b pr :
  (filterUncategorizedPullRequests config b pr).2 = categorizable config pr.
Proof.
  unfold filterUncategorizedPullRequests, categorizable.
  destruct (_ || _); [|done]. by destruct (uncategorizedCategoryIndex config).
Qed.

Lemma filter_st_kept config b l :
  (filter_st (filterUncategorizedPullRequests config) b l).2
  = List.filter (categorizable config) l.
Proof.
  revert b. induction l as [|pr l IH]; intros b; [done|].
  simpl. pose proof (filterUncategorizedPullRequests_keep config b pr) as Hk.
  destruct (filterUncategorizedPullRequests config b pr) as [b1 keep].
  specialize (IH b1). destruct (filter_st _ b1 l) as [b2 kept].
  simpl in *. subst. by destruct (categorizable config pr).
Qed.

(** With no category of empty labels, the categories are left alone and the
    changes without a category label are collected. *)
Lemma filter_st_no_index config b l :
  uncategorizedCategoryIndex config = None →
  (filter_st (filterUncategorizedPullRequests config) b l).1
  = (b.1 ++ List.filter (λ pr, negb (categorizable config pr)) l, b.2).
Proof.
  intros Hidx. revert b. induction l as [|pr l IH]; intros [u cs].
  { simpl. by rewrite app_nil_r. }
  simpl. specialize (IH (filterUncategorizedPullRequests config (u, cs) pr).1).
  unfold filterUncategorizedPullRequests, categorizable in *. rewrite Hidx in *.
  destruct (_ || _); simpl in *;
    destruct (filter_st _ _ l) as [b2 kept]; simpl in *; subst; [|done].
  by rewrite <- app_assoc.
Qed.

(** With a category of empty labels, nothing is collected on the side; the
    categories keep their number and their definitions. *)
Lemma filter_st_index config b l i :
  uncategorizedCategoryIndex config = Some i →
  let b' := (filter_st (filterUncategorizedPullRequests config) b l).1 in
  b'.1 = b.1 ∧ Categorized.category <$> b'.2 = Categorized.category <$> b.2.
Proof.
  intros Hidx. revert b. induction l as [|pr l IH]; intros [u cs]; [done|].
  simpl. specialize (IH (filterUncategorizedPullRequests config (u, cs) pr).1).
  unfold filterUncategorizedPullRequests in *. rewrite Hidx in *.
  destruct (_ || _); simpl in *;
    destruct (filter_st _ _ l) as [b2 kept]; simpl in *; [|done].
  destruct IH as [-> ->]. split; [done|].
  apply list_eq. intros j. rewrite !list_lookup_fmap.
  destruct (decide (i = j)) as [->|Hne].
  - rewrite list_lookup_alter_eq. by destruct (cs !! j).
  - by rewrite list_lookup_alter_ne.
Qed.

Lemma categorize_into_spec (l : list PullRequest.t) (c : Categorized.t) :
  Categorized.category (categorize_into l c) = Categorized.category c
  ∧ Categorized.pullRequests (categorize_into l c)
    = Categorized.pullRequests c
      ++ List.filter (some_label_in (Category.labels (Categorized.category c))) l.
Proof.
  revert c. induction l as [|pr l IH]; intros c.
  { simpl. by rewrite app_nil_r. }
  unfold categorize_into in *. cbn [foldl List.filter].
  destruct (some_label_in _ pr) eqn:Hpr.
  - destruct (IH (Categorized.push pr c)) as [-> ->]. simpl.
    by rewrite <- app_assoc.
  - apply IH.
Qed.

Lemma categorizePullRequests_unfold config prs :
  categorizePullRequests config prs =
  let r := filter_st (filterUncategorizedPullRequests config)
             ([], (λ category, Categorized.mk category []) <$> Config.categories config)
             (filtered_changes config prs) in
  (r.1.1, categorize_into r.2 <$> r.1.2).
Proof.
  unfold categorizePullRequests. fold (filtered_changes config prs).
  by destruct (filter_st _ _ _) as [[??]?].
Qed.

Lemma some_label_in_true names pr :
  some_label_in names pr = true ↔ ∃ label, label ∈ PullRequest.labels pr ∧ label ∈ names.
Proof.
  unfold some_label_in. rewrite existsb_exists.
  setoid_rewrite bool_decide_eq_true. by setoid_rewrite <- list_elem_of_In.
Qed.

Lemma categorizable_of_category config pr category :
  category ∈ Config.categories config →
  some_label_in (Category.labels category) pr = true →
  categorizable config pr = true.
Proof.
  intros Hc (label & Hl & Hin)%some_label_in_true. unfold categorizable.
  apply negb_true_iff, orb_false_iff. split.
  - apply bool_decide_eq_false. destruct (PullRequest.labels pr); [|done].
    by apply elem_of_nil in Hl.
  - apply negb_false_iff, existsb_exists. exists label.
    split; [by apply list_elem_of_In|]. apply bool_decide_eq_true.
    unfold allCategoryLabels. apply elem_of_list_to_set, list_elem_of_In, in_flat_map.
    exists category. by rewrite <- !list_elem_of_In.
Qed.

Lemma filter_st_categories config l :
  Categorized.category
  <$> (filter_st (filterUncategorizedPullRequests config)
         ([], (λ category, Categorized.mk category []) <$> Config.categories config) l).1.2
  = Config.categories config.
Proof.
  destruct (uncategorizedCategoryIndex config) as [i|] eqn:Hidx.
  - destruct (filter_st_index config
                ([], (λ category, Categorized.mk category []) <$> Config.categories config)
                l i Hidx) as [_ ->].
    simpl. rewrite <- list_fmap_compose. apply list_fmap_id.
  - rewrite filter_st_no_index by done. simpl.
    rewrite <- list_fmap_compose. apply list_fmap_id.
Qed.

Lemma categorizePullRequests_members config pullRequests :
  (∀ pr i category,
     pr ∈ pullRequests →
     getFilterExcludedPullRequests (Config.exclude_labels config) pr = true →
     getFilterIncludedPullRequests (Config.include_labels config) pr = true →
     Config.categories config !! i = Some category →
     some_label_in (Category.labels category) pr = true →
     ∃ c, (categorizePullRequests config pullRequests).2 !! i = Some c
          ∧ Categorized.category c = category
          ∧ pr ∈ Categorized.pullRequests c)
  ∧ (∀ c pr,
       c ∈ (categorizePullRequests config pullRequests).2 →
       pr ∈ Categorized.pullRequests c →
       pr ∉ (categorizePullRequests config pullRequests).1).
Proof.
  rewrite categorizePullRequests_unfold. cbn zeta.
  set (init := (λ category, Categorized.mk category []) <$> Config.categories config).
  set (r := filter_st _ _ _).
  assert (r.2 = List.filter (categorizable config) (filtered_changes config pullRequests))
    as Hkept by apply filter_st_kept.
  split.
  - intros pr i category Hpr Hex Hinc Hi Hlabel. cbn [fst snd].
    pose proof (filter_st_categories config (filtered_changes config pullRequests)) as Hcats.
    fold init in Hcats. fold r in Hcats.
    assert (∃ c0, r.1.2 !! i = Some c0 ∧ Categorized.category c0 = category) as (c0 & Hc0 & Hcat).
    { apply (f_equal (λ l, l !! i)) in Hcats. rewrite list_lookup_fmap, Hi in Hcats.
      destruct (r.1.2 !! i) as [c0|]; [|done]. exists c0. split; [done|].
      by injection Hcats. }
    exists (categorize_into r.2 c0).
    destruct (categorize_into_spec r.2 c0) as [Hcategory Hprs].
    split_and!.
    + by rewrite list_lookup_fmap, Hc0.
    + by rewrite Hcategory.
    + rewrite Hprs. apply elem_of_app. right.
      apply elem_of_List_filter. split; [by rewrite Hcat|].
      rewrite Hkept. apply elem_of_List_filter. split.
      * apply (categorizable_of_category config pr category); [|done].
        by apply list_elem_of_lookup_2 in Hi.
      * unfold filtered_changes. by rewrite !elem_of_List_filter.
  - intros c pr Hc Hpr. cbn [fst snd] in *.
    destruct (uncategorizedCategoryIndex config) as [i|] eqn:Hidx.
    + destruct (filter_st_index config ([], init)
                  (filtered_changes config pullRequests) i Hidx) as [Hnil _].
      fold r in Hnil. rewrite Hnil. apply not_elem_of_nil.
    + pose proof (filter_st_no_index config ([], init)
                    (filtered_changes config pullRequests) Hidx) as Hr.
      fold r in Hr. rewrite Hr in *. cbn [fst snd] in *.
      apply list_elem_of_fmap in Hc as (c0 & -> & Hc0).
      apply list_elem_of_fmap in Hc0 as (category & -> & _).
      destruct (categorize_into_spec r.2 (Categorized.mk category [])) as [_ Hprs].
      rewrite Hprs in Hpr. cbn [Categorized.pullRequests Categorized.category app] in Hpr.
      apply elem_of_List_filter in Hpr as [_ Hpr].
      rewrite Hkept in Hpr. apply elem_of_List_filter in Hpr as [Hcat _].
      intros [Hnot _]%elem_of_List_filter.
      by rewrite Hcat in Hnot.
Qed.

(** With a category of empty labels, that category alone receives the
    changes without a category label. *)
Lemma filter_st_index_lookup config b l i j :
  uncategorizedCategoryIndex config = Some i →
  (filter_st (filterUncategorizedPullRequests config) b l).1.2 !! j
  = if decide (j = i)
    then (λ c, Categorized.mk (Categorized.category c)
                 (Categorized.pullRequests c
                  ++ List.filter (λ pr, negb (categorizable config pr)) l))
         <$> b.2 !! j
    else b.2 !! j.
Proof.
  intros Hidx. revert b. induction l as [|pr l IH]; intros [u cs].
  { simpl. case_decide; [|done]. destruct (cs !! j) as [[]|]; [|done].
    simpl. by rewrite app_nil_r. }
  simpl. specialize (IH (filterUncategorizedPullRequests config (u, cs) pr).1).
  unfold filterUncategorizedPullRequests, categorizable in *. rewrite Hidx in *.
  destruct (_ || _); simpl in *;
    destruct (filter_st _ _ l) as [b2 kept]; simpl in *; [|done].
  rewrite IH. case_decide as Hj; [|by rewrite list_lookup_alter_ne].
  subst j. rewrite list_lookup_alter_eq. destruct (cs !! i) as [c|]; [|done].
  simpl. by rewrite <- app_assoc.
Qed.

Lemma findIndex_Some {A} (p : A → bool) (l : list A) (i : nat) :
  findIndex p l = Some i → ∃ x, l !! i = Some x ∧ p x = true.
Proof.
  revert i. induction l as [|x l IH]; intros i; [done|]. simpl.
  destruct (p x) eqn:Hp.
  - intros [= <-]. eauto.
  - destruct (findIndex p l) as [k|]; [|done]. intros [= <-]. by apply IH.
Qed.

Lemma some_label_in_nil pr : some_label_in [] pr = false.
Proof.
  unfold some_label_in. by induction (PullRequest.labels pr) as [|l ls IH].
Qed.

(** C6, as the code has it.  A change that passes the exclude and include
    filters and carries a label of a category is in the list of that
    category, so of every category it carries a label of; no change in the
    list of a category is in the uncategorized bucket; and when a category
    without labels is configured, which then receives the uncategorized
    changes, no change in the list of another category is in its list. *)
Theorem categorizePullRequests_spec config pullRequests :
  (∀ pr i category,
     pr ∈ pullRequests →
     getFilterExcludedPullRequests (Config.exclude_labels config) pr = true →
     getFilterIncludedPullRequests (Config.include_labels config) pr = true →
     Config.categories config !! i = Some category →
     some_label_in (Category.labels category) pr = true →
     ∃ c, (categorizePullRequests config pullRequests).2 !! i = Some c
          ∧ Categorized.category c = category
          ∧ pr ∈ Categorized.pullRequests c)
  ∧ (∀ c pr,
       c ∈ (categorizePullRequests config pullRequests).2 →
       pr ∈ Categorized.pullRequests c →
       pr ∉ (categorizePullRequests config pullRequests).1)
  ∧ (∀ i j c c' pr,
       uncategorizedCategoryIndex config = Some i → j ≠ i →
       (categorizePullRequests config pullRequests).2 !! i = Some c →
       (categorizePullRequests config pullRequests).2 !! j = Some c' →
       pr ∈ Categorized.pullRequests c' →
       pr ∉ Categorized.pullRequests c).
Proof.
  destruct (categorizePullRequests_members config pullRequests) as [H1 H2].
  split_and!; [done..|].
  rewrite categorizePullRequests_unfold. cbn zeta.
  set (init := (λ category, Categorized.mk category []) <$> Config.categories config).
  set (r := filter_st _ _ _).
  assert (r.2 = List.filter (categorizable config) (filtered_changes config pullRequests))
    as Hkept by apply filter_st_kept.
  intros i j c c' pr Hidx Hne Hc Hc' Hpr. cbn [fst snd] in *.
  rewrite list_lookup_fmap in Hc, Hc'.
  pose proof (λ k, filter_st_index_lookup config ([], init)
                     (filtered_changes config pullRequests) i k Hidx) as Hlookup.
  fold r in Hlookup. cbn [fst snd] in Hlookup.
  rewrite Hlookup in Hc, Hc'.
  rewrite decide_True in Hc by done. rewrite decide_False in Hc' by done.
  unfold init in Hc, Hc'. rewrite list_lookup_fmap in Hc, Hc'.
  destruct (findIndex_Some _ _ _ Hidx) as (category & Hcat & Hempty).
  rewrite Hcat in Hc. cbn in Hc. injection Hc as <-.
  destruct (Config.categories config !! j) as [category'|]; [|done].
  cbn in Hc'. injection Hc' as <-.
  destruct (categorize_into_spec r.2 (Categorized.mk category' [])) as [_ Hprs'].
  rewrite Hprs' in Hpr. cbn [Categorized.pullRequests Categorized.category app] in Hpr.
  apply elem_of_List_filter in Hpr as [_ Hpr].
  rewrite Hkept in Hpr. apply elem_of_List_filter in Hpr as [Hyes _].
  match goal with
  | |- _ ∉ Categorized.pullRequests (categorize_into _ ?c0) =>
      destruct (categorize_into_spec r.2 c0) as [_ ->]
  end.
  cbn [Categorized.pullRequests Categorized.category app].
  apply bool_decide_eq_true in Hempty.
  destruct (Category.labels category); [|done].
  intros [Hin|Hin]%elem_of_app.
  - apply elem_of_List_filter in Hin as [Hno _]. by rewrite Hyes in Hno.
  - apply elem_of_List_filter in Hin as [Hno _]. by rewrite some_label_in_nil in Hno.
Qed.

Lemma categorizePullRequests_spec_witness :
  ∃ features fixes,
    (categorizePullRequests Sample.config
       [Sample.plain_change; Sample.feature_fix_change]).2 = [features; fixes]
    ∧ Sample.feature_fix_change ∈ Categorized.pullRequests features
    ∧ Sample.feature_fix_change ∈ Categorized.pullRequests fixes
    ∧ Sample.feature_fix_change
      ∉ (categorizePullRequests Sample.config
           [Sample.plain_change; Sample.feature_fix_change]).1.
Proof.
  destruct (categorizePullRequests_spec Sample.config
              [Sample.plain_change; Sample.feature_fix_change]) as (Hin & Hdisjoint & _).
  destruct (Hin Sample.feature_fix_change 0 (Category.mk "Features" ["feature"] 0))
    as (features & Hfeatures & _ & Hin_features);
    [by right; left | reflexivity..|].
  destruct (Hin Sample.feature_fix_change 1 (Category.mk "Fixes" ["fix"; "bug"] 0))
    as (fixes & Hfixes & _ & Hin_fixes);
    [by right; left | reflexivity..|].
  exists features, fixes. split_and!; try done.
  - vm_compute in Hfeatures, Hfixes. injection Hfeatures as <-. injection Hfixes as <-.
    vm_compute. reflexivity.
  - apply (Hdisjoint features); [|done].
    eapply list_elem_of_lookup_2, Hfeatures.
Defined.

(** C6, as stated, fails for a change that the exclude filter removes: it
    carries labels of both categories and is in the list of neither. *)
Lemma categorizePullRequests_excluded :
  Sample.hidden_change ∈ [Sample.hidden_change]
  ∧ some_label_in ["feature"] Sample.hidden_change = true
  ∧ some_label_in ["fix"; "bug"] Sample.hidden_change = true
  ∧ categorizePullRequests Sample.config [Sample.hidden_change]
    = ([], [ Categorized.mk (Category.mk "Features" ["feature"] 0) [];
             Categorized.mk (Category.mk "Fixes" ["fix"; "bug"] 0) [] ]).
Proof. split_and!; [by left | vm_compute; reflexivity..]. Qed.

(** ** [sortReleases] and [findReleases] *)

Section sorting.
Context {A : Type} (cmp : A → A → Z).

Lemma total_order_on_total l x y :
  total_order_on cmp l → x ∈ l → y ∈ l → before cmp x y ∨ before cmp y x.
Proof.
  intros H Hx Hy. unfold total_order_on in H. rewrite Forall_forall in H.
  specialize (H x Hx). rewrite Forall_forall in H. by destruct (H y Hy).
Qed.

Lemma total_order_on_antisym l x y :
  total_order_on cmp l → x ∈ l → y ∈ l → before cmp x y → before cmp y x → x = y.
Proof.
  intros H Hx Hy. unfold total_order_on in H. rewrite Forall_forall in H.
  specialize (H x Hx). rewrite Forall_forall in H. by destruct (H y Hy) as (_ & ? & _).
Qed.

Lemma total_order_on_trans l x y z :
  total_order_on cmp l → x ∈ l → y ∈ l → z ∈ l → before cmp x y → before cmp y z → before cmp x z.
Proof.
  intros H Hx Hy Hz. unfold total_order_on in H. rewrite Forall_forall in H.
  specialize (H x Hx). rewrite Forall_forall in H. destruct (H y Hy) as (_ & _ & Ht).
  rewrite Forall_forall in Ht. by apply Ht.
Qed.

Lemma total_order_on_Permutation l k :
  l ≡ₚ k → total_order_on cmp l → total_order_on cmp k.
Proof.
  intros Hp H. unfold total_order_on in *. rewrite <- Hp.
  eapply Forall_impl; [exact H|]. intros x Hx. rewrite <- Hp.
  eapply Forall_impl; [exact Hx|]. intros y (? & ? & Hy). by rewrite <- Hp.
Qed.

Lemma sort_insert_Permutation x l : sort_insert cmp x l ≡ₚ x :: l.
Proof.
  induction l as [|y l IH]; [done|]. simpl.
  destruct (0 <? cmp y x)%Z; [done|]. rewrite IH. apply perm_swap.
Qed.

Lemma foldl_sort_insert_Permutation acc l :
  foldl (λ acc x, sort_insert cmp x acc) acc l ≡ₚ acc ++ l.
Proof.
  revert acc. induction l as [|x l IH]; intros acc; simpl.
  - by rewrite app_nil_r.
  - rewrite IH, sort_insert_Permutation. simpl. apply Permutation_middle.
Qed.

Lemma js_sort_Permutation l : js_sort cmp l ≡ₚ l.
Proof. apply (foldl_sort_insert_Permutation []). Qed.

Lemma sort_insert_sorted (s : list A) x l :
  total_order_on cmp s → x ∈ s → (∀ y, y ∈ l → y ∈ s) →
  StronglySorted (before cmp) l → StronglySorted (before cmp) (sort_insert cmp x l).
Proof.
  intros Hs Hx Hl Hsorted. induction Hsorted as [|y l Hsorted IH Hy]; simpl.
  { repeat constructor. }
  assert (y ∈ s) as Hys by (apply Hl; left).
  assert (∀ z, z ∈ l → z ∈ s) as Hls by (intros z Hz; apply Hl; by right).
  destruct (0 <? cmp y x)%Z eqn:Hcmp.
  - apply Z.ltb_lt in Hcmp.
    assert (before cmp x y) as Hxy.
    { destruct (total_order_on_total s x y Hs Hx Hys) as [?|Hyx]; [done|].
      unfold before in Hyx. lia. }
    constructor; [by constructor|].
    constructor; [done|].
    rewrite Forall_forall in Hy |- *. intros z Hz.
    eapply (total_order_on_trans s x y z); eauto.
  - apply Z.ltb_ge in Hcmp. constructor; [by apply IH|].
    rewrite sort_insert_Permutation. by constructor.
Qed.

Lemma foldl_sort_insert_sorted (s : list A) acc l :
  total_order_on cmp s → (∀ y, y ∈ acc → y ∈ s) → (∀ y, y ∈ l → y ∈ s) →
  StronglySorted (before cmp) acc →
  StronglySorted (before cmp) (foldl (λ acc x, sort_insert cmp x acc) acc l).
Proof.
  intros Hs. revert acc. induction l as [|x l IH]; intros acc Hacc Hl Hsorted; [done|].
  simpl. apply IH.
  - intros y. rewrite sort_insert_Permutation.
    intros [->|?]%elem_of_cons; [apply Hl; left | by apply Hacc].
  - intros y Hy. apply Hl. by right.
  - apply (sort_insert_sorted s); [done|apply Hl; left|done..].
Qed.

Lemma js_sort_sorted l : total_order_on cmp l → StronglySorted (before cmp) (js_sort cmp l).
Proof.
  intros Hl. apply (foldl_sort_insert_sorted l); [done| |done|constructor].
  by intros y ?%elem_of_nil.
Qed.

(** On a total order, sorting forgets the order of the input. *)
Lemma js_sort_Permutation_eq l k :
  l ≡ₚ k → total_order_on cmp l → js_sort cmp l = js_sort cmp k.
Proof.
  intros Hp Hl.
  apply (StronglySorted_unique_strong (before cmp)).
  - intros x y Hx Hy. rewrite js_sort_Permutation in Hx.
    rewrite js_sort_Permutation, <- Hp in Hy.
    by apply (total_order_on_antisym l).
  - by apply js_sort_sorted.
  - apply js_sort_sorted. by apply (total_order_on_Permutation l).
  - by rewrite !js_sort_Permutation.
Qed.
End sorting.

Lemma selectedReleases_Permutation rs rs' targetCommitish filterByCommitish tagPrefix :
  rs ≡ₚ rs' →
  selectedReleases rs targetCommitish filterByCommitish tagPrefix
  ≡ₚ selectedReleases rs' targetCommitish filterByCommitish tagPrefix.
Proof.
  intros Hp. unfold selectedReleases.
  destruct filterByCommitish, (truthy tagPrefix);
    repeat apply List_filter_Permutation; done.
Qed.

(** C8.  An empty list of releases gives no baseline release and no draft
    for the change request, as an ordinary result. *)
Theorem findReleases_empty compareVersions targetCommitish filterByCommitish
    includePreReleases tagPrefix prNumber isPrereleaseRun :
  findReleases compareVersions [] targetCommitish filterByCommitish includePreReleases
    tagPrefix prNumber isPrereleaseRun
  = {| Found.prSpecificRelease := None; Found.lastRelease := None |}.
Proof.
  unfold findReleases.
  destruct filterByCommitish, (truthy tagPrefix), isPrereleaseRun; reflexivity.
Qed.

(** C5, as the code has it.  When the comparator of [sortReleases] is a
    total order on the releases that pass the commitish and tag-prefix
    filters (any two comparable, transitive, no two distinct releases
    comparing as equal), [findReleases] selects the same baseline release
    and the same draft for every reordering of the input list. *)
Theorem findReleases_permutation compareVersions rs rs' targetCommitish
    filterByCommitish includePreReleases tagPrefix prNumber isPrereleaseRun :
  rs ≡ₚ rs' →
  total_order_on (compareReleases compareVersions tagPrefix)
    (selectedReleases rs targetCommitish filterByCommitish tagPrefix) →
  findReleases compareVersions rs' targetCommitish filterByCommitish includePreReleases
    tagPrefix prNumber isPrereleaseRun
  = findReleases compareVersions rs targetCommitish filterByCommitish includePreReleases
      tagPrefix prNumber isPrereleaseRun.
Proof.
  intros Hp Hord. unfold findReleases.
  fold (selectedReleases rs targetCommitish filterByCommitish tagPrefix).
  fold (selectedReleases rs' targetCommitish filterByCommitish tagPrefix).
  unfold sortReleases.
  by rewrite (js_sort_Permutation_eq _ _ _
                (selectedReleases_Permutation rs rs' targetCommitish filterByCommitish
                   tagPrefix Hp) Hord).
Qed.

Lemma findReleases_permutation_witness :
  findReleases Reference.compareVersions
    [Sample.draft_beta_3; Sample.v0_9_0; Sample.v1_2_0; Sample.v1_1_0]
    "refs/heads/main" true false "v" (Some 42%N) true
  = {| Found.prSpecificRelease := Some Sample.draft_beta_3;
       Found.lastRelease := Some Sample.v1_2_0 |}.
Proof.
  rewrite (findReleases_permutation Reference.compareVersions
             [Sample.v1_1_0; Sample.v1_2_0; Sample.draft_beta_3; Sample.v0_9_0]).
  - vm_compute. reflexivity.
  - apply (bool_decide_unpack _). vm_compute. exact I.
  - apply (bool_decide_unpack _). vm_compute. exact I.
Defined.

(** C5, as stated, fails when two releases compare as equal: the stable
    sort leaves them in input order, so the last one, which is selected,
    depends on that order.  Here [v1.2] and [v1.2.0] compare as equal, and so
    do two drafts of change request 42 under one tag. *)
Lemma findReleases_order_dependent :
  [Sample.v1_2; Sample.v1_2_0; Sample.draft_beta_3; Sample.draft_beta_3_again]
  ≡ₚ [Sample.draft_beta_3_again; Sample.draft_beta_3; Sample.v1_2_0; Sample.v1_2]
  ∧ findReleases Reference.compareVersions
      [Sample.v1_2; Sample.v1_2_0; Sample.draft_beta_3; Sample.draft_beta_3_again]
      "main" false false "v" (Some 42%N) true
    = {| Found.prSpecificRelease := Some Sample.draft_beta_3_again;
         Found.lastRelease := Some Sample.v1_2_0 |}
  ∧ findReleases Reference.compareVersions
      [Sample.draft_beta_3_again; Sample.draft_beta_3; Sample.v1_2_0; Sample.v1_2]
      "main" false false "v" (Some 42%N) true
    = {| Found.prSpecificRelease := Some Sample.draft_beta_3;
         Found.lastRelease := Some Sample.v1_2 |}.
Proof.
  split_and!; [|vm_compute; reflexivity..].
  apply (bool_decide_unpack _). vm_compute. exact I.
Qed.

(** ** The marker: written by [generateReleaseInfo], read by [findReleases] *)

Lemma parse_digits_string_of_uint (u : Decimal.uint) (acc : N) :
  Str.parse_digits acc (NilEmpty.string_of_uint u)
  = (Pos.of_uint u + acc * 10 ^ DecimalPos.Unsigned.usize u)%N.
Proof.
  revert acc. induction u as [|u IH|u IH|u IH|u IH|u IH|u IH|u IH|u IH|u IH|u IH]; intros acc;
    cbn [NilEmpty.string_of_uint Str.parse_digits Ascii.is_nat Pos.of_uint
         DecimalPos.Unsigned.usize];
    rewrite ?IH, ?DecimalPos.Unsigned.of_uint_acc_rev, <-?DecimalPos.Unsigned.of_uint_alt,
      ?N.pow_succ_r'; [cbn; lia|..]; lia.
Qed.

Lemma parse_digits_of_N (n : N) : Str.parse_digits 0 (Str.of_N n) = n.
Proof.
  unfold Str.of_N. rewrite parse_digits_string_of_uint.
  change (Pos.of_uint (N.to_uint n)) with (N.of_uint (N.to_uint n)).
  rewrite DecimalN.Unsigned.of_to. lia.
Qed.

Lemma of_N_nonempty (n : N) : Str.of_N n ≠ "".
Proof.
  unfold Str.of_N. destruct n as [|p]; [done|]. cbn [N.to_uint].
  pose proof (DecimalPos.Unsigned.to_uint_nonnil p). by destruct (Pos.to_uint p).
Qed.

Lemma span_digits_string_of_uint (u : Decimal.uint) (c : ascii) (rest : string) :
  Str.is_digit c = false →
  span_digits (NilEmpty.string_of_uint u +:+ String c rest)
  = (NilEmpty.string_of_uint u, String c rest).
Proof.
  intros Hc. induction u; cbn [NilEmpty.string_of_uint]; rewrite ?app_String, ?app_empty_l;
    cbn [span_digits]; rewrite ?IHu, ?Hc; done.
Qed.

Lemma span_digits_app (s : string) (c : ascii) (rest : string) :
  Str.is_digit c = false →
  span_digits (s +:+ String c rest)
  = ((span_digits s).1, (span_digits s).2 +:+ String c rest).
Proof.
  intros Hc. induction s as [|d s IH]; rewrite ?app_String, ?app_empty_l; cbn [span_digits].
  - by rewrite Hc.
  - destruct (Str.is_digit d); [|done]. rewrite IH. by destruct (span_digits s).
Qed.

Lemma has_char_app c s t : Str.has_char c (s +:+ t) = Str.has_char c s || Str.has_char c t.
Proof.
  induction s as [|d s IH]; [done|]. rewrite app_String. cbn [Str.has_char].
  by destruct (Ascii.eqb c d).
Qed.

Lemma has_char_here c s : Str.has_char c (String c s) = true.
Proof. cbn [Str.has_char]. by rewrite Ascii.eqb_refl. Qed.

Lemma prefix_app_l p t : String.prefix p (p +:+ t) = true.
Proof.
  induction p as [|c p IH]; [by destruct t|]. rewrite app_String. cbn [String.prefix].
  by destruct (ascii_dec c c).
Qed.

Lemma prefix_slice p s : String.prefix p s = true → s = p +:+ Str.slice (String.length p) s.
Proof.
  revert s. induction p as [|c p IH]; intros s; [done|].
  destruct s as [|d s]; [done|]. cbn [String.prefix String.length Str.slice].
  destruct (ascii_dec c d) as [->|]; [|done]. intros Hp. rewrite app_String. f_equal.
  by apply IH.
Qed.

(** A prefix of [s +:+ t] is a prefix of [s], or runs over the end of [s]
    into [t]. *)
Lemma prefix_app_inv p s t :
  String.prefix p (s +:+ t) = true →
  String.prefix p s = true
  ∨ ∃ c p' t', p = s +:+ String c p' ∧ t = String c t'.
Proof.
  revert s. induction p as [|c p IH]; intros s; [by left; destruct s|].
  destruct s as [|d s].
  - rewrite app_empty_l. destruct t as [|d t']; [done|]. cbn [String.prefix].
    destruct (ascii_dec c d) as [->|]; [|done]. intros _. right. by exists d, p, t'.
  - rewrite app_String. cbn [String.prefix]. destruct (ascii_dec c d) as [->|]; [|done].
    intros [Hp|(c' & p' & t' & -> & ->)]%IH; [by left|]. right. by exists c', p', t'.
Qed.

(** No match of the marker expression starts before a [<] and runs over
    it: the expression has [<] as its first character only. *)
Lemma marker_at_app s t ds :
  s ≠ "" → marker_at (s +:+ String "<" t) = Some ds → marker_at s = Some ds.
Proof.
  intros Hs. unfold marker_at, Str.startsWith.
  destruct (String.prefix marker_open (s +:+ String "<" t)) eqn:Hopen; [|done].
  apply prefix_app_inv in Hopen as [Hopen|(c & p' & t' & Hp' & [= <- <-])].
  - rewrite Hopen. apply prefix_slice in Hopen.
    unfold Str.length.
    remember (Str.slice (String.length marker_open) s) as s1 eqn:Hs1. clear Hs1. subst s.
    rewrite app_assoc_string, !slice_app_length.
    rewrite span_digits_app by done. destruct (span_digits s1) as [ds' r]. cbn [fst snd].
    destruct (bool_decide (ds' ≠ "")); [|done]. cbn [andb].
    destruct (String.prefix marker_close (r +:+ String "<" t)) eqn:Hclose; [|done].
    apply prefix_app_inv in Hclose as [->|(c & p' & t' & Hp' & [= <- <-])]; [done|].
    apply (f_equal (Str.has_char "<")) in Hp'.
    by rewrite has_char_app, has_char_here, orb_true_r in Hp'.
  - destruct s as [|c s]; [done|].
    rewrite app_String in Hp'. injection Hp' as _ Hp'.
    apply (f_equal (Str.has_char "<")) in Hp'.
    by rewrite has_char_app, has_char_here, orb_true_r in Hp'.
Qed.

Lemma marker_at_pr_marker n rest : marker_at (pr_marker n +:+ rest) = Some (Str.of_N n).
Proof.
  unfold marker_at, pr_marker, Str.startsWith, Str.length.
  rewrite !app_assoc_string, prefix_app_l, slice_app_length.
  unfold Str.of_N at 1. change marker_close with (String " " "-->").
  rewrite app_String, span_digits_string_of_uint by reflexivity.
  fold (Str.of_N n). rewrite bool_decide_true by apply of_N_nonempty.
  change (String " " ("-->" +:+ rest)) with (marker_close +:+ rest).
  by rewrite prefix_app_l.
Qed.

(** The leftmost match in a text with no marker, followed by the marker of
    [n], is that marker. *)
Lemma marker_match_pr_marker p n rest :
  marker_match p = None →
  marker_match (p +:+ pr_marker n +:+ rest) = Some (Str.of_N n).
Proof.
  induction p as [|c p IH].
  - intros _. rewrite app_empty_l.
    destruct (pr_marker n +:+ rest) eqn:Heq; cbn [marker_match]; rewrite <-Heq;
      by rewrite marker_at_pr_marker.
  - cbn [marker_match]. destruct (marker_at (String c p)) eqn:Hat; [done|].
    intros Hp. rewrite app_String. cbn [marker_match]. rewrite <-app_String.
    destruct (marker_at (String c p +:+ pr_marker n +:+ rest)) as [ds|] eqn:Hat'; [|by apply IH].
    apply marker_at_app in Hat'; [congruence|done].
Qed.

Lemma matches_pr_marker p n rest r :
  marker_match p = None →
  Release.body r = Some (p +:+ pr_marker n +:+ rest) →
  matches_pr (Some n) r = true.
Proof.
  intros Hp Hbody. unfold matches_pr. rewrite Hbody. cbn [mbind option_bind].
  rewrite marker_match_pr_marker by done. by rewrite parse_digits_of_N, bool_decide_true.
Qed.

(** ** Further properties of [sortReleases] and [findReleases] *)

Lemma sortReleases_perm compareVersions releases tagPrefix :
  sortReleases compareVersions releases tagPrefix ≡ₚ releases.
Proof. apply js_sort_Permutation. Qed.

Lemma sortReleases_ascending compareVersions releases tagPrefix :
  total_order_on (compareReleases compareVersions tagPrefix) releases →
  StronglySorted (before (compareReleases compareVersions tagPrefix))
    (sortReleases compareVersions releases tagPrefix).
Proof. apply js_sort_sorted. Qed.

Lemma List_filter_StronglySorted {A} (R : A → A → Prop) (f : A → bool) (l : list A) :
  StronglySorted R l → StronglySorted R (List.filter f l).
Proof.
  induction 1 as [|x l _ IH Hx]; simpl; [constructor|].
  destruct (f x); [|done]. constructor; [done|].
  rewrite Forall_forall in Hx |- *. intros y [_ Hy]%elem_of_List_filter. by apply Hx.
Qed.

Lemma StronglySorted_last {A} (R : A → A → Prop) (l : list A) (x y : A) :
  StronglySorted R l → last l = Some x → y ∈ l → y = x ∨ R y x.
Proof.
  intros Hs. revert x y. induction Hs as [|z l Hs IH Hz]; intros x y Hlast Hy; [done|].
  destruct l as [|z' l'].
  - injection Hlast as <-. apply list_elem_of_singleton in Hy. by left.
  - change (last (z' :: l') = Some x) in Hlast.
    apply elem_of_cons in Hy as [->|Hy]; [|by apply IH].
    right. rewrite Forall_forall in Hz. apply Hz. by apply last_Some_elem_of.
Qed.

Lemma findReleases_lastRelease compareVersions rs targetCommitish filterByCommitish
    includePreReleases tagPrefix prNumber isPrereleaseRun :
  Found.lastRelease
    (findReleases compareVersions rs targetCommitish filterByCommitish includePreReleases
       tagPrefix prNumber isPrereleaseRun)
  = last (List.filter (qualifies includePreReleases)
            (sortReleases compareVersions
               (selectedReleases rs targetCommitish filterByCommitish tagPrefix) tagPrefix)).
Proof. reflexivity. Qed.

Lemma findReleases_prSpecificRelease compareVersions rs targetCommitish filterByCommitish
    includePreReleases tagPrefix prNumber isPrereleaseRun :
  Found.prSpecificRelease
    (findReleases compareVersions rs targetCommitish filterByCommitish includePreReleases
       tagPrefix prNumber isPrereleaseRun)
  = if isPrereleaseRun
       && bool_decide (0 < length (sortReleases compareVersions
                                     (selectedReleases rs targetCommitish filterByCommitish
                                        tagPrefix) tagPrefix))
    then last (List.filter (matches_pr prNumber)
                 (sortReleases compareVersions
                    (selectedReleases rs targetCommitish filterByCommitish tagPrefix)
                    tagPrefix))
    else None.
Proof. reflexivity. Qed.

Lemma elem_of_selectedReleases rs targetCommitish filterByCommitish tagPrefix r :
  r ∈ selectedReleases rs targetCommitish filterByCommitish tagPrefix ↔
  r ∈ rs
  ∧ (filterByCommitish = true →
     strip_heads targetCommitish = strip_heads (Release.target_commitish r))
  ∧ (tagPrefix ≠ "" → Str.startsWith (Release.tag_name r) tagPrefix = true).
Proof.
  unfold selectedReleases, truthy.
  destruct filterByCommitish; case_bool_decide as Hp;
    rewrite ?elem_of_List_filter, ?bool_decide_eq_true; naive_solver.
Qed.

Lemma qualifies_true includePreReleases r :
  qualifies includePreReleases r = true ↔
  Release.draft r = false ∧ (Release.prerelease r = true → includePreReleases = true).
Proof.
  unfold qualifies. destruct (Release.draft r), (Release.prerelease r), includePreReleases;
    cbn; naive_solver.
Qed.

(** X1.  [sortReleases] returns the releases it was given, each as often as
    it was given: whatever the comparator answers, no release is dropped
    or duplicated.  When the comparator is a total order on them, they
    come in ascending order: every release stands before all the releases
    after it. *)
Theorem sortReleases_sorted compareVersions releases tagPrefix :
  sortReleases compareVersions releases tagPrefix ≡ₚ releases
  ∧ (total_order_on (compareReleases compareVersions tagPrefix) releases →
     StronglySorted (before (compareReleases compareVersions tagPrefix))
       (sortReleases compareVersions releases tagPrefix)).
Proof. split; [apply sortReleases_perm|apply sortReleases_ascending]. Qed.

Lemma sortReleases_sorted_witness :
  sortReleases Reference.compareVersions
    [Sample.v1_2_0; Sample.draft_beta_3; Sample.v0_9_0; Sample.v1_1_0] "v"
  = [Sample.v0_9_0; Sample.v1_1_0; Sample.draft_beta_3; Sample.v1_2_0]
  ∧ StronglySorted (before (compareReleases Reference.compareVersions "v"))
      (sortReleases Reference.compareVersions
         [Sample.v1_2_0; Sample.draft_beta_3; Sample.v0_9_0; Sample.v1_1_0] "v").
Proof.
  split; [vm_compute; reflexivity|].
  apply (proj2 (sortReleases_sorted Reference.compareVersions
                  [Sample.v1_2_0; Sample.draft_beta_3; Sample.v0_9_0; Sample.v1_1_0] "v")).
  apply (bool_decide_unpack _). vm_compute. exact I.
Defined.

(** X2.  The baseline release that [findReleases] selects is one of the
    given releases; it is not a draft; it is a pre-release only when
    pre-releases are included; its tag starts with the tag prefix when one is
    configured; and its target is the target commitish (up to a leading
    [refs/heads/]) when the commitish filter is on. *)
Theorem findReleases_lastRelease_sound compareVersions rs targetCommitish
    filterByCommitish includePreReleases tagPrefix prNumber isPrereleaseRun r :
  Found.lastRelease
    (findReleases compareVersions rs targetCommitish filterByCommitish includePreReleases
       tagPrefix prNumber isPrereleaseRun) = Some r →
  r ∈ rs
  ∧ Release.draft r = false
  ∧ (Release.prerelease r = true → includePreReleases = true)
  ∧ (tagPrefix ≠ "" → Str.startsWith (Release.tag_name r) tagPrefix = true)
  ∧ (filterByCommitish = true →
     strip_heads targetCommitish = strip_heads (Release.target_commitish r)).
Proof.
  rewrite findReleases_lastRelease.
  intros [Hq Hr]%last_Some_elem_of%elem_of_List_filter.
  rewrite sortReleases_perm in Hr.
  apply elem_of_selectedReleases in Hr as (Hin & Hc & Hp).
  apply qualifies_true in Hq as [Hd Hpre]. by split_and!.
Qed.

Lemma findReleases_lastRelease_sound_witness :
  Found.lastRelease
    (findReleases Reference.compareVersions
       [Sample.draft_beta_3; Sample.v1_1_0; Sample.v0_9_0] "main" true false "v" None false)
  = Some Sample.v1_1_0
  ∧ Release.draft Sample.v1_1_0 = false.
Proof.
  assert (Found.lastRelease
            (findReleases Reference.compareVersions
               [Sample.draft_beta_3; Sample.v1_1_0; Sample.v0_9_0] "main" true false "v"
               None false) = Some Sample.v1_1_0) as H by (vm_compute; reflexivity).
  split; [exact H|].
  exact (proj1 (proj2 (findReleases_lastRelease_sound _ _ _ _ _ _ _ _ _ H))).
Defined.

(** X3.  [findReleases] selects a baseline release exactly when some
    release is no draft, is no pre-release unless pre-releases are
    included, has a tag that starts with the tag prefix when one is
    configured, and has the target commitish (up to a leading
    [refs/heads/]) when the commitish filter is on. *)
Theorem findReleases_lastRelease_complete compareVersions rs targetCommitish
    filterByCommitish includePreReleases tagPrefix prNumber isPrereleaseRun :
  is_Some (Found.lastRelease
             (findReleases compareVersions rs targetCommitish filterByCommitish
                includePreReleases tagPrefix prNumber isPrereleaseRun))
  ↔ ∃ r, r ∈ rs
         ∧ Release.draft r = false
         ∧ (Release.prerelease r = true → includePreReleases = true)
         ∧ (tagPrefix ≠ "" → Str.startsWith (Release.tag_name r) tagPrefix = true)
         ∧ (filterByCommitish = true →
            strip_heads targetCommitish = strip_heads (Release.target_commitish r)).
Proof.
  rewrite findReleases_lastRelease. split.
  - intros [r [Hq Hr]%last_Some_elem_of%elem_of_List_filter].
    rewrite sortReleases_perm in Hr.
    apply elem_of_selectedReleases in Hr as (Hin & Hc & Hp).
    apply qualifies_true in Hq as [Hd Hpre]. by exists r.
  - intros (r & Hr & Hd & Hpre & Hp & Hc).
    destruct (last _) as [r'|] eqn:Hlast; [by eexists|].
    apply last_None in Hlast.
    assert (r ∈ List.filter (qualifies includePreReleases)
                  (sortReleases compareVersions
                     (selectedReleases rs targetCommitish filterByCommitish tagPrefix)
                     tagPrefix)) as Hin.
    { apply elem_of_List_filter. split; [by apply qualifies_true|].
      rewrite sortReleases_perm. by apply elem_of_selectedReleases. }
    rewrite Hlast in Hin. by apply elem_of_nil in Hin.
Qed.

(** X4.  When the comparator is a total order on the releases that pass the
    filters, the baseline release is the greatest of those that are neither
    drafts nor excluded pre-releases: each of them stands before it. *)
Theorem findReleases_lastRelease_greatest compareVersions rs targetCommitish
    filterByCommitish includePreReleases tagPrefix prNumber isPrereleaseRun r r' :
  total_order_on (compareReleases compareVersions tagPrefix)
    (selectedReleases rs targetCommitish filterByCommitish tagPrefix) →
  Found.lastRelease
    (findReleases compareVersions rs targetCommitish filterByCommitish includePreReleases
       tagPrefix prNumber isPrereleaseRun) = Some r →
  r' ∈ selectedReleases rs targetCommitish filterByCommitish tagPrefix →
  qualifies includePreReleases r' = true →
  before (compareReleases compareVersions tagPrefix) r' r.
Proof.
  rewrite findReleases_lastRelease. intros Hord Hlast Hr' Hq.
  assert (r' ∈ List.filter (qualifies includePreReleases)
                 (sortReleases compareVersions
                    (selectedReleases rs targetCommitish filterByCommitish tagPrefix)
                    tagPrefix)) as Hin.
  { apply elem_of_List_filter. by rewrite sortReleases_perm. }
  destruct (StronglySorted_last _ _ _ _
              (List_filter_StronglySorted _ (qualifies includePreReleases) _
                 (sortReleases_ascending compareVersions _ tagPrefix Hord)) Hlast Hin)
    as [->|Hbefore]; [|done].
  apply last_Some_elem_of, elem_of_List_filter in Hlast as [_ Hr].
  rewrite sortReleases_perm in Hr.
  by destruct (total_order_on_total _ _ r r Hord Hr Hr).
Qed.

Lemma findReleases_lastRelease_greatest_witness :
  before (compareReleases Reference.compareVersions "v") Sample.v0_9_0 Sample.v1_1_0.
Proof.
  apply (findReleases_lastRelease_greatest Reference.compareVersions
           [Sample.draft_beta_3; Sample.v1_1_0; Sample.v0_9_0] "main" true false "v" None
           false).
  - apply (bool_decide_unpack _). vm_compute. exact I.
  - vm_compute. reflexivity.
  - apply (bool_decide_unpack _). vm_compute. exact I.
  - reflexivity.
Defined.

(** X5.  The draft that [findReleases] selects for a change request is one of
    the releases that pass the filters, and its body carries a marker with
    the number of the change request; none is selected outside a
    pre-release run or when the number is [null]. *)
Theorem findReleases_prSpecificRelease_sound compareVersions rs targetCommitish
    filterByCommitish includePreReleases tagPrefix prNumber isPrereleaseRun :
  (∀ r,
     Found.prSpecificRelease
       (findReleases compareVersions rs targetCommitish filterByCommitish
          includePreReleases tagPrefix prNumber isPrereleaseRun) = Some r →
     isPrereleaseRun = true
     ∧ r ∈ selectedReleases rs targetCommitish filterByCommitish tagPrefix
     ∧ ∃ n body digits,
         prNumber = Some n ∧ Release.body r = Some body
         ∧ marker_match body = Some digits ∧ Str.parse_digits 0 digits = n)
  ∧ (isPrereleaseRun = false ∨ prNumber = None →
     Found.prSpecificRelease
       (findReleases compareVersions rs targetCommitish filterByCommitish
          includePreReleases tagPrefix prNumber isPrereleaseRun) = None).
Proof.
  rewrite findReleases_prSpecificRelease. split.
  - intros r. destruct isPrereleaseRun; [|done]. cbn [andb].
    case_bool_decide; [|done].
    intros [Hm Hr]%last_Some_elem_of%elem_of_List_filter.
    rewrite sortReleases_perm in Hr. split_and!; try done.
    unfold matches_pr in Hm. destruct (Release.body r) as [body|]; [|done].
    cbn in Hm. destruct (marker_match body) as [digits|] eqn:Hd; [|done].
    apply bool_decide_eq_true in Hm. by exists (Str.parse_digits 0 digits), body, digits.
  - intros [->| ->]; [done|].
    destruct (_ && _); [|done].
    destruct (last _) as [r|] eqn:Hlast; [|done].
    apply last_Some_elem_of, elem_of_List_filter in Hlast as [Hm _].
    unfold matches_pr in Hm. destruct (Release.body r ≫= marker_match); [|done].
    by apply bool_decide_eq_true in Hm.
Qed.

Lemma findReleases_prSpecificRelease_sound_witness :
  ∃ body digits,
    Release.body Sample.draft_beta_3 = Some body
    ∧ marker_match body = Some digits ∧ Str.parse_digits 0 digits = 42%N.
Proof.
  destruct (proj1 (findReleases_prSpecificRelease_sound Reference.compareVersions
                     [Sample.draft_beta_3; Sample.v1_1_0] "main" false false "v"
                     (Some 42%N) true) Sample.draft_beta_3)
    as (_ & _ & n & body & digits & Hn & Hbody & Hm & Hp);
    [vm_compute; reflexivity|].
  injection Hn as <-. by exists body, digits.
Defined.

(** X6.  A release that passes the filters and whose body is a text with
    no marker, followed by the marker that [generateReleaseInfo] writes
    for the change request [n], makes the search for [n] in a pre-release
    run succeed: the release found carries a marker with the number [n]. *)
Theorem findReleases_finds_marked compareVersions rs targetCommitish filterByCommitish
    includePreReleases tagPrefix n r text rest :
  r ∈ selectedReleases rs targetCommitish filterByCommitish tagPrefix →
  Release.body r = Some (text +:+ pr_marker n +:+ rest) →
  marker_match text = None →
  ∃ r', Found.prSpecificRelease
          (findReleases compareVersions rs targetCommitish filterByCommitish
             includePreReleases tagPrefix (Some n) true) = Some r'
        ∧ matches_pr (Some n) r' = true.
Proof.
  intros Hr Hbody Htext. rewrite findReleases_prSpecificRelease. cbn [andb].
  assert (r ∈ sortReleases compareVersions
                (selectedReleases rs targetCommitish filterByCommitish tagPrefix) tagPrefix)
    as Hsorted by (by rewrite sortReleases_perm).
  rewrite bool_decide_true.
  2:{ destruct (sortReleases _ _ _); [by apply elem_of_nil in Hsorted|cbn; lia]. }
  assert (r ∈ List.filter (matches_pr (Some n))
                (sortReleases compareVersions
                   (selectedReleases rs targetCommitish filterByCommitish tagPrefix)
                   tagPrefix)) as Hin.
  { apply elem_of_List_filter. split; [|done]. by eapply matches_pr_marker. }
  destruct (last _) as [r'|] eqn:Hlast.
  - exists r'. split; [done|].
    by apply last_Some_elem_of, elem_of_List_filter in Hlast as [? _].
  - apply last_None in Hlast. rewrite Hlast in Hin. by apply elem_of_nil in Hin.
Qed.

Lemma findReleases_finds_marked_witness :
  ∃ r', Found.prSpecificRelease
          (findReleases Reference.compareVersions [Sample.v1_1_0; Sample.draft_beta_3]
             "main" false false "v" (Some 42%N) true) = Some r'
        ∧ matches_pr (Some 42%N) r' = true.
Proof.
  apply (findReleases_finds_marked Reference.compareVersions
           [Sample.v1_1_0; Sample.draft_beta_3] "main" false false "v" 42%N
           Sample.draft_beta_3 ("notes" +:+ Str.LF +:+ Str.LF) Str.LF).
  - apply (bool_decide_unpack _). vm_compute. exact I.
  - vm_compute. reflexivity.
  - vm_compute. reflexivity.
Defined.

(** ** Further properties of [categorizePullRequests] *)

Lemma List_filter_filter_implied {A} (f g : A → bool) (l : list A) :
  (∀ x, x ∈ l → f x = true → g x = true) →
  List.filter f (List.filter g l) = List.filter f l.
Proof.
  induction l as [|x l IH]; intros Himp; [done|]. cbn [List.filter].
  assert (List.filter f (List.filter g l) = List.filter f l) as IH'.
  { apply IH. intros y Hy. apply Himp. by right. }
  destruct (g x) eqn:Hg; cbn [List.filter]; rewrite IH'; [done|].
  destruct (f x) eqn:Hf; [|done]. rewrite Himp in Hg; [done|by left|done].
Qed.

Lemma List_filter_none {A} (f : A → bool) (l : list A) :
  (∀ x, f x = false) → List.filter f l = [].
Proof. intros Hf. induction l as [|x l IH]; [done|]. cbn [List.filter]. by rewrite Hf. Qed.

Lemma List_filter_sublist {A} (f : A → bool) (l : list A) : List.filter f l `sublist_of` l.
Proof.
  induction l as [|x l IH]; [done|]. cbn [List.filter].
  destruct (f x); by constructor.
Qed.

Lemma categorizePullRequests_uncategorized_bucket config pullRequests :
  (categorizePullRequests config pullRequests).1
  = match uncategorizedCategoryIndex config with
    | Some _ => []
    | None => uncategorized_changes config pullRequests
    end.
Proof.
  rewrite categorizePullRequests_unfold. cbn zeta. cbn [fst snd].
  destruct (uncategorizedCategoryIndex config) as [i|] eqn:Hidx.
  - by destruct (filter_st_index config
                   ([], (λ category, Categorized.mk category []) <$> Config.categories config)
                   (filtered_changes config pullRequests) i Hidx) as [-> _].
  - by rewrite filter_st_no_index.
Qed.

Lemma categorize_into_mk (l : list PullRequest.t) category ps :
  categorize_into l (Categorized.mk category ps)
  = Categorized.mk category (ps ++ List.filter (some_label_in (Category.labels category)) l).
Proof.
  destruct (categorize_into_spec l (Categorized.mk category ps)) as [Hc Hp].
  destruct (categorize_into l _) as [c ps']. cbn in Hc, Hp. by rewrite Hc, Hp.
Qed.

Lemma categorizePullRequests_lookup config pullRequests j category :
  Config.categories config !! j = Some category →
  (categorizePullRequests config pullRequests).2 !! j
  = Some (Categorized.mk category
            ((if decide (uncategorizedCategoryIndex config = Some j)
              then uncategorized_changes config pullRequests else [])
             ++ List.filter (some_label_in (Category.labels category))
                  (filtered_changes config pullRequests))).
Proof.
  intros Hj. rewrite categorizePullRequests_unfold. cbn zeta. cbn [fst snd].
  set (init := (λ category, Categorized.mk category []) <$> Config.categories config).
  rewrite list_lookup_fmap, filter_st_kept.
  assert (List.filter (some_label_in (Category.labels category))
            (List.filter (categorizable config) (filtered_changes config pullRequests))
          = List.filter (some_label_in (Category.labels category))
              (filtered_changes config pullRequests)) as Hfilter.
  { apply List_filter_filter_implied. intros pr _.
    apply categorizable_of_category. by eapply list_elem_of_lookup_2. }
  assert (init !! j = Some (Categorized.mk category [])) as Hinit.
  { unfold init. by rewrite list_lookup_fmap, Hj. }
  destruct (uncategorizedCategoryIndex config) as [i|] eqn:Hidx.
  - rewrite (filter_st_index_lookup config ([], init) _ i j Hidx). cbn [fst snd].
    rewrite Hinit. destruct (decide (j = i)) as [->|Hne].
    + rewrite decide_True by done. cbn [fmap option_fmap option_map Categorized.category
                                         Categorized.pullRequests app].
      by rewrite categorize_into_mk, Hfilter.
    + rewrite decide_False by congruence. cbn [fmap option_fmap option_map].
      by rewrite categorize_into_mk, Hfilter.
  - rewrite filter_st_no_index by done. cbn [fst snd]. rewrite Hinit.
    rewrite decide_False by done. cbn [fmap option_fmap option_map].
    by rewrite categorize_into_mk, Hfilter.
Qed.

Lemma categorizePullRequests_length config pullRequests :
  length (categorizePullRequests config pullRequests).2 = length (Config.categories config).
Proof.
  rewrite categorizePullRequests_unfold. cbn zeta. cbn [fst snd].
  rewrite length_fmap.
  rewrite <- (filter_st_categories config (filtered_changes config pullRequests)) at 2.
  by rewrite length_fmap.
Qed.

Lemma categorizable_true config pr :
  categorizable config pr = true ↔
  ∃ category, category ∈ Config.categories config
              ∧ some_label_in (Category.labels category) pr = true.
Proof.
  split; [|intros (category & Hc & Hl); by eapply categorizable_of_category].
  unfold categorizable. intros [_ Hex%negb_false_iff]%negb_true_iff%orb_false_iff.
  apply existsb_exists in Hex as (label & Hl & Hin%bool_decide_eq_true).
  unfold allCategoryLabels in Hin.
  apply elem_of_list_to_set, list_elem_of_In, in_flat_map in Hin as (category & Hc & Hlc).
  exists category. split; [by apply list_elem_of_In|].
  apply some_label_in_true. exists label. by rewrite !list_elem_of_In.
Qed.

(** X7.  No change that passes the exclude and include filters is lost:
    it is in the uncategorized bucket or in the list of at least one
    category. *)
Theorem categorizePullRequests_nothing_lost config pullRequests pr :
  pr ∈ filtered_changes config pullRequests →
  pr ∈ (categorizePullRequests config pullRequests).1
  ∨ ∃ c, c ∈ (categorizePullRequests config pullRequests).2
         ∧ pr ∈ Categorized.pullRequests c.
Proof.
  intros Hpr. destruct (categorizable config pr) eqn:Hcat.
  - right. apply categorizable_true in Hcat as (category & Hc & Hl).
    apply list_elem_of_lookup_1 in Hc as [j Hj].
    eexists. split.
    + eapply list_elem_of_lookup_2. by apply categorizePullRequests_lookup.
    + cbn [Categorized.pullRequests]. apply elem_of_app. right.
      by apply elem_of_List_filter.
  - assert (pr ∈ uncategorized_changes config pullRequests) as Hun.
    { apply elem_of_List_filter. by rewrite Hcat. }
    rewrite categorizePullRequests_uncategorized_bucket.
    destruct (uncategorizedCategoryIndex config) as [i|] eqn:Hidx; [|by left].
    right. destruct (findIndex_Some _ _ _ Hidx) as (category & Hi & _).
    eexists. split.
    + eapply list_elem_of_lookup_2. by apply categorizePullRequests_lookup.
    + cbn [Categorized.pullRequests]. rewrite Hidx, decide_True by done.
      apply elem_of_app. by left.
Qed.

Lemma categorizePullRequests_nothing_lost_witness :
  Sample.plain_change
  ∈ (categorizePullRequests Sample.config
       [Sample.plain_change; Sample.feature_fix_change]).1
  ∨ ∃ c, c ∈ (categorizePullRequests Sample.config
                [Sample.plain_change; Sample.feature_fix_change]).2
         ∧ Sample.plain_change ∈ Categorized.pullRequests c.
Proof.
  apply categorizePullRequests_nothing_lost.
  apply (bool_decide_unpack _). vm_compute. exact I.
Defined.

(** X8.  The uncategorized bucket holds the filtered changes without a
    label of any category, in the order of the input, unless a category
    without labels is configured, which then receives them and leaves the
    bucket empty.  The result lists the configured categories, each once and
    in the configured order; the list of a category holds exactly the
    filtered changes that carry one of its labels, in the order of the
    input (after the uncategorized changes, for the first category without
    labels). *)
Theorem categorizePullRequests_exact config pullRequests :
  categorizePullRequests config pullRequests
  = (match uncategorizedCategoryIndex config with
     | Some _ => []
     | None => uncategorized_changes config pullRequests
     end,
     imap (λ j category,
             Categorized.mk category
               ((if decide (uncategorizedCategoryIndex config = Some j)
                 then uncategorized_changes config pullRequests else [])
                ++ List.filter (some_label_in (Category.labels category))
                     (filtered_changes config pullRequests)))
       (Config.categories config)).
Proof.
  rewrite (surjective_pairing (categorizePullRequests config pullRequests)).
  f_equal; [apply categorizePullRequests_uncategorized_bucket|].
  apply list_eq. intros j. rewrite list_lookup_imap.
  destruct (Config.categories config !! j) as [category|] eqn:Hj.
  - by apply categorizePullRequests_lookup.
  - apply lookup_ge_None. rewrite categorizePullRequests_length. by apply lookup_ge_None.
Qed.

(** X9.  Nothing is invented or reordered: the uncategorized bucket and
    the list of every category are sublists of the changes that pass the
    exclude and include filters, which are a sublist of the input.  So they
    hold changes of the input only, in the order of the input, none more
    often than the input does. *)
Theorem categorizePullRequests_sublists config pullRequests :
  (categorizePullRequests config pullRequests).1
    `sublist_of` filtered_changes config pullRequests
  ∧ (∀ c, c ∈ (categorizePullRequests config pullRequests).2 →
          Categorized.pullRequests c `sublist_of` filtered_changes config pullRequests)
  ∧ filtered_changes config pullRequests `sublist_of` pullRequests.
Proof.
  split_and!.
  - rewrite categorizePullRequests_uncategorized_bucket.
    destruct (uncategorizedCategoryIndex config); [apply sublist_nil_l|].
    apply List_filter_sublist.
  - intros c Hc.
    apply list_elem_of_lookup_1 in Hc as [j Hj].
    destruct (Config.categories config !! j) as [category|] eqn:Hcat.
    2:{ apply lookup_ge_None in Hcat. apply lookup_lt_Some in Hj.
        rewrite categorizePullRequests_length in Hj. lia. }
    rewrite (categorizePullRequests_lookup _ _ _ _ Hcat) in Hj.
    injection Hj as <-. cbn [Categorized.pullRequests].
    case_decide as Hidx; [|apply List_filter_sublist].
    destruct (findIndex_Some _ _ _ Hidx) as (category' & Hi & Hempty).
    rewrite Hcat in Hi. injection Hi as <-. apply bool_decide_eq_true in Hempty.
    destruct (Category.labels category); [|done].
    rewrite List_filter_none by (intros; apply some_label_in_nil).
    rewrite app_nil_r. apply List_filter_sublist.
  - unfold filtered_changes. etrans; apply List_filter_sublist.
Qed.

(** ** Further properties of [generateChangeLog] *)

Lemma categories_pieces_empty template config (cs : list Categorized.t) :
  Forall (λ c, Categorized.pullRequests c = []) cs →
  categories_pieces template config cs = [].
Proof.
  induction 1 as [|c cs Hc _ IH]; [done|]. cbn [categories_pieces].
  unfold category_pieces. rewrite Hc. cbn. rewrite IH. by destruct cs.
Qed.

(** X10.  When changes are given but none passes the exclude and include
    filters, the change log is the empty string: the no-changes template
    is used for an empty input only. *)
Theorem generateChangeLog_all_filtered template config mergedPullRequests :
  mergedPullRequests ≠ [] →
  filtered_changes config mergedPullRequests = [] →
  generateChangeLog template config mergedPullRequests = "".
Proof.
  intros Hne Hnone. unfold generateChangeLog.
  rewrite bool_decide_false by (by destruct mergedPullRequests).
  rewrite categorizePullRequests_exact. unfold uncategorized_changes. rewrite Hnone.
  cbn [List.filter app].
  replace (match uncategorizedCategoryIndex config with Some _ => [] | None => [] end)
    with (@nil PullRequest.t) by (by destruct (uncategorizedCategoryIndex config)).
  rewrite bool_decide_false by (cbn; lia). cbn [app].
  rewrite categories_pieces_empty; [done|].
  apply Forall_forall. intros c [j Hj]%list_elem_of_lookup_1.
  rewrite list_lookup_imap in Hj.
  destruct (Config.categories config !! j); [|done]. injection Hj as <-.
  cbn [Categorized.pullRequests]. by case_decide.
Qed.

Lemma generateChangeLog_all_filtered_witness :
  generateChangeLog Reference.template Sample.config [Sample.hidden_change] = ""
  ∧ Config.no_changes_template Sample.config = "No changes".
Proof.
  split; [|reflexivity].
  apply generateChangeLog_all_filtered; [done | vm_compute; reflexivity].
Defined.

(** ** [contributorsSentence] *)

Lemma ascii_compare_N (a b : ascii) :
  Ascii.compare a b = N.compare (N_of_ascii a) (N_of_ascii b).
Proof. reflexivity. Qed.

Lemma string_compare_trans (x y z : string) :
  String.compare x y ≠ Gt → String.compare y z ≠ Gt → String.compare x z ≠ Gt.
Proof.
  revert y z. induction x as [|a x IH]; intros [|b y] [|c z]; cbn [String.compare]; try done.
  rewrite !ascii_compare_N.
  destruct (N.compare_spec (N_of_ascii a) (N_of_ascii b)) as [Hab|Hab|Hab];
    destruct (N.compare_spec (N_of_ascii b) (N_of_ascii c)) as [Hbc|Hbc|Hbc];
    destruct (N.compare_spec (N_of_ascii a) (N_of_ascii c)) as [Hac|Hac|Hac];
    try done; try lia.
  apply IH.
Qed.

Lemma before_compare_strings (x y : string) :
  before compare_strings x y ↔ String.compare x y ≠ Gt.
Proof. unfold before, compare_strings. destruct (String.compare x y); split; (done || lia). Qed.

Lemma compare_strings_total_order (l : list string) : total_order_on compare_strings l.
Proof.
  unfold total_order_on. apply Forall_forall. intros x _. apply Forall_forall. intros y _.
  rewrite !before_compare_strings. split_and!.
  - rewrite (String.compare_antisym y x). destruct (String.compare x y); simpl; auto.
  - rewrite (String.compare_antisym y x).
    destruct (String.compare x y) eqn:Hxy; simpl; try done.
    intros _ _. by apply String.compare_eq_iff.
  - apply Forall_forall. intros z _. rewrite !before_compare_strings.
    apply string_compare_trans.
Qed.

Lemma set_add_NoDup x s : NoDup s → NoDup (set_add x s).
Proof.
  intros Hs. unfold set_add. case_decide as Hin; [done|].
  apply NoDup_app. split_and!; [done| |apply NoDup_singleton].
  intros y Hy ->%list_elem_of_singleton. done.
Qed.

Lemma elem_of_set_add x y s : y ∈ set_add x s ↔ y = x ∨ y ∈ s.
Proof.
  unfold set_add. case_decide as Hin.
  - split; [auto|]. by intros [->|].
  - rewrite elem_of_app, list_elem_of_singleton. tauto.
Qed.

(** Adding the names of a list of items to a set of contributors. *)
Lemma foldl_contributors {A} (name : A → option string) (step : list string → A → list string)
    (items : list A) (s : list string) :
  (∀ s x, step s x = match name x with Some n => set_add n s | None => s end) →
  NoDup s →
  NoDup (foldl step s items)
  ∧ ∀ n, n ∈ foldl step s items ↔ n ∈ s ∨ ∃ x, x ∈ items ∧ name x = Some n.
Proof.
  intros Hstep. revert s. induction items as [|x items IH]; intros s Hs; cbn [foldl].
  - split; [done|]. intros n. split; [auto|]. intros [|(x & []%elem_of_nil & _)]; done.
  - assert (NoDup (step s x)) as Hs'.
    { rewrite Hstep. destruct (name x); [by apply set_add_NoDup|done]. }
    destruct (IH _ Hs') as [Hnodup Hmem]. split; [done|].
    intros n. rewrite Hmem, Hstep. split.
    + intros [Hn|(y & Hy & Hname)].
      * destruct (name x) as [m|] eqn:Hx; [|by left].
        apply elem_of_set_add in Hn as [->|Hn]; [|by left].
        right. exists x. split; [by left|done].
      * right. exists y. split; [by right|done].
    + intros [Hn|(y & [->|Hy]%elem_of_cons & Hname)].
      * left. destruct (name x); [|done]. apply elem_of_set_add. by right.
      * left. rewrite Hname. apply elem_of_set_add. by left.
      * right. by exists y.
Qed.

Lemma StronglySorted_strict (l : list string) :
  StronglySorted (before compare_strings) l → NoDup l →
  StronglySorted (λ x y, String.compare x y = Lt) l.
Proof.
  induction 1 as [|x l _ IH Hx]; intros Hnodup; [constructor|].
  apply NoDup_cons in Hnodup as [Hnotin Hnodup]. constructor; [by apply IH|].
  rewrite Forall_forall in Hx |- *. intros y Hy.
  specialize (Hx y Hy). apply before_compare_strings in Hx.
  destruct (String.compare x y) eqn:Hxy; try done.
  apply String.compare_eq_iff in Hxy as ->. done.
Qed.

(** X11.  The sentence names the contributors in strictly ascending order
    of their code units, so each one once: the last one after [ and ], the
    others separated by commas; a single contributor alone; the
    no-contributors template when there is none.  The contributors are the
    commit authors (by [@]login, or by name when the author is no user) and
    the authors of the changes (by [@]login, bots as a link), except the
    logins listed in [exclude-contributors]. *)
Theorem contributorsSentence_names config commits pullRequests :
  ∃ names : list string,
    contributorsSentence config commits pullRequests
    = match reverse names with
      | [] => Config.no_contributors_template config
      | [x] => x
      | lst :: rest => join ", " (reverse rest) +:+ " and " +:+ lst
      end
    ∧ StronglySorted (λ x y, String.compare x y = Lt) names
    ∧ ∀ n, n ∈ names ↔
           (∃ commit, commit ∈ commits ∧ commit_contributor config commit = Some n)
           ∨ (∃ pullRequest, pullRequest ∈ pullRequests
                             ∧ pull_contributor config pullRequest = Some n).
Proof.
  unfold contributorsSentence.
  set (step1 := λ (contributors : list string) (commit : Commit.t), _).
  set (step2 := λ (contributors : list string) (pullRequest : PullRequest.t), _).
  destruct (foldl_contributors (commit_contributor config) step1 commits [])
    as [Hnodup1 Hmem1]; [|constructor|].
  { intros s c. unfold step1, commit_contributor.
    destruct (Commit.author_user c); [|done]. by case_decide. }
  destruct (foldl_contributors (pull_contributor config) step2 pullRequests
              (foldl step1 [] commits)) as [Hnodup2 Hmem2]; [|done|].
  { intros s pr. unfold step2, pull_contributor.
    destruct (PullRequest.author pr); [|done]. by repeat case_decide. }
  exists (js_sort compare_strings (foldl step2 (foldl step1 [] commits) pullRequests)).
  split_and!; [done| |].
  - apply StronglySorted_strict.
    + apply js_sort_sorted, compare_strings_total_order.
    + by rewrite js_sort_Permutation.
  - intros n. rewrite js_sort_Permutation, Hmem2, Hmem1.
    split; [|tauto]. intros [[[]%elem_of_nil|]|]; auto.
Qed.

(** X12.  With no commit and every author of a change excluded (or
    missing), the sentence is the no-contributors template. *)
Theorem contributorsSentence_none config pullRequests :
  (∀ pullRequest, pullRequest ∈ pullRequests →
                  pull_contributor config pullRequest = None) →
  contributorsSentence config [] pullRequests = Config.no_contributors_template config.
Proof.
  intros Hnone. unfold contributorsSentence. cbn [foldl].
  set (step := λ (contributors : list string) (pullRequest : PullRequest.t), _).
  assert (foldl step [] pullRequests = []) as ->; [|done].
  induction pullRequests as [|pr prs IH]; [done|]. cbn [foldl].
  assert (step [] pr = []) as ->.
  { specialize (Hnone pr (list_elem_of_here _ _)). unfold step, pull_contributor in *.
    destruct (PullRequest.author pr); [|done]. by repeat case_decide. }
  apply IH. intros pr' Hpr'. apply Hnone. by right.
Qed.

Lemma contributorsSentence_none_witness :
  contributorsSentence Sample.config [] [Scenario.ghost_change] = "No contributors".
Proof.
  apply (contributorsSentence_none Sample.config [Scenario.ghost_change]).
  intros pullRequest Hin. apply list_elem_of_singleton in Hin. subst pullRequest. reflexivity.
Defined.

(** ** Further properties of [resolveVersionKeyIncrement] and [escapeTitle] *)

Lemma Math_max_undefined (xs : list (option Z)) : None ∈ xs → Math_max xs = NaN.
Proof.
  unfold Math_max. generalize NegInfinity.
  induction xs as [|x xs IH]; intros acc Hin; [by apply elem_of_nil in Hin|].
  cbn [foldl]. apply elem_of_cons in Hin as [<-|Hin]; [|by apply IH].
  replace (match acc with NaN => NaN | _ => NaN end) with NaN by (by destruct acc).
  clear. induction xs as [|x xs IH]; [done|]. apply IH.
Qed.

(** X13.  A filtered change with a label that names a property every plain
    object inherits ([constructor], [toString], ...), and that is no trigger
    label, makes the maximum of the priorities [NaN]: the result is the
    configured default class, whatever trigger labels the changes carry. *)
Theorem resolveVersionKeyIncrement_inherited config prs isPreRelease pr label :
  pr ∈ filtered_changes config prs →
  label ∈ PullRequest.labels pr →
  label ∈ Object_prototype_properties →
  (∀ key, label ∉ Config.version_resolver_labels config key) →
  resolveVersionKeyIncrement prs config isPreRelease =
  (if isPreRelease && truthy (Config.prerelease_identifier config) then "pre" else "")
  +:+ Config.version_resolver_default config.
Proof.
  intros Hpr Hl Hin Hno. unfold resolveVersionKeyIncrement.
  fold (filtered_changes config prs). fold (label_keys config (filtered_changes config prs)).
  rewrite Math_max_undefined.
  - cbn [find priorityMap_keys strict_equal].
    by destruct (isPreRelease && truthy (Config.prerelease_identifier config)).
  - apply list_elem_of_fmap. exists Inherited. split; [done|].
    apply elem_of_label_keys. split; [done|]. exists pr, label. split_and!; try done.
    unfold get_property. rewrite labelToKeyMap_lookup.
    rewrite !decide_False by apply Hno. by rewrite decide_True.
Qed.

Lemma resolveVersionKeyIncrement_inherited_witness :
  resolveVersionKeyIncrement [Sample.breaking_change; Sample.constructor_change]
    Sample.config false = "patch".
Proof.
  apply (resolveVersionKeyIncrement_inherited Sample.config
           [Sample.breaking_change; Sample.constructor_change] false
           Sample.constructor_change "constructor").
  - apply (bool_decide_unpack _). vm_compute. exact I.
  - by left.
  - by left.
  - intros []; apply (bool_decide_unpack _); vm_compute; exact I.
Defined.

Lemma span_end_length s k : span_end s = Some k → k < String.length s.
Proof.
  revert k. induction s as [|c s IH]; intros k; [done|]. cbn [span_end String.length].
  destruct (Ascii.eqb c backtick); [intros [= <-]; lia|].
  destruct (Str.is_line_terminator c); [done|].
  destruct (span_end s) as [k'|]; [|done]. intros [= <-]. specialize (IH k' eq_refl). lia.
Qed.

Lemma take_slice n s : Str.take n s +:+ Str.slice n s = s.
Proof.
  revert s. induction n as [|n IH]; intros [|c s]; try done.
  cbn [Str.take Str.slice]. by rewrite app_String, IH.
Qed.

Lemma length_take n s : n ≤ String.length s → String.length (Str.take n s) = n.
Proof.
  revert s. induction n as [|n IH]; intros [|c s]; cbn [Str.take String.length]; try lia.
  intros Hn. rewrite IH; lia.
Qed.

(** X14.  With an empty escape set, a title is rendered as it is: a code
    span is matched and copied, nothing else is matched. *)
Theorem escapeTitle_no_escapes (title : string) : escapeTitle "" title = title.
Proof.
  unfold escapeTitle.
  remember (String.length title) as n eqn:Hn. revert title Hn.
  induction (lt_wf n) as [n _ IH]. intros [|c s] Hn.
  { by simp replace_all. }
  rewrite replace_all_step.
  cbn [title_regex Str.has_char].
  destruct (Ascii.eqb c backtick) eqn:Hc.
  - destruct (span_end s) as [k|] eqn:Hspan; cbn [fmap option_fmap option_map].
    + apply span_end_length in Hspan.
      replace (k + 2) with (S (S k)) by lia.
      rewrite escape_match_span.
      2:{ cbn [String.length]. rewrite length_take by lia. lia. }
      rewrite app_String. f_equal.
      rewrite (IH (String.length (Str.slice (S k) s))); [apply take_slice| |done].
      subst n. cbn [String.length]. pose proof (Str.length_slice_le (S k) s). lia.
    + f_equal. apply (IH (String.length s)); [subst n; cbn; lia|done].
  - f_equal. apply (IH (String.length s)); [subst n; cbn; lia|done].
Qed.

(** ** The requests: [updateDraftReleaseParameters], [createRelease] and
    [updateRelease] *)

Lemma delete_if_falsy_lookup name object k :
  delete_if_falsy name object !! k
  = if decide (k = name)
    then (if ToBoolean (property object name) then object !! k else None)
    else object !! k.
Proof.
  unfold delete_if_falsy. destruct (ToBoolean (property object name)); cbn [negb].
  - by case_decide.
  - case_decide as Hk; [subst; apply lookup_delete_eq|by apply lookup_delete_ne].
Qed.

Lemma delete_if_falsy_property name object k :
  k ≠ name → property (delete_if_falsy name object) k = property object k.
Proof. intros Hk. unfold property. by rewrite delete_if_falsy_lookup, decide_False. Qed.

Lemma updateDraftReleaseParameters_lookup parameters k :
  updateDraftReleaseParameters parameters !! k
  = if bool_decide (k ∈ ["name"; "tag_name"; "target_commitish"])
       && negb (ToBoolean (property parameters k))
    then None else parameters !! k.
Proof.
  unfold updateDraftReleaseParameters. rewrite !delete_if_falsy_lookup.
  rewrite !delete_if_falsy_property by done.
  destruct (decide (k = "target_commitish")) as [->|H3].
  { rewrite bool_decide_true by (by do 2 right; left).
    rewrite decide_False, decide_False by done.
    by destruct (ToBoolean (property parameters "target_commitish")). }
  destruct (decide (k = "tag_name")) as [->|H2].
  { rewrite bool_decide_true by (by right; left). rewrite decide_False by done.
    by destruct (ToBoolean (property parameters "tag_name")). }
  destruct (decide (k = "name")) as [->|H1].
  { rewrite bool_decide_true by (by left).
    by destruct (ToBoolean (property parameters "name")). }
  rewrite bool_decide_false; [done|].
  intros Hk. repeat (apply elem_of_cons in Hk as [?|Hk]; [done|]). by apply elem_of_nil in Hk.
Qed.

(** X21.  [updateDraftReleaseParameters] drops the properties [name],
    [tag_name] and [target_commitish] that are falsy (missing, [undefined],
    [null] or the empty string) and keeps every other property as it is;
    applying it twice is applying it once. *)
Theorem updateDraftReleaseParameters_spec parameters :
  (∀ k, updateDraftReleaseParameters parameters !! k
        = if bool_decide (k ∈ ["name"; "tag_name"; "target_commitish"])
             && negb (ToBoolean (property parameters k))
          then None else parameters !! k)
  ∧ updateDraftReleaseParameters (updateDraftReleaseParameters parameters)
    = updateDraftReleaseParameters parameters.
Proof.
  split; [apply updateDraftReleaseParameters_lookup|].
  apply map_eq. intros k. rewrite !updateDraftReleaseParameters_lookup.
  unfold property. rewrite updateDraftReleaseParameters_lookup.
  destruct (bool_decide (k ∈ ["name"; "tag_name"; "target_commitish"])); [|done].
  cbn [andb]. unfold property.
  destruct (ToBoolean (default VUndefined (parameters !! k))) eqn:Hk; cbn [negb]; [|done].
  by rewrite Hk.
Qed.

Lemma lookup_string_value_sent parameters k s :
  k ∈ ["name"; "tag_name"; "target_commitish"] →
  parameters !! k = Some (string_value s) →
  updateDraftReleaseParameters parameters !! k = sent s.
Proof.
  intros Hk Hs. rewrite updateDraftReleaseParameters_lookup, bool_decide_true by done.
  unfold property. rewrite Hs.
  destruct s as [s|]; [|done]. cbn -[truthy].
  by destruct (truthy s).
Qed.

(** X22.  The request of [updateRelease] for an existing release names
    the release by its identifier and carries the body of the descriptor.
    It carries the name and the tag of the descriptor, those of the
    existing release when the descriptor has none, and neither property
    when both are empty; it carries the target commitish of the descriptor
    unless it is empty, so that GitHub keeps the existing one. *)
Theorem updateRelease_request release releaseInfo :
  ∃ request,
    updateRelease (Some release) releaseInfo = Ok (UpdateRelease request)
    ∧ request !! "release_id" = Some (VNumber (Release.id release))
    ∧ request !! "body" = Some (VString (ReleaseInfo.body releaseInfo))
    ∧ request !! "name"
      = sent (or_string (ReleaseInfo.name releaseInfo) (Release.name release))
    ∧ request !! "tag_name"
      = sent (or_string (ReleaseInfo.tag releaseInfo) (Some (Release.tag_name release)))
    ∧ request !! "target_commitish" = sent (Some (ReleaseInfo.targetCommitish releaseInfo)).
Proof.
  eexists. split; [reflexivity|].
  split_and!.
  - apply lookup_union_Some_raw. right. split; [|done].
    by rewrite updateDraftReleaseParameters_lookup.
  - apply lookup_union_Some_raw. right. split; [|done].
    by rewrite updateDraftReleaseParameters_lookup.
  - rewrite lookup_union_l by done.
    apply lookup_string_value_sent; [by left|done].
  - rewrite lookup_union_l by done.
    apply lookup_string_value_sent; [by right; left|done].
  - rewrite lookup_union_l by done.
    by apply (lookup_string_value_sent _ _ (Some _)); [do 2 right; left|].
Qed.

(** ** [setActionOutput] *)

Lemma elem_of_setOutput_if_truthy name value k v :
  (k, v) ∈ setOutput_if_truthy name value ↔ k = name ∧ v = value ∧ ToBoolean value = true.
Proof.
  unfold setOutput_if_truthy. destruct (ToBoolean value).
  - rewrite list_elem_of_singleton. naive_solver.
  - split; [by intros ?%elem_of_nil|]. by intros (_ & _ & ?).
Qed.

(** X23.  [setActionOutput] sets the output [major_version] only for a
    major version other than [0], and likewise [minor_version] and
    [patch_version]: a component that is [0] is not output.  The output
    [body] is always set, and set last. *)
Theorem setActionOutput_versions releaseResponse releaseInfo :
  (∀ v, ("major_version", v) ∈ setActionOutput releaseResponse releaseInfo ↔
        ∃ n, ReleaseInfo.majorVersion releaseInfo = Some n ∧ n ≠ 0%N ∧ v = VNumber n)
  ∧ (∀ v, ("minor_version", v) ∈ setActionOutput releaseResponse releaseInfo ↔
          ∃ n, ReleaseInfo.minorVersion releaseInfo = Some n ∧ n ≠ 0%N ∧ v = VNumber n)
  ∧ (∀ v, ("patch_version", v) ∈ setActionOutput releaseResponse releaseInfo ↔
          ∃ n, ReleaseInfo.patchVersion releaseInfo = Some n ∧ n ≠ 0%N ∧ v = VNumber n)
  ∧ last (setActionOutput releaseResponse releaseInfo)
    = Some ("body", VString (ReleaseInfo.body releaseInfo)).
Proof.
  assert (∀ o : option N, ∀ v,
            (v = number_value o ∧ ToBoolean (number_value o) = true)
            ↔ ∃ n, o = Some n ∧ n ≠ 0%N ∧ v = VNumber n) as Hnum.
  { intros [n|] v; cbn [number_value ToBoolean]; rewrite ?bool_decide_eq_true; naive_solver. }
  unfold setActionOutput.
  split_and!.
  4:{ rewrite !app_assoc. apply last_snoc. }
  all: intros v; rewrite <- Hnum, !elem_of_app, !elem_of_setOutput_if_truthy,
         list_elem_of_singleton.
  all: split; [|intros []; tauto].
  all: intros [Hid|Hrest];
         [destruct (ReleaseResponse.id releaseResponse); try (by apply elem_of_nil in Hid);
          destruct (ToBoolean _);
          [by apply list_elem_of_singleton in Hid|by apply elem_of_nil in Hid]|].
  all: naive_solver.
Qed.

(** ** [getInput] and [updateConfigFromInput] *)

Lemma or_undefined_truthy s : or_undefined s ≠ Some "".
Proof. unfold or_undefined, truthy. case_bool_decide; congruence. Qed.

Lemma or_string_None_nonempty a : or_string a None ≠ Some "".
Proof. destruct a as [s|]; [|done]. cbn. case_decide; congruence. Qed.

(** X24.  After [updateConfigFromInput], the pre-release setting is the
    one of the input when the input gives one, and the one of the
    configuration file otherwise.  The [latest] setting is ['false']
    whenever that merged pre-release setting is on, whatever the input and
    the file say about [latest]; otherwise a [latest] of the input wins
    over the one of the file; and the setting is never the empty string. *)
Theorem updateConfigFromInput_latest config input :
  ActionConfig.prerelease (updateConfigFromInput config input)
  = match Input.prerelease input with
    | Some b => Some b
    | None => ActionConfig.prerelease config
    end
  ∧ (ActionConfig.prerelease (updateConfigFromInput config input) = Some true →
     ActionConfig.latest (updateConfigFromInput config input) = Some "false")
  ∧ (∀ latest,
       ActionConfig.prerelease (updateConfigFromInput config input) ≠ Some true →
       Input.latest input = Some latest → latest ≠ "" →
       ActionConfig.latest (updateConfigFromInput config input) = Some latest)
  ∧ ActionConfig.latest (updateConfigFromInput config input) ≠ Some "".
Proof.
  unfold updateConfigFromInput. cbn [ActionConfig.prerelease ActionConfig.latest].
  set (prerelease := match Input.prerelease input with
                     | Some b => Some b
                     | None => ActionConfig.prerelease config
                     end).
  split_and!.
  - done.
  - by intros ->.
  - intros latest Hpre -> Hlatest. destruct prerelease as [[]|]; [done| |].
    all: cbn [default from_option id]; unfold or_string.
    all: by rewrite decide_False, decide_False.
  - destruct prerelease as [[]|]; cbn [default from_option id]; [done|..].
    all: apply or_string_None_nonempty.
Qed.

(** X25.  With the input [prerelease] set to [true] in any letter case, the
    merged configuration is a pre-release one and its [latest] setting is
    ['false'], whatever the input [latest] and the configuration file
    say. *)
Theorem prerelease_input_forces_latest (core_getInput : string → string) config :
  toLowerCase (core_getInput "prerelease") = "true" →
  ActionConfig.prerelease (updateConfigFromInput config (getInput core_getInput)) = Some true
  ∧ ActionConfig.latest (updateConfigFromInput config (getInput core_getInput))
    = Some "false".
Proof.
  intros Htrue. unfold updateConfigFromInput, getInput.
  cbn [ActionConfig.prerelease ActionConfig.latest Input.prerelease Input.latest].
  rewrite Htrue.
  destruct (core_getInput "prerelease") eqn:Hinput; [done|].
  by rewrite bool_decide_false.
Qed.

Lemma prerelease_input_forces_latest_witness :
  ActionConfig.prerelease
    (updateConfigFromInput Scenario.action_config (getInput Scenario.inputs)) = Some true
  ∧ ActionConfig.latest
      (updateConfigFromInput Scenario.action_config (getInput Scenario.inputs))
    = Some "false".
Proof.
  apply (prerelease_input_forces_latest Scenario.inputs Scenario.action_config).
  vm_compute. reflexivity.
Defined.

Lemma assign_if_truthy_twice {A} (value : option string) (assign : string → A → A) (c : A) :
  (∀ s c, assign s (assign s c) = assign s c) →
  assign_if_truthy value assign (assign_if_truthy value assign c)
  = assign_if_truthy value assign c.
Proof.
  intros Hassign. unfold assign_if_truthy. destruct value as [s|]; [|done].
  destruct (truthy s); [apply Hassign|done].
Qed.

(** X26.  Merging the same input twice is merging it once. *)
Theorem updateConfigFromInput_idempotent config input :
  updateConfigFromInput (updateConfigFromInput config input) input
  = updateConfigFromInput config input.
Proof.
  unfold updateConfigFromInput.
  cbn [ActionConfig.engine ActionConfig.commitish ActionConfig.prerelease ActionConfig.latest
       ActionConfig.filter_by_commitish ActionConfig.include_pre_releases
       ActionConfig.sort_by ActionConfig.sort_direction].
  f_equal.
  - destruct (ActionConfig.engine config).
    unfold assign_if_truthy.
    destruct (Input.header input) as [h|], (Input.footer input) as [f|],
      (Input.preReleaseIdentifier input) as [i|]; try done.
    all: repeat match goal with |- context [truthy ?s] => destruct (truthy s) end; done.
  - by apply assign_if_truthy_twice.
  - by destruct (Input.prerelease input).
  - destruct (Input.prerelease input) as [[]|], (ActionConfig.prerelease config) as [[]|];
      cbn [default from_option id]; try done.
    all: unfold or_string; destruct (Input.latest input) as [l|],
           (ActionConfig.latest config) as [c|]; try done.
    all: repeat case_decide; try done.
Qed.

(** ** The autolabeler *)

Section autolabeler_properties.
Context {Pattern : Type}.
Variable test : Pattern → string → bool.
Variable ignores : list string → string → bool.
Variable runnerIsActions : bool.

Lemma some_matcher_existsb matchers text :
  some_matcher test matchers text = existsb (λ matcher, test matcher text) matchers.
Proof. induction matchers as [|m ms IH]; [done|]. cbn. by rewrite IH. Qed.

Lemma guarded_existsb {A} (f : A → bool) (l : list A) :
  bool_decide (0 < length l) && existsb f l = existsb f l.
Proof. by destruct l. Qed.

Lemma autolabel_step_applies pull_request changedFiles labels rule :
  autolabel_step test ignores pull_request changedFiles labels rule
  = if rule_applies test ignores pull_request changedFiles rule
    then set_add (Autolabel.label rule) labels else labels.
Proof.
  unfold autolabel_step, rule_applies. rewrite !some_matcher_existsb.
  rewrite <- (guarded_existsb _ (Autolabel.branch rule)),
    <- (guarded_existsb _ (Autolabel.title rule)).
  replace (bool_decide (Autolabel.files rule ≠ []))
    with (bool_decide (0 < length (Autolabel.files rule)))
    by (by destruct (Autolabel.files rule)).
  cbn [negb andb].
  destruct (bool_decide (0 < length (Autolabel.files rule))),
    (existsb (ignores (Autolabel.files rule)) changedFiles),
    (bool_decide (0 < length (Autolabel.branch rule))),
    (existsb _ (Autolabel.branch rule)),
    (bool_decide (0 < length (Autolabel.title rule))),
    (existsb _ (Autolabel.title rule)),
    (PullRequestPayload.body pull_request) as [body|];
    cbn [negb andb orb]; try done.
  all: rewrite ?some_matcher_existsb; try rewrite <- (guarded_existsb _ (Autolabel.body rule)).
  all: by destruct (bool_decide (0 < length (Autolabel.body rule))),
            (existsb _ (Autolabel.body rule)).
Qed.

(** X27.  When a configuration is found and the autolabeler is not
    disabled, the handler adds the labels of the rules that apply to the
    change request, each label once, in one call; it makes no call when no rule
    applies. *)
Theorem autolabeler_labels rules pull_request changedFiles :
  ∃ labels : list string,
    NoDup labels
    ∧ (∀ label, label ∈ labels ↔
                ∃ rule, rule ∈ rules ∧ rule_applies test ignores pull_request changedFiles rule = true
                        ∧ Autolabel.label rule = label)
    ∧ autolabeler test ignores runnerIsActions true false rules pull_request changedFiles
      = match labels with
        | [] => NoLabels
        | _ =>
            AddLabels (PullRequestPayload.number pull_request) labels
              (if runnerIsActions
               then [ ("number", VNumber (PullRequestPayload.number pull_request));
                      ("labels", VString (join "," labels)) ]
               else [])
        end.
Proof.
  exists (foldl (autolabel_step test ignores pull_request changedFiles) [] rules).
  destruct (foldl_contributors
              (λ rule, if rule_applies test ignores pull_request changedFiles rule
                       then Some (Autolabel.label rule) else None)
              (autolabel_step test ignores pull_request changedFiles) rules [])
    as [Hnodup Hmem]; [|constructor|].
  { intros s rule. rewrite autolabel_step_applies. by destruct (rule_applies _ _ _). }
  split_and!; [done| |].
  - intros label. rewrite Hmem. split.
    + intros [[]%elem_of_nil|(rule & Hrule & Happlies)].
      exists rule. destruct (rule_applies _ _ _); [|done]. by injection Happlies as <-.
    + intros (rule & Hrule & Happlies & <-). right. exists rule. by rewrite Happlies.
  - unfold autolabeler. cbn [negb orb].
    by destruct (foldl _ _ _).
Qed.

End autolabeler_properties.

Lemma startsWith_falsy p t : truthy p = false → Str.startsWith t p = true.
Proof.
  unfold truthy. intros Hp%bool_decide_eq_false.
  destruct (decide (p = "")) as [->|]; [by destruct t|done].
Qed.

(** ** [trim] and the marker line *)

Lemma trimEnd_app x y : Str.trimEnd y ≠ "" → Str.trimEnd (x +:+ y) = x +:+ Str.trimEnd y.
Proof.
  intros Hy. induction x as [|c x IH]; [done|].
  rewrite !app_String. cbn [Str.trimEnd]. rewrite IH.
  destruct (x +:+ Str.trimEnd y) eqn:Hx; [|done].
  destruct x; [|done]. by rewrite app_empty_l in Hx.
Qed.

Lemma trimStart_ends_with x c m :
  Str.is_space c = false → Str.ends_with (Str.trimStart (x +:+ String c m)) (String c m).
Proof.
  intros Hc. induction x as [|d x IH].
  - rewrite app_empty_l. cbn [Str.trimStart]. rewrite Hc. by exists "".
  - rewrite app_String. cbn [Str.trimStart]. destruct (Str.is_space d); [done|].
    by exists (String d x).
Qed.

Lemma trim_marker_line (generatedBody : string) (n : N) :
  Str.ends_with (Str.trim (generatedBody +:+ marker_line (Some n))) (pr_marker n).
Proof.
  unfold Str.trim, marker_line, pr_marker, prNumber_string.
  replace (generatedBody +:+ Str.LF +:+ Str.LF +:+ marker_open +:+ Str.of_N n
           +:+ marker_close +:+ Str.LF)
    with ((generatedBody +:+ Str.LF +:+ Str.LF +:+ marker_open +:+ Str.of_N n)
          +:+ (marker_close +:+ Str.LF))
    by (by rewrite !app_assoc_string).
  rewrite trimEnd_app by done.
  replace (Str.trimEnd (marker_close +:+ Str.LF)) with marker_close by done.
  replace ((generatedBody +:+ Str.LF +:+ Str.LF +:+ marker_open +:+ Str.of_N n)
           +:+ marker_close)
    with ((generatedBody +:+ Str.LF +:+ Str.LF)
          +:+ (marker_open +:+ Str.of_N n +:+ marker_close))
    by (by rewrite !app_assoc_string).
  by apply trimStart_ends_with.
Qed.

(** ** [generateReleaseInfo] *)

Section generateReleaseInfo_properties.
Variable semver_parse : string → option SemVer.t.
Variable getVersionInfo :
  option Release.t → string → option string → string → string → string →
  Outcome (option VersionInfo.t).
Variable template : string → TemplateObject → list Replacer.t → string.

(** Symbolic execution of the statements: unfold the monad and the
    accessors of the locals, then split on the innermost undecided test. *)
Ltac exec :=
  cbv [bind modify get log skip pure call try_catch return_
       Locals.versionInfo Locals.resolvedVersion Locals.majorVersion Locals.minorVersion
       Locals.patchVersion Locals.calculatedTag Locals.calculatedName Locals.body
       Locals.prSpecificDraftExists Locals.markerAdded Locals.targetCommitish Locals.log
       Locals.set_versionInfo Locals.set_version Locals.set_resolvedVersion
       Locals.set_calculatedTag Locals.set_calculatedName Locals.set_body
       Locals.set_prSpecificDraftExists Locals.set_markerAdded Locals.set_targetCommitish
       Locals.add_log fst snd andb orb negb].

Ltac inner_case :=
  match goal with
  | |- context [match ?x with _ => _ end] =>
      lazymatch x with
      | context [match _ with _ => _ end] => fail
      | _ => destruct x eqn:?
      end
  end.

Ltac run := exec; repeat (inner_case; exec).

Ltac unfold_body :=
  unfold generateReleaseInfo, function_body, prerelease_logic, standard_version_calculation,
    generate_body, cleanup_and_return, calculate_tag_and_name, initial_locals,
    set_first_prerelease.


Ltac in_log := apply list_elem_of_In; cbn [app In]; repeat first [left; reflexivity | right].

(** The guard of the standard version calculation holds in every run: the
    calculation always executes, whatever the pre-release logic did. *)
Lemma standard_calculation_always_runs a :
  DebugVersionKeyIncrement
    (resolveVersionKeyIncrement (Args.mergedPullRequests a) (Args.config a)
       (Args.isPreRelease a))
  ∈ (generateReleaseInfo semver_parse getVersionInfo template a).1.
Proof. unfold_body. run; in_log. Qed.

(** C1, on the code.  In a pre-release run whose draft has a well-formed
    tag, the suffix increment runs (it logs the incremented version) and the
    standard version calculation runs as well (it logs its version key
    increment): the [versionInfo] that the increment declares is a variable
    of its own block, so the [versionInfo] the guard of the standard
    calculation tests is still [null]. *)
Theorem both_version_paths_run a draft parsed n vi :
  isPrereleaseRun a = true →
  Args.prSpecificRelease a = Some draft →
  draft_suffix semver_parse a draft = Some (parsed, n) →
  draft_versionInfo getVersionInfo a draft = Ok vi →
  (∃ calculatedTag,
     IncrementedPrerelease (Args.prNumber a) (incremented_version a parsed n) calculatedTag
     ∈ (generateReleaseInfo semver_parse getVersionInfo template a).1)
  ∧ DebugVersionKeyIncrement
      (resolveVersionKeyIncrement (Args.mergedPullRequests a) (Args.config a)
         (Args.isPreRelease a))
    ∈ (generateReleaseInfo semver_parse getVersionInfo template a).1.
Proof.
  intros Hrun Hdraft Hsuffix Hvi. split; [|apply standard_calculation_always_runs].
  revert Hsuffix Hvi. unfold draft_suffix, draft_versionInfo, incremented_version.
  unfold_body. rewrite Hrun, Hdraft.
  run; try discriminate.
  all: intros [= <- <-] Hvi; try discriminate.
  all: eexists; in_log.
Qed.

(** C2, on the code.  In a pre-release run whose draft has the well-formed
    tag [major.minor.patch-identifier.N], a descriptor that is returned
    carries the version of the standard calculation on the baseline release
    (with the suffix [.0] seeded anew when the version lookup for the draft
    raised): the incremented version [major.minor.patch-identifier.(N+1)]
    is overwritten. *)
Theorem resolvedVersion_of_standard_calculation a draft parsed n log d :
  isPrereleaseRun a = true →
  Args.prSpecificRelease a = Some draft →
  draft_suffix semver_parse a draft = Some (parsed, n) →
  generateReleaseInfo semver_parse getVersionInfo template a = (log, Ok (Some d)) →
  ∃ vi rv,
    standard_versionInfo getVersionInfo a = Ok (Some vi)
    ∧ VersionInfo.RESOLVED_VERSION vi = Some rv
    ∧ ReleaseInfo.majorVersion d = Some (ResolvedVersion.MAJOR rv)
    ∧ ReleaseInfo.minorVersion d = Some (ResolvedVersion.MINOR rv)
    ∧ ReleaseInfo.patchVersion d = Some (ResolvedVersion.PATCH rv)
    ∧ ReleaseInfo.resolvedVersion d =
      match draft_versionInfo getVersionInfo a draft with
      | Ok _ => Some (ResolvedVersion.version rv)
      | Raise _ =>
          Some (Str.of_N (ResolvedVersion.MAJOR rv) +:+ "." +:+
                Str.of_N (ResolvedVersion.MINOR rv) +:+ "." +:+
                Str.of_N (ResolvedVersion.PATCH rv) +:+ "-" +:+
                Config.prerelease_identifier (Args.config a) +:+ ".0")
      end.
Proof.
  intros Hrun Hdraft. revert log d.
  unfold draft_suffix, draft_versionInfo, standard_versionInfo.
  unfold_body. rewrite Hrun, Hdraft.
  run; try discriminate.
  all: intros log' d' _ [= <- <-]; try discriminate.
  all: cbn [ReleaseInfo.majorVersion ReleaseInfo.minorVersion ReleaseInfo.patchVersion
            ReleaseInfo.resolvedVersion].
  all: match goal with
       | H : ?o ≫= VersionInfo.RESOLVED_VERSION = Some ?rv |- _ =>
           destruct o as [vi'|]; [|discriminate]; exists vi', rv
       end.
  all: by rewrite ?app_assoc_string.
Qed.

(** C3, on the code.  In a pre-release run whose draft fails the shape
    check, a descriptor that is returned has its found-existing-draft flag
    set, where the same run with no draft has it cleared: only an exception
    inside the [try] block clears the flag. *)
Theorem malformed_draft_still_found a draft :
  isPrereleaseRun a = true →
  Args.prSpecificRelease a = Some draft →
  draft_suffix semver_parse a draft = None →
  (∀ log d,
     generateReleaseInfo semver_parse getVersionInfo template a = (log, Ok (Some d)) →
     ReleaseInfo.foundPrSpecificDraft d = true)
  ∧ (∀ log d,
       generateReleaseInfo semver_parse getVersionInfo template
         (Args.with_prSpecificRelease None a) = (log, Ok (Some d)) →
       ReleaseInfo.foundPrSpecificDraft d = false).
Proof.
  intros Hrun Hdraft Hsuffix. split.
  - revert Hsuffix. unfold draft_suffix. unfold_body. rewrite Hrun, Hdraft.
    run; try discriminate.
    all: by intros _ log' d' [= <- <-].
  - unfold_body. unfold isPrereleaseRun in *.
    destruct a; cbn [Args.with_prSpecificRelease Args.isPreRelease Args.config
                     Args.prNumber Args.prSpecificRelease] in *.
    rewrite Hrun.
    run.
    all: by intros log' d' [= <- <-].
Qed.

(** C10.  The descriptor's target commitish is the empty string when the
    input one starts with [refs/tags/], and the input one otherwise; no
    other field of the descriptor depends on the target commitish: the run
    on any other target commitish [c] returns the same descriptor, up to
    its target commitish, which is the one of [c]. *)
Theorem targetCommitish_cleanup a log d :
  generateReleaseInfo semver_parse getVersionInfo template a = (log, Ok (Some d)) →
  ReleaseInfo.targetCommitish d =
    (if Str.startsWith (Args.targetCommitish a) "refs/tags/" then ""
     else Args.targetCommitish a)
  ∧ ∀ c, ∃ log',
      generateReleaseInfo semver_parse getVersionInfo template
        (Args.with_targetCommitish c a)
      = (log', Ok (Some (ReleaseInfo.with_targetCommitish
                           (if Str.startsWith c "refs/tags/" then "" else c) d))).
Proof.
  revert log d. destruct a. unfold_body.
  unfold isPrereleaseRun, inputVersion.
  cbv [Args.with_targetCommitish Args.owner Args.repo Args.commits Args.config
       Args.lastRelease Args.mergedPullRequests Args.version Args.tag Args.name
       Args.isPreRelease Args.latest Args.shouldDraft Args.targetCommitish Args.prNumber
       Args.prSpecificRelease].
  run.
  all: intros log' d' Heq; try discriminate; injection Heq as <- <-.
  all: split; [reflexivity|].
  all: intros c; exec; destruct (Str.startsWith c "refs/tags/"); eexists; reflexivity.
Qed.

(** C9.  In every pre-release run (the pre-release flag is set, an
    identifier is configured, the change-request number is known), with or
    without a draft found, the body of the descriptor ends with the marker
    of the change-request number. *)
Theorem body_ends_with_marker a n log d :
  isPrereleaseRun a = true →
  Args.prNumber a = Some n →
  generateReleaseInfo semver_parse getVersionInfo template a = (log, Ok (Some d)) →
  Str.ends_with (ReleaseInfo.body d) (pr_marker n).
Proof.
  intros Hrun Hn. revert log d. unfold_body. rewrite Hrun, Hn.
  run.
  all: intros log' d' [= <- <-]; cbn [ReleaseInfo.body]; rewrite ?app_empty_l;
    apply trim_marker_line.
Qed.

(** With no draft handed in, the found-existing-draft flag is cleared. *)
Lemma no_draft_flag_cleared a log d :
  Args.prSpecificRelease a = None →
  generateReleaseInfo semver_parse getVersionInfo template a = (log, Ok (Some d)) →
  ReleaseInfo.foundPrSpecificDraft d = false.
Proof.
  intros Hdraft. revert log d. unfold_body. rewrite Hdraft.
  destruct (isPrereleaseRun a).
  - run. all: intros log' d' Heq; try discriminate; injection Heq as <- <-. all: done.
  - run. all: intros log' d' Heq; try discriminate; injection Heq as <- <-. all: done.
Qed.

(** The resolved version of a pre-release run that was handed no draft. *)
Lemma first_prerelease_resolvedVersion a log d :
  isPrereleaseRun a = true →
  Args.prSpecificRelease a = None →
  generateReleaseInfo semver_parse getVersionInfo template a = (log, Ok (Some d)) →
  ∃ x y z,
    ReleaseInfo.resolvedVersion d =
    Some (Str.of_N x +:+ "." +:+ Str.of_N y +:+ "." +:+ Str.of_N z +:+ "-" +:+
          Config.prerelease_identifier (Args.config a) +:+ ".0").
Proof.
  intros Hrun Hdraft. revert log d. unfold_body. rewrite Hrun, Hdraft.
  run; try discriminate.
  all: intros log' d' Heq; try discriminate; injection Heq as <- <-.
  all: cbn [ReleaseInfo.resolvedVersion]; eexists _, _, _.
  all: by rewrite ?app_assoc_string.
Qed.

(** The target commitish of a descriptor. *)
Lemma descriptor_targetCommitish a log d :
  generateReleaseInfo semver_parse getVersionInfo template a = (log, Ok (Some d)) →
  ReleaseInfo.targetCommitish d =
    (if Str.startsWith (Args.targetCommitish a) "refs/tags/" then ""
     else Args.targetCommitish a).
Proof.
  revert log d. unfold_body.
  run.
  all: intros log' d' Heq; try discriminate; injection Heq as <- <-.
  all: reflexivity.
Qed.

(** X15.  What a call gives is decided by the version lookup of the
    standard calculation alone: the call raises when that lookup raises,
    gives [null] when the lookup resolves no version, and gives a
    descriptor otherwise.  An exception of the version lookup for the draft
    is caught and never reaches the caller. *)
Theorem generateReleaseInfo_outcome a :
  match standard_versionInfo getVersionInfo a with
  | Raise e => (generateReleaseInfo semver_parse getVersionInfo template a).2 = Raise e
  | Ok vi =>
      match vi ≫= VersionInfo.RESOLVED_VERSION with
      | None => (generateReleaseInfo semver_parse getVersionInfo template a).2 = Ok None
      | Some _ =>
          ∃ d, (generateReleaseInfo semver_parse getVersionInfo template a).2 = Ok (Some d)
      end
  end.
Proof.
  unfold standard_versionInfo. unfold_body. run. all: try done. all: try by eexists.
Qed.

(** X16.  The found-existing-draft flag of a descriptor is set only in a
    pre-release run that was handed a draft: with no draft, or outside a
    pre-release run, the flag is cleared, and the caller creates a release. *)
Theorem foundPrSpecificDraft_only_with_draft a log d :
  generateReleaseInfo semver_parse getVersionInfo template a = (log, Ok (Some d)) →
  ReleaseInfo.foundPrSpecificDraft d = true →
  isPrereleaseRun a = true ∧ is_Some (Args.prSpecificRelease a).
Proof.
  revert log d. unfold_body.
  destruct (isPrereleaseRun a) eqn:Hrun, (Args.prSpecificRelease a) as [draft|] eqn:Hdraft.
  - intros; split; [done|by eexists].
  - run. all: intros log' d' Heq; try discriminate; injection Heq as <- <-. all: done.
  - run. all: intros log' d' Heq; try discriminate; injection Heq as <- <-. all: done.
  - run. all: intros log' d' Heq; try discriminate; injection Heq as <- <-. all: done.
Qed.

(** X17.  The first pre-release run for a change request (no draft is
    handed in) resolves the version [major.minor.patch-identifier.0], where
    [major], [minor] and [patch] are those of the standard calculation on
    the baseline release. *)
Theorem first_prerelease_version a log d :
  isPrereleaseRun a = true →
  Args.prSpecificRelease a = None →
  generateReleaseInfo semver_parse getVersionInfo template a = (log, Ok (Some d)) →
  ∃ vi rv,
    standard_versionInfo getVersionInfo a = Ok (Some vi)
    ∧ VersionInfo.RESOLVED_VERSION vi = Some rv
    ∧ ReleaseInfo.resolvedVersion d =
      Some (Str.of_N (ResolvedVersion.MAJOR rv) +:+ "." +:+
            Str.of_N (ResolvedVersion.MINOR rv) +:+ "." +:+
            Str.of_N (ResolvedVersion.PATCH rv) +:+ "-" +:+
            Config.prerelease_identifier (Args.config a) +:+ ".0")
    ∧ ReleaseInfo.majorVersion d = Some (ResolvedVersion.MAJOR rv)
    ∧ ReleaseInfo.minorVersion d = Some (ResolvedVersion.MINOR rv)
    ∧ ReleaseInfo.patchVersion d = Some (ResolvedVersion.PATCH rv)
    ∧ ReleaseInfo.foundPrSpecificDraft d = false.
Proof.
  intros Hrun Hdraft. revert log d. unfold standard_versionInfo.
  unfold_body. rewrite Hrun, Hdraft.
  run; try discriminate.
  all: intros log' d' Heq; try discriminate; injection Heq as <- <-.
  all: cbn [ReleaseInfo.majorVersion ReleaseInfo.minorVersion ReleaseInfo.patchVersion
            ReleaseInfo.resolvedVersion ReleaseInfo.foundPrSpecificDraft].
  all: match goal with
       | H : ?o ≫= VersionInfo.RESOLVED_VERSION = Some ?rv |- _ =>
           destruct o as [vi'|]; [|discriminate]; exists vi', rv
       end.
  all: by rewrite ?app_assoc_string.
Qed.

(** X18.  Outside a pre-release run the descriptor is the one of the
    standard calculation: its version is the resolved version of the
    lookup on the baseline release, its body is the rendered text with the
    white space at both ends removed and no marker, the found-existing-draft
    flag is cleared, and the pre-release, latest and draft settings are
    those handed in. *)
Theorem standard_run_descriptor a log d :
  isPrereleaseRun a = false →
  generateReleaseInfo semver_parse getVersionInfo template a = (log, Ok (Some d)) →
  ∃ vi rv,
    standard_versionInfo getVersionInfo a = Ok (Some vi)
    ∧ VersionInfo.RESOLVED_VERSION vi = Some rv
    ∧ ReleaseInfo.resolvedVersion d = Some (ResolvedVersion.version rv)
    ∧ ReleaseInfo.majorVersion d = Some (ResolvedVersion.MAJOR rv)
    ∧ ReleaseInfo.minorVersion d = Some (ResolvedVersion.MINOR rv)
    ∧ ReleaseInfo.patchVersion d = Some (ResolvedVersion.PATCH rv)
    ∧ ReleaseInfo.body d = Str.trim (generatedBody template a (Some vi))
    ∧ ReleaseInfo.foundPrSpecificDraft d = false
    ∧ ReleaseInfo.prerelease d = Args.isPreRelease a
    ∧ ReleaseInfo.make_latest d = Args.latest a
    ∧ ReleaseInfo.draft d = Args.shouldDraft a.
Proof.
  intros Hrun. revert log d. unfold standard_versionInfo, generatedBody.
  unfold_body. rewrite Hrun.
  run; try discriminate.
  all: intros log' d' Heq; try discriminate; injection Heq as <- <-.
  all: cbn [ReleaseInfo.majorVersion ReleaseInfo.minorVersion ReleaseInfo.patchVersion
            ReleaseInfo.resolvedVersion ReleaseInfo.foundPrSpecificDraft ReleaseInfo.body
            ReleaseInfo.prerelease ReleaseInfo.make_latest ReleaseInfo.draft].
  all: match goal with
       | H : ?o ≫= VersionInfo.RESOLVED_VERSION = Some ?rv |- _ =>
           destruct o as [vi'|]; [|discriminate]; exists vi', rv
       end.
  all: by rewrite ?app_empty_r.
Qed.

(** X19.  When the version lookup for a well-formed draft raises, the run
    falls back to the standard calculation: the error is logged with the
    tag of the draft, and the call gives what the same run with no draft
    gives. *)
Theorem draft_error_falls_back a draft parsed n e :
  isPrereleaseRun a = true →
  Args.prSpecificRelease a = Some draft →
  draft_suffix semver_parse a draft = Some (parsed, n) →
  draft_versionInfo getVersionInfo a draft = Raise e →
  DraftTagError (Release.tag_name draft) e
  ∈ (generateReleaseInfo semver_parse getVersionInfo template a).1
  ∧ (generateReleaseInfo semver_parse getVersionInfo template a).2
    = (generateReleaseInfo semver_parse getVersionInfo template
         (Args.with_prSpecificRelease None a)).2.
Proof.
  intros Hrun Hdraft Hsuffix Hvi. revert Hsuffix Hvi.
  unfold draft_suffix, draft_versionInfo. unfold_body.
  unfold isPrereleaseRun, inputVersion in *.
  destruct a; cbv [Args.with_prSpecificRelease Args.owner Args.repo Args.commits Args.config
       Args.lastRelease Args.mergedPullRequests Args.version Args.tag Args.name
       Args.isPreRelease Args.latest Args.shouldDraft Args.targetCommitish Args.prNumber
       Args.prSpecificRelease] in *.
  subst. rewrite Hrun.
  run; try discriminate.
  all: intros [= <- <-] Hvi; try discriminate; injection Hvi as <-.
  all: split; [in_log|reflexivity].
Qed.

(** X20.  When no tag is handed in and the pre-release logic computed none
    (no draft is handed in, or the run is no pre-release run), the tag of
    the descriptor starts with the tag prefix: the prefix is put before a
    rendered tag that lacks it. *)
Theorem tag_starts_with_prefix a log d :
  Args.tag a = None →
  isPrereleaseRun a = false ∨ Args.prSpecificRelease a = None →
  generateReleaseInfo semver_parse getVersionInfo template a = (log, Ok (Some d)) →
  ∃ tag, ReleaseInfo.tag d = Some tag
         ∧ Str.startsWith tag (Config.tag_prefix (Args.config a)) = true.
Proof.
  intros Htag Hcase. revert log d. unfold_body. rewrite Htag.
  destruct Hcase as [Hrun|Hdraft]; [rewrite Hrun|rewrite Hdraft].
  - run.
    all: intros log' d' Heq; try discriminate; injection Heq as <- <-.
    all: cbn [ReleaseInfo.tag]; eexists; split; [reflexivity|].
    all: first [assumption | apply prefix_app_l | by apply startsWith_falsy].
  - run.
    all: intros log' d' Heq; try discriminate; injection Heq as <- <-.
    all: cbn [ReleaseInfo.tag]; eexists; split; [reflexivity|].
    all: first [assumption | apply prefix_app_l | by apply startsWith_falsy].
Qed.

End generateReleaseInfo_properties.

(** ** [drafter] *)

Section drafter_properties.
Variable semver_parse : string → option SemVer.t.
Variable getVersionInfo :
  option Release.t → string → option string → string → string → string →
  Outcome (option VersionInfo.t).
Variable template : string → TemplateObject → list Replacer.t → string.
Variable compareVersions : string → string → option Z.
Variable isTriggerableReference : string → ActionConfig.t → bool.
Variable findCommitsWithAssociatedPullRequests :
  string → option Release.t → ActionConfig.t → list Commit.t * list PullRequest.t.
Variable sortPullRequests : list PullRequest.t → string → string → list PullRequest.t.
Variable runnerIsActions : bool.
Variable github : ApiCall → ReleaseResponse.t.

(** A run of [drafter] that calls the API has a descriptor of
    [generateReleaseInfo] for arguments with no draft, in which the
    pre-release flag, the identifier, the target commitish and the
    change-request number are those of [drafter]. *)
Lemma drafter_called input config ref owner repo releases prNumber call outputs :
  drafter semver_parse getVersionInfo template compareVersions isTriggerableReference
    findCommitsWithAssociatedPullRequests sortPullRequests runnerIsActions github
    input (Some config) ref owner repo releases prNumber
  = Ok (Called call outputs) →
  ∃ a log d,
    generateReleaseInfo semver_parse getVersionInfo template a = (log, Ok (Some d))
    ∧ Args.prSpecificRelease a = None
    ∧ Args.prNumber a = prNumber
    ∧ Args.isPreRelease a
      = default false (ActionConfig.prerelease (updateConfigFromInput config input))
    ∧ Args.config a = ActionConfig.engine (updateConfigFromInput config input)
    ∧ Args.targetCommitish a
      = match ActionConfig.commitish (updateConfigFromInput config input) with
        | Some commitish => if truthy commitish then commitish else ref
        | None => ref
        end
    ∧ (if negb (ReleaseInfo.foundPrSpecificDraft d) then Ok (createRelease d)
       else updateRelease None d) = Ok call
    ∧ outputs = if runnerIsActions then setActionOutput (github call) d else [].
Proof.
  unfold drafter.
  destruct (Input.disableReleaser input); [done|].
  destruct (negb (isTriggerableReference _ _)); [done|].
  destruct (findCommitsWithAssociatedPullRequests _ _ _) as [commits mergedPullRequests].
  match goal with
  | |- context [generateReleaseInfo _ _ _ ?args] =>
      destruct (generateReleaseInfo semver_parse getVersionInfo template args)
        as [log [[d|]|e]] eqn:Hgen; cbn [snd]; try done
  end.
  destruct (if negb _ then _ else _) as [call'|e] eqn:Hcall; [|done].
  intros [= <- <-]. eexists _, _, _. split; [exact Hgen|]. by split_and!.
Qed.

(** X28.  [drafter] never updates a release: a run that calls the API
    creates a release, also when the fetched releases hold a draft with the
    marker of the change request.  The descriptor it creates the release
    from has the found-existing-draft flag cleared. *)
Theorem drafter_only_creates input config ref owner repo releases prNumber call outputs :
  drafter semver_parse getVersionInfo template compareVersions isTriggerableReference
    findCommitsWithAssociatedPullRequests sortPullRequests runnerIsActions github
    input (Some config) ref owner repo releases prNumber
  = Ok (Called call outputs) →
  ∃ d, call = createRelease d ∧ ReleaseInfo.foundPrSpecificDraft d = false.
Proof.
  intros (a & log & d & Hgen & Hnone & _ & _ & _ & _ & Hcall & _)%drafter_called.
  exists d. pose proof (no_draft_flag_cleared _ _ _ _ _ _ Hnone Hgen) as Hfound.
  rewrite Hfound in Hcall. cbn [negb] in Hcall. by injection Hcall as <-.
Qed.

(** X29.  In a pre-release run of [drafter] for a change request (the merged
    pre-release setting is on, an identifier is configured, the number of
    the change request is known), the resolved version that is output
    always ends with the suffix [.0] after the identifier: the suffix never
    advances, since the run never sees the draft of the change request. *)
Theorem drafter_prerelease_version input config ref owner repo releases n call outputs :
  drafter semver_parse getVersionInfo template compareVersions isTriggerableReference
    findCommitsWithAssociatedPullRequests sortPullRequests runnerIsActions github
    input (Some config) ref owner repo releases (Some n)
  = Ok (Called call outputs) →
  runnerIsActions = true →
  ActionConfig.prerelease (updateConfigFromInput config input) = Some true →
  Config.prerelease_identifier (ActionConfig.engine (updateConfigFromInput config input))
  ≠ "" →
  ∃ x y z,
    ("resolved_version",
     VString (Str.of_N x +:+ "." +:+ Str.of_N y +:+ "." +:+ Str.of_N z +:+ "-" +:+
              Config.prerelease_identifier
                (ActionConfig.engine (updateConfigFromInput config input)) +:+ ".0"))
    ∈ outputs.
Proof.
  intros (a & log & d & Hgen & Hnone & Hn & Hpre & Hconfig & _ & _ & ->)%drafter_called
    -> Hprerelease Hidentifier.
  assert (isPrereleaseRun a = true) as Hrun.
  { unfold isPrereleaseRun. rewrite Hpre, Hprerelease, Hconfig, Hn. cbn [default from_option id].
    unfold truthy. by rewrite !bool_decide_true. }
  destruct (first_prerelease_resolvedVersion _ _ _ _ _ _ Hrun Hnone Hgen)
    as (x & y & z & Hversion).
  rewrite Hconfig in Hversion. exists x, y, z.
  unfold setActionOutput. rewrite !elem_of_app. do 5 right. left.
  rewrite Hversion. cbn [string_value]. unfold setOutput_if_truthy.
  cbn [ToBoolean]. unfold truthy. rewrite bool_decide_true; [by left|].
  pose proof (of_N_nonempty x).
  by destruct (Str.of_N x).
Qed.

(** X30.  A run of [drafter] on a tag reference, with no commitish
    configured, creates the release with an empty target commitish, for
    GitHub to take the default branch. *)
Theorem drafter_tag_reference input config ref owner repo releases prNumber call outputs :
  drafter semver_parse getVersionInfo template compareVersions isTriggerableReference
    findCommitsWithAssociatedPullRequests sortPullRequests runnerIsActions github
    input (Some config) ref owner repo releases prNumber
  = Ok (Called call outputs) →
  ActionConfig.commitish (updateConfigFromInput config input) = None →
  Str.startsWith ref "refs/tags/" = true →
  ∃ request, call = CreateRelease request
             ∧ request !! "target_commitish" = Some (VString "").
Proof.
  intros (a & log & d & Hgen & Hnone & _ & _ & _ & Htarget & Hcall & _)%drafter_called
    Hcommitish Href.
  rewrite Hcommitish in Htarget.
  pose proof (descriptor_targetCommitish _ _ _ _ _ _ Hgen) as Hd.
  rewrite Htarget, Href in Hd.
  pose proof (no_draft_flag_cleared _ _ _ _ _ _ Hnone Hgen) as Hfound.
  rewrite Hfound in Hcall. cbn [negb] in Hcall. injection Hcall as <-.
  eexists. split; [reflexivity|]. by rewrite Hd.
Qed.

End drafter_properties.

(** ** The sample runs *)

Lemma both_version_paths_run_witness :
  (∃ calculatedTag,
     IncrementedPrerelease (Some 42%N) "1.2.0-beta.4" calculatedTag
     ∈ (Sample.generate (Sample.run (Some Sample.draft_beta_3))).1)
  ∧ DebugVersionKeyIncrement "prepatch"
    ∈ (Sample.generate (Sample.run (Some Sample.draft_beta_3))).1.
Proof.
  eapply (both_version_paths_run Reference.semver_parse Reference.getVersionInfo
            Reference.template (Sample.run (Some Sample.draft_beta_3))
            Sample.draft_beta_3
            (SemVer.mk 1 2 0 [SemVer.IdString "beta"; SemVer.IdNumber 3] []) 3%N);
    [reflexivity | reflexivity | vm_compute; reflexivity | vm_compute; reflexivity].
Defined.

Lemma resolvedVersion_of_standard_calculation_witness :
  ∃ log d,
    Sample.generate (Sample.run (Some Sample.draft_beta_3)) = (log, Ok (Some d))
    ∧ ReleaseInfo.resolvedVersion d = Some "1.1.1-beta.0"
    ∧ ReleaseInfo.resolvedVersion d ≠ Some "1.2.0-beta.4".
Proof.
  eexists _, _. split; [vm_compute; reflexivity|].
  edestruct (resolvedVersion_of_standard_calculation Reference.semver_parse
               Reference.getVersionInfo Reference.template
               (Sample.run (Some Sample.draft_beta_3)) Sample.draft_beta_3)
    as (vi & rv & Hvi & Hrv & _ & _ & _ & Hversion);
    [reflexivity | reflexivity | vm_compute; reflexivity | vm_compute; reflexivity |].
  vm_compute in Hvi. injection Hvi as <-.
  vm_compute in Hrv. injection Hrv as <-.
  rewrite Hversion. split; [vm_compute; reflexivity | vm_compute; discriminate].
Defined.

Lemma malformed_draft_still_found_witness :
  ∃ log d log' d',
    Sample.generate (Sample.run (Some Sample.draft_rc_3)) = (log, Ok (Some d))
    ∧ ReleaseInfo.foundPrSpecificDraft d = true
    ∧ Sample.generate (Sample.run None) = (log', Ok (Some d'))
    ∧ ReleaseInfo.foundPrSpecificDraft d' = false.
Proof.
  destruct (malformed_draft_still_found Reference.semver_parse Reference.getVersionInfo
              Reference.template (Sample.run (Some Sample.draft_rc_3)) Sample.draft_rc_3)
    as [Hfound Hnone];
    [reflexivity | reflexivity | vm_compute; reflexivity |].
  eexists _, _, _, _. split_and!.
  - vm_compute. reflexivity.
  - eapply Hfound. vm_compute. reflexivity.
  - vm_compute. reflexivity.
  - eapply Hnone. vm_compute. reflexivity.
Defined.

Lemma body_ends_with_marker_witness :
  ∃ log d,
    Sample.generate (Sample.run (Some Sample.draft_beta_3)) = (log, Ok (Some d))
    ∧ Str.ends_with (ReleaseInfo.body d) "<!-- pr-number: 42 -->".
Proof.
  eexists _, _. split; [vm_compute; reflexivity|].
  eapply (body_ends_with_marker Reference.semver_parse Reference.getVersionInfo
            Reference.template (Sample.run (Some Sample.draft_beta_3)) 42%N);
    [reflexivity | reflexivity | vm_compute; reflexivity].
Defined.

Lemma targetCommitish_cleanup_witness :
  ∃ log d,
    Sample.generate (Sample.run None) = (log, Ok (Some d))
    ∧ ReleaseInfo.targetCommitish d = "refs/heads/main"
    ∧ ∃ log',
        Sample.generate (Args.with_targetCommitish "refs/tags/v1.2.0" (Sample.run None))
        = (log', Ok (Some (ReleaseInfo.with_targetCommitish "" d))).
Proof.
  eexists _, _. split; [vm_compute; reflexivity|].
  edestruct (targetCommitish_cleanup Reference.semver_parse Reference.getVersionInfo
               Reference.template (Sample.run None)) as [Htarget Hother];
    [vm_compute; reflexivity|].
  split; [exact Htarget|].
  destruct (Hother "refs/tags/v1.2.0") as [log' Hrun].
  exists log'. unfold Sample.generate. exact Hrun.
Defined.

Lemma foundPrSpecificDraft_only_with_draft_witness :
  ∃ log d,
    Sample.generate (Sample.run (Some Sample.draft_rc_3)) = (log, Ok (Some d))
    ∧ ReleaseInfo.foundPrSpecificDraft d = true
    ∧ isPrereleaseRun (Sample.run (Some Sample.draft_rc_3)) = true
    ∧ is_Some (Args.prSpecificRelease (Sample.run (Some Sample.draft_rc_3))).
Proof.
  eexists _, _. split; [vm_compute; reflexivity|]. split; [reflexivity|].
  eapply (foundPrSpecificDraft_only_with_draft Reference.semver_parse
            Reference.getVersionInfo Reference.template
            (Sample.run (Some Sample.draft_rc_3)));
    [vm_compute; reflexivity | reflexivity].
Defined.

Lemma first_prerelease_version_witness :
  ∃ log d,
    Sample.generate (Sample.run None) = (log, Ok (Some d))
    ∧ ReleaseInfo.resolvedVersion d = Some "1.1.1-beta.0".
Proof.
  eexists _, _. split; [vm_compute; reflexivity|].
  edestruct (first_prerelease_version Reference.semver_parse Reference.getVersionInfo
               Reference.template (Sample.run None))
    as (vi & rv & Hvi & Hrv & Hversion & _);
    [reflexivity | reflexivity | vm_compute; reflexivity |].
  vm_compute in Hvi. injection Hvi as <-.
  vm_compute in Hrv. injection Hrv as <-.
  rewrite Hversion. vm_compute. reflexivity.
Defined.

Lemma standard_run_descriptor_witness :
  ∃ log d,
    generateReleaseInfo Reference.semver_parse Reference.getVersionInfo Reference.template
      Scenario.standard_run = (log, Ok (Some d))
    ∧ ReleaseInfo.resolvedVersion d = Some "1.1.1"
    ∧ ReleaseInfo.foundPrSpecificDraft d = false.
Proof.
  eexists _, _. split; [vm_compute; reflexivity|].
  edestruct (standard_run_descriptor Reference.semver_parse Reference.getVersionInfo
               Reference.template Scenario.standard_run)
    as (vi & rv & Hvi & Hrv & Hversion & _ & _ & _ & _ & Hfound & _);
    [reflexivity | vm_compute; reflexivity |].
  vm_compute in Hvi. injection Hvi as <-.
  vm_compute in Hrv. injection Hrv as <-.
  split; [|exact Hfound]. rewrite Hversion. vm_compute. reflexivity.
Defined.

Lemma draft_error_falls_back_witness :
  DraftTagError "v1.2.0-beta.3" "no version for a draft"
  ∈ (generateReleaseInfo Reference.semver_parse Scenario.getVersionInfo_no_draft
       Reference.template (Sample.run (Some Sample.draft_beta_3))).1
  ∧ (generateReleaseInfo Reference.semver_parse Scenario.getVersionInfo_no_draft
       Reference.template (Sample.run (Some Sample.draft_beta_3))).2
    = (generateReleaseInfo Reference.semver_parse Scenario.getVersionInfo_no_draft
         Reference.template (Sample.run None)).2.
Proof.
  eapply (draft_error_falls_back Reference.semver_parse Scenario.getVersionInfo_no_draft
            Reference.template (Sample.run (Some Sample.draft_beta_3)) Sample.draft_beta_3
            (SemVer.mk 1 2 0 [SemVer.IdString "beta"; SemVer.IdNumber 3] []) 3%N
            "no version for a draft");
    [reflexivity | reflexivity | vm_compute; reflexivity | vm_compute; reflexivity].
Defined.

Lemma tag_starts_with_prefix_witness :
  ∃ log d,
    Sample.generate (Sample.run None) = (log, Ok (Some d))
    ∧ ∃ tag, ReleaseInfo.tag d = Some tag ∧ Str.startsWith tag "v" = true.
Proof.
  eexists _, _. split; [vm_compute; reflexivity|].
  eapply (tag_starts_with_prefix Reference.semver_parse Reference.getVersionInfo
            Reference.template (Sample.run None));
    [reflexivity | by right | vm_compute; reflexivity].
Defined.

Lemma drafter_only_creates_witness :
  ∃ call outputs,
    Scenario.run_drafter "refs/heads/main" [Sample.v1_1_0; Sample.draft_beta_3] (Some 42%N)
    = Ok (Called call outputs)
    ∧ ∃ d, call = createRelease d ∧ ReleaseInfo.foundPrSpecificDraft d = false.
Proof.
  eexists _, _. split; [vm_compute; reflexivity|].
  eapply (drafter_only_creates Reference.semver_parse Reference.getVersionInfo
            Reference.template Reference.compareVersions (λ _ _, true)
            (λ _ _ _, ([], [Sample.fix_change])) (λ pullRequests _ _, pullRequests) true
            Scenario.github (getInput Scenario.inputs) Scenario.action_config
            "refs/heads/main" "octo" "demo" [Sample.v1_1_0; Sample.draft_beta_3]
            (Some 42%N)).
  vm_compute. reflexivity.
Defined.

Lemma drafter_prerelease_version_witness :
  ∃ call outputs,
    Scenario.run_drafter "refs/heads/main" [Sample.v1_1_0; Sample.draft_beta_3] (Some 42%N)
    = Ok (Called call outputs)
    ∧ ∃ x y z,
        ("resolved_version",
         VString (Str.of_N x +:+ "." +:+ Str.of_N y +:+ "." +:+ Str.of_N z +:+ "-beta.0"))
        ∈ outputs.
Proof.
  eexists _, _. split; [vm_compute; reflexivity|].
  eapply (drafter_prerelease_version Reference.semver_parse Reference.getVersionInfo
            Reference.template Reference.compareVersions (λ _ _, true)
            (λ _ _ _, ([], [Sample.fix_change])) (λ pullRequests _ _, pullRequests) true
            Scenario.github (getInput Scenario.inputs) Scenario.action_config
            "refs/heads/main" "octo" "demo" [Sample.v1_1_0; Sample.draft_beta_3] 42%N);
    [vm_compute; reflexivity | reflexivity | vm_compute; reflexivity
    | vm_compute; discriminate].
Defined.

Lemma drafter_tag_reference_witness :
  ∃ call outputs,
    Scenario.run_drafter "refs/tags/v1.2.0" [Sample.v1_1_0] None = Ok (Called call outputs)
    ∧ ∃ request, call = CreateRelease request
                 ∧ request !! "target_commitish" = Some (VString "").
Proof.
  eexists _, _. split; [vm_compute; reflexivity|].
  eapply (drafter_tag_reference Reference.semver_parse Reference.getVersionInfo
            Reference.template Reference.compareVersions (λ _ _, true)
            (λ _ _ _, ([], [Sample.fix_change])) (λ pullRequests _ _, pullRequests) true
            Scenario.github (getInput Scenario.inputs) Scenario.action_config
            "refs/tags/v1.2.0" "octo" "demo" [Sample.v1_1_0] None);
    [vm_compute; reflexivity | vm_compute; reflexivity | reflexivity].
Defined.
